(** * auto-ai utility scripts: the codebase mapper (aa.py) and the lint
      report writer (_scanproblem.py)

    A shallow embedding of the two Python scripts and the properties their
    specification states about them.

    Definitions:
    - [Py]     : the pieces of the Python runtime both scripts lean on (str
                 as a sequence of code points, str.join, str.replace,
                 dict.fromkeys, list.sort, decimal formatting);
    - [Re]     : a backtracking matcher for the fragment of [re] syntax the
                 five signature rules use, and [re.findall];
    - [Aa]     : aa.py ([get_signatures], [generate_map]), on POSIX paths;
    - [Scan]   : _scanproblem.py ([write_log], [main]), in a world ([env])
                 that supplies the clock, the working directory, the
                 subprocess, the JSON decoder and [os.path.relpath];
    - [Sample] : one such world, to run the statements on examples;
    - [Shape]  : the shapes of text the five signature rules accept;
    - [Layout] : where the lines of the map come from, and the script of
                 aa.py that saves the map;
    - [Run]    : vocabulary for what holds of every run of [main].

    Statements:
    - [PyFacts], [SortFacts] : dict.fromkeys keeps first occurrences;
                 sort(reverse=True) is a stable descending sort;
    - [AaFacts]   : deduplication, cut and order of the signature list;
    - [WalkFacts] : pruning of ignored directories, determinism of the map;
    - [ScanFacts] : the branches of the report and its defaults;
    - [ShapeFacts]  : every label names a declaration of the text;
    - [LayoutFacts] : files opened, entries listed, indentation and depth,
                 the output file in its own map;
    - [RunFacts]  : the log is started afresh and only appended to, the
                 actions of a run, failures, the report as a text.       *)

From Stdlib Require Import List ZArith NArith Lia Bool Arith.
From Stdlib Require Import Ascii.
From Stdlib Require String DecimalString.
From Stdlib Require Import Permutation Sorted.
Import ListNotations.
Import String.StringSyntax.
Delimit Scope string_scope with string.

Set Implicit Arguments.
Set Warnings "-register-all".

(* ===================================================================== *)
(** * Python runtime                                                      *)
(* ===================================================================== *)

Module Py.

(** A Python [str] is a sequence of Unicode code points: [len], slicing and
    [==] all work on code points. *)
Definition char := N.
Definition text := list char.

(** An ASCII literal of the source as a [text]. *)
Definition lit (s : String.string) : text :=
  map N_of_ascii (String.list_ascii_of_string s).
Arguments lit s%_string.

Definition char_eqb : char -> char -> bool := N.eqb.

Fixpoint text_eqb (a b : text) : bool :=
  match a, b with
  | [], [] => true
  | x :: a', y :: b' => char_eqb x y && text_eqb a' b'
  | _, _ => false
  end.

Definition text_eq_dec : forall a b : text, {a = b} + {a <> b} :=
  list_eq_dec N.eq_dec.

(** [x in xs] for a set or list of strings. *)
Definition mem (x : text) (xs : list text) : bool := existsb (text_eqb x) xs.

(** The newline character. *)
Definition nl : text := [10%N].

(** [str(n)] for a non-negative and for an arbitrary Python [int]. *)
Definition str_of_nat (n : nat) : text :=
  lit (DecimalString.NilZero.string_of_uint (Nat.to_uint n)).
Definition str_of_Z (z : Z) : text :=
  lit (DecimalString.NilZero.string_of_int (Z.to_int z)).

(** [c * n] for a one-character string [c]. *)
Definition times (c : text) (n : nat) : text := concat (repeat c n).

(** [sep.join(xs)]. *)
Fixpoint join (sep : text) (xs : list text) : text :=
  match xs with
  | [] => []
  | [x] => x
  | x :: rest => x ++ sep ++ join sep rest
  end.

(** [s.startswith(p)]. *)
Fixpoint startswith (p s : text) : bool :=
  match p, s with
  | [], _ => true
  | x :: p', y :: s' => char_eqb x y && startswith p' s'
  | _ :: _, [] => false
  end.

(** [s.replace(old, '')]: every non-overlapping occurrence of [old], found
    left to right, is dropped.  [skip] counts the characters of the occurrence
    being dropped that are still ahead.  An empty [old] leaves [s] as it is. *)
Fixpoint remove_from (old s : text) (skip : nat) : text :=
  match s with
  | [] => []
  | c :: s' =>
      match skip with
      | S k => remove_from old s' k
      | O =>
          match old with
          | [] => c :: remove_from old s' 0
          | _ :: old' =>
              if startswith old s then remove_from old s' (length old')
              else c :: remove_from old s' 0
          end
      end
  end.

Definition remove_all (old s : text) : text := remove_from old s 0.

(** [s.replace(a, b)] for one-character [a] and [b]. *)
Definition replace_char (a b : char) (s : text) : text :=
  map (fun c => if char_eqb c a then b else c) s.

(** [s.count(c)] for a one-character string [c]. *)
Definition count_char (c : char) (s : text) : nat :=
  length (filter (char_eqb c) s).

(** ** dict.fromkeys

    A [dict] keeps its keys in insertion order, and storing under a key that
    is already there leaves the key where it is.  [list(dict.fromkeys(xs))]
    is therefore the fold below. *)
Definition dict_add_key (d : list text) (k : text) : list text :=
  if mem k d then d else d ++ [k].

Definition dict_fromkeys (xs : list text) : list text :=
  fold_left dict_add_key xs [].

(** A key that [seen] does not hold yet. *)
Definition fresh_for (seen : list text) (x : text) : bool := negb (mem x seen).

(** ** list.sort(key=..., reverse=True)

    CPython sorts stably with [<] alone; for [reverse=True] it reverses the
    list, sorts, and reverses the result, which keeps equal keys in their
    original order.  The stable sort itself is modelled by insertion. *)
Section Sort.
Variable A : Type.
Variable key : A -> Z.

Fixpoint insert_sorted (x : A) (l : list A) : list A :=
  match l with
  | [] => [x]
  | y :: l' =>
      if (key y <? key x)%Z then y :: insert_sorted x l' else x :: y :: l'
  end.

Fixpoint stable_sort (l : list A) : list A :=
  match l with
  | [] => []
  | x :: l' => insert_sorted x (stable_sort l')
  end.

Definition sort_reverse (l : list A) : list A := rev (stable_sort (rev l)).

(** The orders and the ties the statements speak of. *)
Definition ascending (a b : A) : Prop := (key a <= key b)%Z.
Definition descending (a b : A) : Prop := (key b <= key a)%Z.
Definition has_key (k : Z) (a : A) : bool := (key a =? k)%Z.
End Sort.

End Py.

(* ===================================================================== *)
(** * Regular expressions                                                 *)
(* ===================================================================== *)

Module Re.
Import Py.

(** The syntax the five rules of aa.py are written in.  Repetition is only
    ever applied to a single character class there (to "\s", "\w" and "."),
    so it is a constructor over classes. *)
Inductive re : Type :=
| Chr (c : char)                 (* a literal character *)
| Cls (p : char -> bool)         (* one character of a class *)
| Cat (r1 r2 : re)               (* r1 r2 *)
| Alt (r1 r2 : re)               (* r1|r2 *)
| Opt (r : re)                   (* (?:r)?   greedy *)
| Star (p : char -> bool)        (* p*       greedy *)
| LazyStar (p : char -> bool)    (* p*?      lazy *)
| Group (r : re).                (* (r)      the capture group *)

Definition Plus (p : char -> bool) : re := Cat (Cls p) (Star p).

(** A literal word. *)
Fixpoint word (s : text) : re :=
  match s with
  | [] => Star (fun _ => false)
  | [c] => Chr c
  | c :: s' => Cat (Chr c) (word s')
  end.

(** What a successful match reports: the text after the match and the
    capture group, if it took part. *)
Definition hit := (text * option text)%type.

(** Greedy repetition: take a character if possible and only give it back
    when the rest fails. *)
Fixpoint star_greedy (p : char -> bool) (s : text) (k : text -> option hit)
  : option hit :=
  match s with
  | c :: s' =>
      if p c then
        match star_greedy p s' k with
        | Some h => Some h
        | None => k s
        end
      else k s
  | [] => k []
  end.

(** Lazy repetition: try the rest first, take a character only if that
    fails. *)
Fixpoint star_lazy (p : char -> bool) (s : text) (k : text -> option hit)
  : option hit :=
  match k s with
  | Some h => Some h
  | None =>
      match s with
      | c :: s' => if p c then star_lazy p s' k else None
      | [] => None
      end
  end.

(** The backtracking matcher, in continuation-passing style: [exec r s g k]
    matches [r] at the start of [s] with capture [g] so far and hands the
    remaining text and capture to [k]; alternatives are tried in the order
    Python's engine tries them. *)
Fixpoint exec (r : re) (s : text) (g : option text)
         (k : text -> option text -> option hit) : option hit :=
  match r with
  | Chr c =>
      match s with
      | x :: s' => if char_eqb x c then k s' g else None
      | [] => None
      end
  | Cls p =>
      match s with
      | x :: s' => if p x then k s' g else None
      | [] => None
      end
  | Cat r1 r2 => exec r1 s g (fun s1 g1 => exec r2 s1 g1 k)
  | Alt r1 r2 =>
      match exec r1 s g k with
      | Some h => Some h
      | None => exec r2 s g k
      end
  | Opt r1 =>
      match exec r1 s g k with
      | Some h => Some h
      | None => k s g
      end
  | Star p => star_greedy p s (fun s1 => k s1 g)
  | LazyStar p => star_lazy p s (fun s1 => k s1 g)
  | Group r1 =>
      exec r1 s g (fun s1 _ => k s1 (Some (firstn (length s - length s1) s)))
  end.

(** [pattern.match] at the start of [s]. *)
Definition match_here (r : re) (s : text) : option hit :=
  exec r s None (fun rest g => Some (rest, g)).

(** What [findall] lists for a pattern with one group: the group's text,
    empty if the group took no part. *)
Definition group_text (g : option text) : text :=
  match g with Some x => x | None => [] end.

(** [re.findall(r, s)] for a pattern with one group whose matches are never
    empty (each of the five rules contains a literal): scan left to right,
    and after a match resume at its end.  [skip] counts the characters of the
    last match that are still ahead. *)
Fixpoint findall_from (r : re) (s : text) (skip : nat) : list text :=
  match s with
  | [] => []
  | _ :: s' =>
      match skip with
      | S n => findall_from r s' n
      | O =>
          match match_here r s with
          | Some (rest, g) =>
              group_text g :: findall_from r s' (length s - length rest - 1)
          | None => findall_from r s' 0
          end
      end
  end.

Definition findall (r : re) (s : text) : list text := findall_from r s 0.

(** The longest prefix of characters of a class, and what follows it. *)
Fixpoint run_of (p : char -> bool) (s : text) : text :=
  match s with
  | c :: s' => if p c then c :: run_of p s' else []
  | [] => []
  end.

Fixpoint after_run (p : char -> bool) (s : text) : text :=
  match s with
  | c :: s' => if p c then after_run p s' else s
  | [] => []
  end.

End Re.

(* ===================================================================== *)
(** * aa.py: the codebase mapper                                          *)
(* ===================================================================== *)

Module Aa.
Import Py Re.

(** ** Configuration *)

Definition IGNORE_DIRS : list text :=
  [lit "node_modules"; lit ".git"; lit "dist"; lit "build"; lit "coverage";
   lit ".next"; lit ".vscode"; lit "__pycache__"; lit ".aider.tags.cache.v4";
   lit ".qodo"].

Definition IGNORE_FILES : list text :=
  [lit "package-lock.json"; lit "yarn.lock"; lit "pnpm-lock.yaml";
   lit ".DS_Store"; lit ".env"; lit ".env.local"; lit ".aider.chat.history.md";
   lit ".aider.input.history"; lit ".gitignore"; lit ".llmignore"].

Definition CODE_EXTENSIONS : list text :=
  [lit ".js"; lit ".jsx"; lit ".ts"; lit ".tsx"; lit ".mjs"; lit ".cjs"].

Definition MAX_SIGNATURES : nat := 10.

(** ** Character classes of a [str] pattern *)

(** [\s]: the characters [str.isspace] accepts. *)
Definition is_space (c : char) : bool :=
  ((9 <=? c) && (c <=? 13) || (28 <=? c) && (c <=? 32)
   || (c =? 133) || (c =? 160) || (c =? 5760)
   || (8192 <=? c) && (c <=? 8202)
   || (c =? 8232) || (c =? 8233) || (c =? 8239) || (c =? 8287)
   || (c =? 12288))%N.

(** [.] without DOTALL: anything but a newline. *)
Definition is_dot (c : char) : bool := negb (c =? 10)%N.

Definition ascii_alnum (c : char) : bool :=
  ((48 <=? c) && (c <=? 57) || (65 <=? c) && (c <=? 90)
   || (97 <=? c) && (c <=? 122))%N.

Section Signatures.

(** [\w] is [str.isalnum] or an underscore.  Outside ASCII, which code
    points are alphanumeric is a table of the Unicode database; it is a
    parameter here. *)
Variable uni_alnum : char -> bool.

Definition is_word (c : char) : bool :=
  if (c <? 128)%N then ascii_alnum c || (c =? 95)%N else uni_alnum c.

(** ** The five rules *)

(** The pattern "class\s+(\w+)". *)
Definition re_class : re :=
  Cat (word (lit "class")) (Cat (Plus is_space) (Group (Plus is_word))).

(** The pattern "(?:async\s+)?function\s+(\w+)\s*\(". *)
Definition re_function : re :=
  Cat (Opt (Cat (word (lit "async")) (Plus is_space)))
    (Cat (word (lit "function"))
       (Cat (Plus is_space)
          (Cat (Group (Plus is_word))
             (Cat (Star is_space) (Chr 40%N))))).

(** The pattern "(?:const|let|var)\s+(\w+)\s*=\s*" followed by an optional
    "async" with any whitespace after it, then "\(.*?\)\s*=>". *)
Definition re_arrow : re :=
  Cat (Alt (word (lit "const")) (Alt (word (lit "let")) (word (lit "var"))))
    (Cat (Plus is_space)
       (Cat (Group (Plus is_word))
          (Cat (Star is_space)
             (Cat (Chr 61%N)
                (Cat (Star is_space)
                   (Cat (Opt (Cat (word (lit "async")) (Star is_space)))
                      (Cat (Chr 40%N)
                         (Cat (LazyStar is_dot)
                            (Cat (Chr 41%N)
                               (Cat (Star is_space)
                                  (word (lit "=>")))))))))))).

(** The pattern "(?:module\.)?exports\.(\w+)\s*=". *)
Definition re_export : re :=
  Cat (Opt (word (lit "module.")))
    (Cat (word (lit "exports."))
       (Cat (Group (Plus is_word)) (Cat (Star is_space) (Chr 61%N)))).

(** The pattern "interface\s+(\w+)". *)
Definition re_interface : re :=
  Cat (word (lit "interface")) (Cat (Plus is_space) (Group (Plus is_word))).

(** ** Labels *)

Definition class_label (c : text) : text := lit "Class: " ++ c.
Definition function_label (f : text) : text := [402%N] ++ lit ": " ++ f.
Definition export_label (e : text) : text := lit "Export: " ++ e.
Definition interface_label (i : text) : text := lit "Interface: " ++ i.

(** The summary marker [...(+N more)]. *)
Definition more_marker (n : nat) : text :=
  lit "...(+" ++ str_of_nat n ++ lit " more)".

(** [for x in names: sigs.append(label(x))] *)
Definition append_each (label : text -> text) (names : list text)
           (sigs : list text) : list text :=
  fold_left (fun acc x => acc ++ [label x]) names sigs.

(** The names each rule finds in a file's text. *)
Definition classes (content : text) : list text := findall re_class content.
Definition funcs (content : text) : list text := findall re_function content.
Definition arrows (content : text) : list text := findall re_arrow content.
Definition exports (content : text) : list text := findall re_export content.
Definition interfaces (content : text) : list text :=
  findall re_interface content.

(** [sigs] as it stands when the [try] block ends. *)
Definition collect_signatures (content : text) : list text :=
  let sigs := [] in
  let sigs := append_each class_label (classes content) sigs in
  let sigs := append_each function_label (funcs content) sigs in
  let sigs := append_each function_label (arrows content) sigs in
  let sigs := append_each export_label (exports content) sigs in
  let sigs := append_each interface_label (interfaces content) sigs in
  sigs.

(** The tail of [get_signatures]: deduplicate, then cut. *)
Definition bound_signatures (sigs : list text) : list text :=
  let unique_sigs := dict_fromkeys sigs in
  if MAX_SIGNATURES <? length unique_sigs then
    firstn MAX_SIGNATURES unique_sigs
      ++ [more_marker (length unique_sigs - MAX_SIGNATURES)]
  else unique_sigs.

(** [get_signatures(file_path)].  [file] is what opening and reading the
    path gives: the decoded text, or [None] when anything in the [try]
    block raises, in which case the function returns the empty list. *)
Definition get_signatures (file : option text) : list text :=
  match file with
  | None => []
  | Some content => bound_signatures (collect_signatures content)
  end.

End Signatures.

(** ** Paths (posixpath) *)

Definition sep : char := 47%N.
Definition dot : char := 46%N.

(** [os.path.join(a, b)] *)
Definition path_join (a b : text) : text :=
  if startswith [sep] b then b
  else
    match rev a with
    | [] => b
    | c :: _ => if char_eqb c sep then a ++ b else a ++ [sep] ++ b
    end.

(** [os.path.basename(p)]: what follows the last separator. *)
Definition basename (p : text) : text :=
  fold_left (fun acc c => if char_eqb c sep then [] else acc ++ [c]) p [].

(** The suffix of [s] that starts at its last dot. *)
Fixpoint from_last_dot (s : text) : option text :=
  match s with
  | [] => None
  | c :: s' =>
      match from_last_dot s' with
      | Some e => Some e
      | None => if char_eqb c dot then Some s else None
      end
  end.

(** [os.path.splitext(p)[1]]: the extension starts at the last dot of the
    last component, unless only dots stand before it. *)
Definition splitext_ext (p : text) : text :=
  let name := basename p in
  match from_last_dot name with
  | Some e =>
      if existsb (fun c => negb (char_eqb c dot))
           (firstn (length name - length e) name)
      then e else []
  | None => []
  end.

(** ** The directory tree, as [os.walk] sees it

    A directory that [os.scandir] can read is a [Listing]: its entries that
    are directories ([dirs]) and the others ([files]), each list in the order
    the operating system enumerates them.  A file carries what opening and
    reading it as UTF-8 text gives ([None]: it raises).  Two kinds of entry
    of [dirs] are never walked: a directory that cannot be read, which
    [os.walk] skips without a word, and a symbolic link to a directory, which
    it names but, with [followlinks] left off, does not follow.  The start
    directory is described by what is read there. *)
Inductive node : Type :=
| Listing (dirs : list (text * node)) (files : list (text * option text))
| Unreadable
| Symlink.

(** What a run does, in order.  [rel] is ghost state: the names of the
    directories walked from the start directory down to the one the event
    belongs to. *)
Inductive event : Type :=
| Yield (rel : list text) (root : text)        (* os.walk yields [root] *)
| ScanFile (rel : list text) (file_path : text) (* get_signatures opens it *)
| Line (rel : list text) (line : text).        (* output_lines.append *)

Definition event_rel (e : event) : list text :=
  match e with Yield r _ | ScanFile r _ | Line r _ => r end.

Fixpoint output_lines (tr : list event) : list text :=
  match tr with
  | [] => []
  | Line _ l :: tr' => l :: output_lines tr'
  | _ :: tr' => output_lines tr'
  end.

Definition folder_icon : text := [128193%N].
Definition file_icon : text := [128196%N].

Section Map.

Variable uni_alnum : char -> bool.

(** The configuration sets.  They are only ever asked for membership. *)
Variable ignore_dirs ignore_files code_extensions : list text.

Variable start_path : text.

(** The body of [for f in files]. *)
Definition file_events (rel : list text) (root subindent : text)
           (f : text * option text) : list event :=
  let name := fst f in
  if mem name ignore_files then []
  else
    let ext := splitext_ext name in
    let file_path := path_join root name in
    if mem ext code_extensions then
      let sigs := get_signatures uni_alnum (snd f) in
      match sigs with
      | _ :: _ =>
          let sig_str := join (lit ", ") sigs in
          [ScanFile rel file_path;
           Line rel (subindent ++ file_icon ++ lit " " ++ name ++ lit "  ["
                       ++ sig_str ++ lit "]")]
      | [] =>
          [ScanFile rel file_path;
           Line rel (subindent ++ file_icon ++ lit " " ++ name)]
      end
    else [Line rel (subindent ++ file_icon ++ lit " " ++ name)].

(** The body of the [os.walk] loop for one yielded [root], after [dirs]
    has been pruned. *)
Definition root_events (rel : list text) (root : text)
           (files : list (text * option text)) : list event :=
  let level := count_char sep (remove_all start_path root) in
  let indent := times (lit " ") (4 * level) in
  let folder_name := basename root in
  let header :=
    if level =? 0 then folder_icon ++ lit " PROJECT_ROOT/"
    else indent ++ folder_icon ++ lit " " ++ folder_name ++ lit "/" in
  let subindent := times (lit " ") (4 * (level + 1)) in
  Yield rel root :: Line rel header
    :: flat_map (file_events rel root subindent) files.

(** [for root, dirs, files in os.walk(...)] with the loop body inlined.
    The walk is top-down: the body runs on a directory before the walk
    reads [dirs] again to descend, so it descends into exactly the names
    the slice assignment to [dirs] has left. *)
Fixpoint walk (rel : list text) (root : text) (n : node) : list event :=
  match n with
  | Listing dirs files =>
      root_events rel root files
        ++ flat_map
             (fun d : text * node =>
                let (name, child) := d in
                if mem name ignore_dirs then []
                else walk (rel ++ [name]) (path_join root name) child)
             dirs
  | Unreadable => []
  | Symlink => []
  end.

(** The tree with every ignored directory deleted, at any depth. *)
Fixpoint strip (n : node) : node :=
  match n with
  | Listing dirs files =>
      Listing
        (flat_map
           (fun d : text * node =>
              let (name, child) := d in
              if mem name ignore_dirs then [] else [(name, strip child)])
           dirs)
        files
  | Unreadable => Unreadable
  | Symlink => Symlink
  end.

(** What a run looks at: below the start directory, the entries of every
    directory it walks, in the order they are enumerated, and the text of
    every file it scans.  Ignored directories and files are deleted, and the
    text of a file that is not scanned is blanked. *)
Fixpoint observed (n : node) : node :=
  match n with
  | Listing dirs files =>
      Listing
        (flat_map
           (fun d : text * node =>
              let (name, child) := d in
              if mem name ignore_dirs then [] else [(name, observed child)])
           dirs)
        (flat_map
           (fun f : text * option text =>
              if mem (fst f) ignore_files then []
              else if mem (splitext_ext (fst f)) code_extensions then [f]
              else [(fst f, None)])
           files)
  | Unreadable => Unreadable
  | Symlink => Symlink
  end.

Definition run_trace (tree : node) : list event := walk [] start_path tree.

Definition render (tree : node) : text :=
  join nl (output_lines (run_trace tree)).

End Map.

(** [generate_map(start_path)] on the tree rooted at [start_path]. *)
Definition generate_map (uni_alnum : char -> bool) (start_path : text)
           (tree : node) : text :=
  render uni_alnum IGNORE_DIRS IGNORE_FILES CODE_EXTENSIONS start_path tree.

(** ** Vocabulary of the statements *)

(** The alphanumeric code points of the Latin-1 supplement: the Unicode
    table cut at U+00FF, which is all the examples need. *)
Definition latin1_alnum (c : char) : bool :=
  ((c =? 170) || (c =? 178) || (c =? 179) || (c =? 181) || (c =? 185)
   || (c =? 186) || (188 <=? c) && (c <=? 190)
   || (192 <=? c) && (c <=? 214) || (216 <=? c) && (c <=? 246)
   || (248 <=? c) && (c <=? 255))%N.

(** The first character of an entry. *)
Definition head_char (l : text) : char := hd 0%N l.

(** A label, by its first character: [C], [ƒ], [E] or [I], as the five
    rules write them. *)
Definition is_label (l : text) : Prop :=
  head_char l = 67%N \/ head_char l = 402%N
  \/ head_char l = 69%N \/ head_char l = 73%N.

(** An entry is a summary marker when it is [...(+N more)] for some [N]. *)
Definition is_marker (l : text) : Prop := exists n, l = more_marker n.

(** How often a label occurs in a list. *)
Definition occurrences (l : text) (sigs : list text) : nat :=
  count_occ text_eq_dec sigs l.

(** The cut alone, without the deduplication before it. *)
Definition cut (sigs : list text) : list text :=
  if MAX_SIGNATURES <? length sigs then
    firstn MAX_SIGNATURES sigs ++ [more_marker (length sigs - MAX_SIGNATURES)]
  else sigs.

(** ** Sample files *)

(** Eleven classes, [A] to [K]. *)
Definition eleven_classes : text :=
  lit "class A class B class C class D class E class F class G class H class I class J class K".

(** One class and one function. *)
Definition small_file : text := lit "class A {} function f() {}".

(** Ten classes, then the function [f] declared twice. *)
Definition ten_classes_f_twice : text :=
  lit "class A class B class C class D class E class F class G class H class I class J function f() {} function f() {}".

(** The function [f] declared before and after the class [A]. *)
Definition f_around_class : text :=
  lit "function f() {} class A {} function f() {}".

(** ** Vocabulary of the statements about the walk *)

(** No entry of [dirs], at any depth, bears an ignored name. *)
Inductive clean (ignore_dirs : list text) : node -> Prop :=
| clean_listing dirs files :
    Forall (fun d => mem (fst d) ignore_dirs = false
                     /\ clean ignore_dirs (snd d)) dirs ->
    clean ignore_dirs (Listing dirs files)
| clean_unreadable : clean ignore_dirs Unreadable
| clean_symlink : clean ignore_dirs Symlink.

(** The same directory tree, enumerated in whatever order: at every level
    the same files and the same sub-directories, up to a permutation. *)
Inductive same_tree : node -> node -> Prop :=
| same_unreadable : same_tree Unreadable Unreadable
| same_symlink : same_tree Symlink Symlink
| same_listing dirs1 dirs2 dirs2' files1 files2 :
    Permutation files1 files2 ->
    Permutation dirs1 dirs2' ->
    Forall2 (fun x y => fst x = fst y /\ same_tree (snd x) (snd y))
            dirs2' dirs2 ->
    same_tree (Listing dirs1 files1) (Listing dirs2 files2).

(** ** Sample trees *)

(** Two plain files, enumerated one way and the other. *)
Definition two_files_ab : node :=
  Listing [] [(lit "a.txt", Some []); (lit "b.txt", Some [])].
Definition two_files_ba : node :=
  Listing [] [(lit "b.txt", Some []); (lit "a.txt", Some [])].

(** A project with a source directory and a [node_modules] directory. *)
Definition project : node :=
  Listing
    [(lit "node_modules",
      Listing [(lit "left-pad", Listing [] [(lit "index.js",
                                             Some (lit "function pad() {}"))])]
              [(lit "package.json", Some [])]);
     (lit "src",
      Listing [(lit "node_modules", Listing [] [(lit "x.js", None)])]
              [(lit "app.js", Some (lit "class App {} function main() {}"));
               (lit ".env", Some (lit "SECRET=1"))])]
    [(lit "README.md", Some (lit "class Prose"))].

(** A tree that a run cannot tell from [project]: other content under
    the two [node_modules], other text in the files that are not scanned. *)
Definition project_again : node :=
  Listing
    [(lit "node_modules",
      Listing [] [(lit "package.json", None); (lit "extra.js", Some [])]);
     (lit "src",
      Listing [(lit "node_modules", Unreadable)]
              [(lit "app.js", Some (lit "class App {} function main() {}"));
               (lit ".env", None)])]
    [(lit "README.md", Some (lit "interface Changed"))].

End Aa.

(* ===================================================================== *)
(** * _scanproblem.py: the lint report writer                             *)
(* ===================================================================== *)

Module Scan.
Import Py.

Definition LOG_FILE : text := lit "logs.txt".

(** ** Values

    What [json.loads] builds: [None], [bool], [int], [str], [list] and
    [dict] (its items in insertion order).  ESLint's report holds no number
    with a fraction or an exponent, and Python floats are left out of the
    model. *)
Inductive json : Type :=
| JNull
| JBool (b : bool)
| JInt (z : Z)
| JStr (s : text)
| JArr (items : list json)
| JObj (members : list (text * json)).

(** ** Exceptions *)

(** A [TypeError] or [AttributeError] of the interpreter, by what was asked
    of which value. *)
Inductive fault : Type :=
| NotIterable (v : json)           (* for _ in v *)
| NotSubscriptable (v : json)      (* v[key] on None, bool, int *)
| BadIndex (v : json)              (* v['key'] on a list or a str *)
| NotOrderable (v : json)          (* v > 0 on None, str, list, dict *)
| NoAttribute (v : json) (attribute : text).   (* v.get, v.replace *)

Inductive exn : Type :=
| KeyError (key : text)
| Fault (f : fault)
| Raised (message : text).         (* raised inside a library call *)

Inductive outcome (A : Type) : Type :=
| Ok (a : A)
| Raise (x : exn).
Arguments Ok {A} a.
Arguments Raise {A} x.

(** ** The world around a run *)

Record completed : Type := {
  returncode : Z;
  stdout : text;
  stderr : text
}.

Inductive loads : Type :=
| Parsed (data : json)
| JSONDecodeError
| LoadsRaised (message : text).    (* any other exception of json.loads *)

Inductive open_mode : Type := ModeW | ModeA.

Record env : Type := {
  (* datetime.datetime.now().strftime('%H:%M:%S') *)
  clock : text;
  (* os.getcwd() *)
  getcwd : outcome text;
  (* os.name *)
  os_name : text;
  (* subprocess.run(command, shell=True, capture_output=True, text=True,
     encoding='utf-8', errors='replace') *)
  subprocess_run : text -> outcome completed;
  (* json.loads *)
  json_loads : text -> loads;
  (* os.path.relpath of a str; None when it raises *)
  relpath : text -> option text;
  (* open(LOG_FILE, mode, encoding='utf-8'): None when it succeeds, the
     exception's text when it raises *)
  open_log : option text;
  (* the interpreter's wording of a TypeError or AttributeError *)
  fault_text : fault -> text;
  (* str() of a list or a dict *)
  repr : json -> text
}.

(** What a run does, in order. *)
Inductive io : Type :=
| Out (line : text)                          (* print *)
| Log (content : text) (mode : open_mode)    (* a call of write_log *)
| Exec (command : text)                      (* subprocess.run *)
| Loads (s : text).                          (* json.loads *)

Record state : Type := {
  trace : list io;
  logfile : option text     (* the content of logs.txt, if it exists *)
}.

Definition emit (e : io) (st : state) : state :=
  {| trace := trace st ++ [e]; logfile := logfile st |}.

Definition print (line : text) (st : state) : state := emit (Out line) st.

(** ** Icons *)
Definition cross : text := [10060%N].
Definition fire : text := [128293%N].

(** [write_log(content, mode='a')] *)
Definition write_log (e : env) (content : text) (mode : open_mode)
           (st : state) : state :=
  let st := emit (Log content mode) st in
  match open_log e with
  | None =>
      {| trace := trace st;
         logfile :=
           match mode, logfile st with
           | ModeA, Some old => Some (old ++ content)
           | _, _ => Some content
           end |}
  | Some err =>
      print (cross ++ lit " CRITICAL: Could not write to logs.txt: " ++ err) st
  end.

(** ** Statements that may raise *)

Definition M (A : Type) : Type := state -> outcome A * state.

Definition ret {A} (a : A) : M A := fun st => (Ok a, st).

Definition bind {A B} (c : M A) (k : A -> M B) : M B :=
  fun st =>
    match c st with
    | (Ok a, st') => k a st'
    | (Raise x, st') => (Raise x, st')
    end.

Definition lift {A} (o : outcome A) : M A := fun st => (o, st).

Definition effect (f : state -> state) : M unit := fun st => (Ok tt, f st).

Notation "x <- c1 ;; c2" := (bind c1 (fun x => c2))
  (at level 61, c1 at next level, right associativity).
Notation "c1 ;; c2" := (bind c1 (fun _ => c2))
  (at level 61, right associativity).

Fixpoint for_each {A} (body : A -> M unit) (l : list A) : M unit :=
  match l with
  | [] => ret tt
  | x :: l' => body x ;; for_each body l'
  end.

(** ** Operations on values *)

Fixpoint lookup (key : text) (members : list (text * json)) : option json :=
  match members with
  | [] => None
  | (k, v) :: rest => if text_eqb k key then Some v else lookup key rest
  end.

(** [for x in v] *)
Definition iterate (v : json) : outcome (list json) :=
  match v with
  | JArr items => Ok items
  | JObj members => Ok (map (fun kv => JStr (fst kv)) members)
  | JStr s => Ok (map (fun c => JStr [c]) s)
  | _ => Raise (Fault (NotIterable v))
  end.

(** [v[key]] for a str [key] *)
Definition subscript (v : json) (key : text) : outcome json :=
  match v with
  | JObj members =>
      match lookup key members with
      | Some x => Ok x
      | None => Raise (KeyError key)
      end
  | JArr _ | JStr _ => Raise (Fault (BadIndex v))
  | _ => Raise (Fault (NotSubscriptable v))
  end.

(** [v.get(key, default)] *)
Definition get (v : json) (key : text) (default : json) : outcome json :=
  match v with
  | JObj members =>
      match lookup key members with
      | Some x => Ok x
      | None => Ok default
      end
  | _ => Raise (Fault (NoAttribute v (lit "get")))
  end.

(** [v > 0]; [bool] is a kind of [int]. *)
Definition gt_zero (v : json) : outcome bool :=
  match v with
  | JInt z => Ok (0 <? z)%Z
  | JBool b => Ok b
  | _ => Raise (Fault (NotOrderable v))
  end.

(** The number a sort key stands for. *)
Definition number (v : json) : Z :=
  match v with
  | JInt z => z
  | JBool true => 1%Z
  | _ => 0%Z
  end.

(** [x['errorCount']] as the sort key of an item that passed the filter. *)
Definition error_count_key (item : json) : Z :=
  match subscript item (lit "errorCount") with
  | Ok v => number v
  | Raise _ => 0%Z
  end.

(** [v.replace('\n', ' ')] *)
Definition replace_newlines (v : json) : outcome text :=
  match v with
  | JStr s => Ok (replace_char 10%N 32%N s)
  | _ => Raise (Fault (NoAttribute v (lit "replace")))
  end.

(** A value inside an f-string. *)
Definition py_str (e : env) (v : json) : text :=
  match v with
  | JNull => lit "None"
  | JBool true => lit "True"
  | JBool false => lit "False"
  | JInt z => str_of_Z z
  | JStr s => s
  | _ => repr e v
  end.

(** [str(e)] of a caught exception. *)
Definition exn_text (e : env) (x : exn) : text :=
  match x with
  | KeyError key => lit "'" ++ key ++ lit "'"
  | Fault f => fault_text e f
  | Raised message => message
  end.

(** ** Icons of the console messages *)
Definition rocket : text := [128640%N].
Definition open_folder : text := [128194%N].
Definition zap : text := [9889%N].
Definition clipboard : text := [128203%N].
Definition chart : text := [128202%N].
Definition warning : text := [9888%N; 65039%N].
Definition puzzle : text := [129513%N].
Definition memo : text := [128221%N].
Definition page : text := [128196%N].
Definition check_mark : text := [9989%N].

(** ** The messages the claims name *)

Definition EMPTY_OUTPUT_LINE : text :=
  lit "ERROR: ESLint returned empty output. Is ESLint installed?" ++ nl.

Definition INVALID_JSON_LINE : text :=
  lit "CRITICAL ERROR: ESLint output was not valid JSON." ++ nl.

Definition raw_excerpt (out : text) : text :=
  lit "First 500 chars of raw output:" ++ nl ++ firstn 500 out ++ nl.

Definition crash_line (e : env) (x : exn) : text :=
  nl ++ fire ++ lit " CRITICAL SCRIPT CRASH: " ++ exn_text e x ++ nl.

Definition banner (e : env) (path error_count : json) : text :=
  nl ++ times (lit "=") 40 ++ nl
    ++ page ++ lit " " ++ py_str e path
    ++ lit " (" ++ py_str e error_count ++ lit " errors)" ++ nl
    ++ times (lit "=") 40 ++ nl.

Definition message_line (e : env) (line rule : json) (text_ : text) : text :=
  lit "  " ++ cross ++ lit " Line " ++ py_str e line
    ++ lit ": [" ++ py_str e rule ++ lit "] " ++ text_ ++ nl.

(** ** Step 7: the report *)

(** [[item for item in data if item['errorCount'] > 0]] *)
Fixpoint keep_problem_files (items : list json) : outcome (list json) :=
  match items with
  | [] => Ok []
  | item :: rest =>
      match subscript item (lit "errorCount") with
      | Raise x => Raise x
      | Ok v =>
          match gt_zero v with
          | Raise x => Raise x
          | Ok b =>
              match keep_problem_files rest with
              | Raise x => Raise x
              | Ok kept => Ok (if b then item :: kept else kept)
              end
          end
      end
  end.

(** The list comprehension followed by
    [problem_files.sort(key=lambda x: x['errorCount'], reverse=True)]. *)
Definition problem_files (data : json) : outcome (list json) :=
  match iterate data with
  | Raise x => Raise x
  | Ok items =>
      match keep_problem_files items with
      | Raise x => Raise x
      | Ok kept => Ok (sort_reverse error_count_key kept)
      end
  end.

(** [try: path = os.path.relpath(path) except: pass] *)
Definition try_relpath (e : env) (path : json) : json :=
  match path with
  | JStr s =>
      match relpath e s with
      | Some r => JStr r
      | None => path
      end
  | _ => path
  end.

(** The body of [for msg in entry.get('messages', [])]. *)
Definition report_message (e : env) (msg : json) : M unit :=
  line <- lift (get msg (lit "line") (JInt 0)) ;;
  rule <- lift (get msg (lit "ruleId") (JStr (lit "unknown"))) ;;
  message <- lift (get msg (lit "message") (JStr [])) ;;
  text_ <- lift (replace_newlines message) ;;
  effect (write_log e (message_line e line rule text_) ModeA).

(** The body of [for entry in problem_files]. *)
Definition report_entry (e : env) (entry : json) : M unit :=
  path <- lift (get entry (lit "filePath") (JStr (lit "unknown"))) ;;
  let path := try_relpath e path in
  error_count <- lift (subscript entry (lit "errorCount")) ;;
  effect (write_log e (banner e path error_count) ModeA) ;;
  messages <- lift (get entry (lit "messages") (JArr [])) ;;
  msgs <- lift (iterate messages) ;;
  for_each (report_message e) msgs.

Definition write_results (e : env) (files : list json) : M unit :=
  effect (print (memo ++ lit " Found " ++ str_of_nat (length files)
                   ++ lit " broken files. Writing details...")) ;;
  effect (write_log e (lit "Found " ++ str_of_nat (length files)
                         ++ lit " files with errors." ++ nl) ModeA) ;;
  for_each (report_entry e) files ;;
  effect (print (check_mark ++ lit " DONE. Check logs.txt now.")).

(** ** Steps 5 and 6: the captured output *)

Definition analyze (e : env) (result : completed) : M unit :=
  let stdout_len := length (stdout result) in
  let stderr_len := length (stderr result) in
  effect (print (chart ++ lit " Output Size: " ++ str_of_nat stdout_len
                   ++ lit " chars")) ;;
  (if 0 <? stderr_len then
     effect (print (warning ++ lit " STDERR detected (Check logs.txt)")) ;;
     effect (write_log e (lit "--- STDERR (Errors from ESLint) ---" ++ nl
                            ++ stderr result ++ nl ++ nl) ModeA)
   else ret tt) ;;
  if stdout_len =? 0 then
    effect (print (cross ++ lit " STDOUT is empty. ESLint produced no output.")) ;;
    effect (write_log e EMPTY_OUTPUT_LINE ModeA)
  else
    effect (print (puzzle ++ lit " Parsing JSON...")) ;;
    effect (emit (Loads (stdout result))) ;;
    match json_loads e (stdout result) with
    | JSONDecodeError =>
        effect (print (cross ++ lit " JSON Decode Failed.")) ;;
        effect (write_log e INVALID_JSON_LINE ModeA) ;;
        effect (write_log e (raw_excerpt (stdout result)) ModeA)
    | LoadsRaised message => lift (Raise (Raised message))
    | Parsed data =>
        files <- lift (problem_files data) ;;
        write_results e files
    end.

(** ** Steps 2 to 4: the [try] block up to the subprocess *)

Definition lint_command (e : env) : text :=
  if text_eqb (os_name e) (lit "nt")
  then lit "npx.cmd eslint . --quiet --format=json"
  else lit "npx eslint . --quiet --format=json".

Definition try_block (e : env) : M unit :=
  cwd <- lift (getcwd e) ;;
  effect (print (open_folder ++ lit " Working Directory: " ++ cwd)) ;;
  effect (write_log e (lit "Run Location: " ++ cwd ++ nl) ModeA) ;;
  let command := lint_command e in
  effect (print (zap ++ lit " Executing: " ++ command)) ;;
  effect (write_log e (lit "Command: " ++ command ++ nl ++ nl) ModeA) ;;
  effect (emit (Exec command)) ;;
  result <- lift (subprocess_run e command) ;;
  effect (print (clipboard ++ lit " Return Code: "
                   ++ str_of_Z (returncode result))) ;;
  analyze e result.

(** The three header lines, written before the [try]. *)
Definition initialize_log (e : env) (st : state) : state :=
  let st := print (rocket ++ lit " Starting Scan... (Writing to " ++ LOG_FILE
                     ++ lit ")") st in
  let st := write_log e (lit "--- ESLINT DEBUG REPORT ---" ++ nl) ModeW st in
  let st := write_log e (lit "Generated: " ++ clock e ++ nl) ModeA st in
  write_log e (lit "---------------------------" ++ nl ++ nl) ModeA st.

(** [except Exception as e] *)
Definition crash_handler (e : env) (x : exn) (st : state) : state :=
  let st := print (fire ++ lit " PYTHON CRASHED: " ++ exn_text e x) st in
  write_log e (crash_line e x) ModeA st.

(** How the [try] statement ends: normally, or in the handler. *)
Definition settle (e : env) (r : outcome unit * state) : state :=
  match r with
  | (Ok _, st') => st'
  | (Raise x, st') => crash_handler e x st'
  end.

(** [main()] *)
Definition main (e : env) (st : state) : state :=
  let st := initialize_log e st in
  settle e (try_block e st).

(** ** Vocabulary of the statements *)

(** The state in which [analyze] starts, when [os.getcwd] gave [cwd] and
    the subprocess gave [result]. *)
Definition reach_analysis (e : env) (cwd : text) (result : completed)
           (st : state) : state :=
  let st := initialize_log e st in
  let st := print (open_folder ++ lit " Working Directory: " ++ cwd) st in
  let st := write_log e (lit "Run Location: " ++ cwd ++ nl) ModeA st in
  let st := print (zap ++ lit " Executing: " ++ lint_command e) st in
  let st :=
    write_log e (lit "Command: " ++ lint_command e ++ nl ++ nl) ModeA st in
  let st := emit (Exec (lint_command e)) st in
  print (clipboard ++ lit " Return Code: " ++ str_of_Z (returncode result)) st.

(** The state after step 5 has printed the output size and reported what
    standard error holds. *)
Definition stderr_noted (e : env) (result : completed) (st : state) : state :=
  let st := print (chart ++ lit " Output Size: "
                     ++ str_of_nat (length (stdout result)) ++ lit " chars") st in
  if 0 <? length (stderr result) then
    write_log e (lit "--- STDERR (Errors from ESLint) ---" ++ nl
                   ++ stderr result ++ nl ++ nl) ModeA
      (print (warning ++ lit " STDERR detected (Check logs.txt)") st)
  else st.

(** What the log holds when [analyze] has dealt with standard error. *)
Definition log_preamble (e : env) (cwd : text) (result : completed) : text :=
  (lit "--- ESLINT DEBUG REPORT ---" ++ nl)
    ++ (lit "Generated: " ++ clock e ++ nl)
    ++ (lit "---------------------------" ++ nl ++ nl)
    ++ (lit "Run Location: " ++ cwd ++ nl)
    ++ (lit "Command: " ++ lint_command e ++ nl ++ nl)
    ++ (if 0 <? length (stderr result)
        then lit "--- STDERR (Errors from ESLint) ---" ++ nl
               ++ stderr result ++ nl ++ nl
        else []).

(** What [write_log] prints when the log cannot be opened. *)
Definition critical_note (e : env) : list io :=
  match open_log e with
  | None => []
  | Some err =>
      [Out (cross ++ lit " CRITICAL: Could not write to logs.txt: " ++ err)]
  end.

Definition is_loads (ev : io) : bool :=
  match ev with Loads _ => true | _ => false end.

(** The same world with another JSON decoder. *)
Definition with_json_loads (e : env) (decoder : text -> loads) : env :=
  {| clock := clock e; getcwd := getcwd e; os_name := os_name e;
     subprocess_run := subprocess_run e; json_loads := decoder;
     relpath := relpath e; open_log := open_log e;
     fault_text := fault_text e; repr := repr e |}.

(** A per-file record with the integer error count [n]. *)
Definition has_error_count (item : json) (n : Z) : Prop :=
  exists members,
    item = JObj members /\ lookup (lit "errorCount") members = Some (JInt n).

(** A message as ESLint writes it, any of its fields possibly missing. *)
Definition message_ok (msg : json) : Prop :=
  exists members,
    msg = JObj members
    /\ (forall v, lookup (lit "message") members = Some v ->
                  exists s, v = JStr s).

(** A per-file record as ESLint writes it, with its error count; the path
    and the messages may be missing. *)
Definition entry_ok (item : json) : Prop :=
  exists members,
    item = JObj members
    /\ (exists n, lookup (lit "errorCount") members = Some (JInt n))
    /\ (forall v, lookup (lit "messages") members = Some v ->
                  exists msgs, v = JArr msgs /\ Forall message_ok msgs).

End Scan.

(* ===================================================================== *)
(** * A sample world                                                      *)
(* ===================================================================== *)

(** The statements below hold for every world ([env]).  To run them on
    examples, this module supplies one: a decoder for JSON texts, and
    [os.path.relpath] as posixpath computes it. *)
Module Sample.
Import Py Scan.

(** ** A JSON decoder

    It covers the JSON texts whose numbers are integers and whose strings
    use no [\u] escape; what it does not cover it reports as [Unsupported],
    never as malformed. *)
Inductive parsed (A : Type) : Type :=
| Done (a : A) (rest : text)
| Malformed
| Unsupported.
Arguments Done {A} a rest.
Arguments Malformed {A}.
Arguments Unsupported {A}.

Definition is_json_space (c : char) : bool :=
  ((c =? 32) || (c =? 9) || (c =? 10) || (c =? 13))%N.

Fixpoint skip_space (s : text) : text :=
  match s with
  | c :: s' => if is_json_space c then skip_space s' else s
  | [] => []
  end.

Definition is_digit (c : char) : bool := ((48 <=? c) && (c <=? 57))%N.

Fixpoint take_digits (s : text) (acc : Z) : Z * text :=
  match s with
  | c :: s' =>
      if is_digit c then take_digits s' (acc * 10 + Z.of_N (c - 48))%Z
      else (acc, s)
  | [] => (acc, [])
  end.

(** Whether a fraction or an exponent follows the integer part. *)
Definition float_follows (s : text) : bool :=
  match s with
  | 46%N :: d :: _ => is_digit d
  | (69%N | 101%N) :: (43%N | 45%N) :: d :: _ => is_digit d
  | (69%N | 101%N) :: d :: _ => is_digit d
  | _ => false
  end.

Definition parse_number (s : text) : parsed json :=
  let negative := match s with 45%N :: _ => true | _ => false end in
  let digits := if negative then tl s else s in
  let finish (v : Z) (rest : text) :=
    if float_follows rest then Unsupported
    else Done (JInt (if negative then - v else v)%Z) rest in
  match digits with
  | 48%N :: rest => finish 0%Z rest
  | c :: _ =>
      if is_digit c then let (v, rest) := take_digits digits 0%Z in finish v rest
      else if negative && startswith (lit "Infinity") digits then Unsupported
      else Malformed
  | [] => Malformed
  end.

Definition parse_scalar (s : text) : parsed json :=
  if startswith (lit "null") s then Done JNull (skipn 4 s)
  else if startswith (lit "true") s then Done (JBool true) (skipn 4 s)
  else if startswith (lit "false") s then Done (JBool false) (skipn 5 s)
  else if startswith (lit "NaN") s || startswith (lit "Infinity") s
  then Unsupported
  else parse_number s.

(** The body of a string, after its opening quote. *)
Fixpoint parse_string (s : text) (acc : text) : parsed text :=
  match s with
  | [] => Malformed
  | 34%N :: rest => Done acc rest
  | 92%N :: c :: rest =>
      match c with
      | 34%N | 92%N | 47%N => parse_string rest (acc ++ [c])
      | 98%N => parse_string rest (acc ++ [8%N])
      | 102%N => parse_string rest (acc ++ [12%N])
      | 110%N => parse_string rest (acc ++ [10%N])
      | 114%N => parse_string rest (acc ++ [13%N])
      | 116%N => parse_string rest (acc ++ [9%N])
      | 117%N => Unsupported
      | _ => Malformed
      end
  | c :: rest =>
      if (c <? 32)%N || (c =? 92)%N then Malformed
      else parse_string rest (acc ++ [c])
  end.

(** [d[k] = v] on the items of a dict. *)
Fixpoint dict_set (k : text) (v : json) (d : list (text * json))
  : list (text * json) :=
  match d with
  | [] => [(k, v)]
  | (k', v') :: d' =>
      if text_eqb k' k then (k', v) :: d' else (k', v') :: dict_set k v d'
  end.

Fixpoint parse_value (fuel : nat) (s : text) {struct fuel} : parsed json :=
  match fuel with
  | O => Unsupported
  | S fuel' =>
      match s with
      | 34%N :: r =>
          match parse_string r [] with
          | Done str rest => Done (JStr str) rest
          | Malformed => Malformed
          | Unsupported => Unsupported
          end
      | 91%N :: r =>
          match skip_space r with
          | 93%N :: rest => Done (JArr []) rest
          | r' => parse_items fuel' r' []
          end
      | 123%N :: r =>
          match skip_space r with
          | 125%N :: rest => Done (JObj []) rest
          | r' => parse_members fuel' r' []
          end
      | _ => parse_scalar s
      end
  end

with parse_items (fuel : nat) (s : text) (acc : list json) {struct fuel}
  : parsed json :=
  match fuel with
  | O => Unsupported
  | S fuel' =>
      match parse_value fuel' s with
      | Done v rest =>
          match skip_space rest with
          | 44%N :: r => parse_items fuel' (skip_space r) (acc ++ [v])
          | 93%N :: r => Done (JArr (acc ++ [v])) r
          | _ => Malformed
          end
      | Malformed => Malformed
      | Unsupported => Unsupported
      end
  end

with parse_members (fuel : nat) (s : text) (acc : list (text * json))
       {struct fuel} : parsed json :=
  match fuel with
  | O => Unsupported
  | S fuel' =>
      match s with
      | 34%N :: r =>
          match parse_string r [] with
          | Done k rest =>
              match skip_space rest with
              | 58%N :: r1 =>
                  match parse_value fuel' (skip_space r1) with
                  | Done v rest1 =>
                      match skip_space rest1 with
                      | 44%N :: r2 =>
                          parse_members fuel' (skip_space r2) (dict_set k v acc)
                      | 125%N :: r2 => Done (JObj (dict_set k v acc)) r2
                      | _ => Malformed
                      end
                  | Malformed => Malformed
                  | Unsupported => Unsupported
                  end
              | _ => Malformed
              end
          | Malformed => Malformed
          | Unsupported => Unsupported
          end
      | _ => Malformed
      end
  end.

Definition sample_loads (s : text) : loads :=
  match parse_value (S (length s)) (skip_space s) with
  | Done v rest =>
      match skip_space rest with
      | [] => Parsed v
      | _ => JSONDecodeError
      end
  | Malformed => JSONDecodeError
  | Unsupported => LoadsRaised (lit "JSON text outside the sample decoder")
  end.

(** ** posixpath.relpath *)

(** [p.split('/')] *)
Fixpoint split_slash (p : text) (current : text) : list text :=
  match p with
  | [] => [current]
  | c :: p' =>
      if char_eqb c 47%N then current :: split_slash p' []
      else split_slash p' (current ++ [c])
  end.

(** The components of [normpath] of an absolute path. *)
Definition normal_components (p : text) : list text :=
  fold_left
    (fun acc c =>
       if text_eqb c [] || text_eqb c (lit ".") then acc
       else if text_eqb c (lit "..") then removelast acc
       else acc ++ [c])
    (split_slash p []) [].

Definition abs_components (cwd p : text) : list text :=
  if startswith (lit "/") p then normal_components p
  else normal_components (cwd ++ lit "/" ++ p).

Fixpoint common_prefix (a b : list text) : nat :=
  match a, b with
  | x :: a', y :: b' => if text_eqb x y then S (common_prefix a' b') else 0
  | _, _ => 0
  end.

(** [os.path.relpath(p)] in the working directory [cwd]; it raises on an
    empty path. *)
Definition posix_relpath (cwd p : text) : option text :=
  match p with
  | [] => None
  | _ =>
      let start_list := abs_components cwd (lit ".") in
      let path_list := abs_components cwd p in
      let i := common_prefix start_list path_list in
      let rel_list :=
        repeat (lit "..") (length start_list - i) ++ skipn i path_list in
      match rel_list with
      | [] => Some (lit ".")
      | _ => Some (join (lit "/") rel_list)
      end
  end.

(** ** The world *)

(** A POSIX machine, in [/work], whose linter exits with [code] and writes
    [out] and [err]. *)
Definition world (code : Z) (out err : text) : env :=
  {| clock := lit "12:00:00";
     getcwd := Ok (lit "/work");
     os_name := lit "posix";
     subprocess_run :=
       fun _ => Ok {| returncode := code; stdout := out; stderr := err |};
     json_loads := sample_loads;
     relpath := posix_relpath (lit "/work");
     open_log := None;
     fault_text := fun _ => lit "unsupported operand";
     repr := fun _ => lit "[...]" |}.

Definition fresh : state := {| trace := []; logfile := None |}.

(** A JSON text written with apostrophes for its quotation marks. *)
Definition json_text (s : text) : text := replace_char 39%N 34%N s.

(** Four records with the error counts 3, 0, 7 and 1; the third has no
    messages, the fourth neither a path nor the fields of its message. *)
Definition four_records : text :=
  json_text (lit "[{'filePath':'/work/a.js','errorCount':3,'messages':[{'line':1,'ruleId':'no-undef','message':'x is not defined'}]}, {'filePath':'/work/b.js','errorCount':0,'messages':[]}, {'filePath':'/work/lib/c.js','errorCount':7}, {'errorCount':1,'messages':[{}]}]").

(** [four_records], decoded. *)
Definition four_items : list json :=
  [JObj [(lit "filePath", JStr (lit "/work/a.js"));
         (lit "errorCount", JInt 3);
         (lit "messages",
          JArr [JObj [(lit "line", JInt 1);
                      (lit "ruleId", JStr (lit "no-undef"));
                      (lit "message", JStr (lit "x is not defined"))]])];
   JObj [(lit "filePath", JStr (lit "/work/b.js"));
         (lit "errorCount", JInt 0);
         (lit "messages", JArr [])];
   JObj [(lit "filePath", JStr (lit "/work/lib/c.js"));
         (lit "errorCount", JInt 7)];
   JObj [(lit "errorCount", JInt 1);
         (lit "messages", JArr [JObj []])]].

(** The second record has no error count. *)
Definition count_missing : text :=
  json_text (lit "[{'filePath':'/work/a.js','errorCount':3}, {'filePath':'/work/b.js','messages':[]}]").

End Sample.

(* ===================================================================== *)
(** * aa.py: what a label stands for                                      *)
(* ===================================================================== *)

(** The shapes of text the five rules of [get_signatures] accept, written
    as equations on the file's text. *)
Module Shape.
Import Py Re Aa.

Section Declared.
Variable uni_alnum : char -> bool.

Definition blank (ws : text) : Prop := forallb is_space ws = true.

Definition name_of_words (X : text) : Prop :=
  X <> [] /\ forallb (is_word uni_alnum) X = true.

(** [keyword], whitespace, and the name [X], which ends where the word
    characters end. *)
Definition declares (keyword content X : text) : Prop :=
  exists before ws after,
    content = before ++ keyword ++ ws ++ X ++ after
    /\ ws <> [] /\ blank ws /\ name_of_words X
    /\ match after with
       | [] => True
       | c :: _ => is_word uni_alnum c = false
       end.

(** The word function, whitespace, the name [X], and an opening
    parenthesis, with or without whitespace before it. *)
Definition declares_function (content X : text) : Prop :=
  exists before ws ws' after,
    content = before ++ lit "function" ++ ws ++ X ++ ws' ++ lit "(" ++ after
    /\ ws <> [] /\ blank ws /\ name_of_words X /\ blank ws'.

(** One of const, let and var, whitespace, the name [X], an equals
    sign, possibly async, a parenthesised parameter list on one line, and
    the arrow. *)
Definition declares_arrow (content X : text) : Prop :=
  exists before keyword ws1 ws2 ws3 async_ params ws4 after,
    content = before ++ keyword ++ ws1 ++ X ++ ws2 ++ lit "=" ++ ws3
                ++ async_ ++ lit "(" ++ params ++ lit ")" ++ ws4
                ++ lit "=>" ++ after
    /\ In keyword [lit "const"; lit "let"; lit "var"]
    /\ ws1 <> [] /\ blank ws1 /\ name_of_words X /\ blank ws2 /\ blank ws3
    /\ (async_ = [] \/ exists ws, async_ = lit "async" ++ ws /\ blank ws)
    /\ forallb is_dot params = true
    /\ blank ws4.

(** The word exports, a dot, the name [X], and an equals sign, with or
    without whitespace before it. *)
Definition declares_export (content X : text) : Prop :=
  exists before ws after,
    content = before ++ lit "exports." ++ X ++ ws ++ lit "=" ++ after
    /\ name_of_words X /\ blank ws.

(** What an entry of the signature list stands for in the text. *)
Definition justified (content entry : text) : Prop :=
  (exists n, entry = more_marker n)
  \/ (exists X, entry = class_label X /\ declares (lit "class") content X)
  \/ (exists X, entry = function_label X
                /\ (declares_function content X \/ declares_arrow content X))
  \/ (exists X, entry = export_label X /\ declares_export content X)
  \/ (exists X, entry = interface_label X
                /\ declares (lit "interface") content X).

End Declared.

(** A file with one declaration of each kind. *)
Definition one_of_each : text :=
  lit "class A {} async function f () {} const g = async (x, y) => x; module.exports.h = g; interface I {}".

End Shape.

(* ===================================================================== *)
(** * aa.py: the layout of the map and the script around it               *)
(* ===================================================================== *)

(** Vocabulary for statements about where the lines of the map come from,
    and the script of aa.py that writes the map to a file. *)
Module Layout.
Import Py Re Aa.

(** [os.walk]'s path of the directory reached from [root] through the
    names [rel]: each level is joined on with [os.path.join]. *)
Definition path_of (root : text) (rel : list text) : text :=
  fold_left path_join rel root.

(** The same path, relative to the start directory, written out. *)
Definition below (rel : list text) : text :=
  concat (map (fun name => sep :: name) rel).

(** A name as a directory entry bears it: not empty, and without a
    separator. *)
Definition plain_name (name : text) : bool :=
  match name with
  | [] => false
  | _ => forallb (fun c => negb (char_eqb c sep)) name
  end.

(** [old in s] *)
Fixpoint occurs (old s : text) : bool :=
  startswith old s
  || match s with
     | [] => false
     | _ :: s' => occurs old s'
     end.

Definition ends_with_sep (p : text) : bool :=
  match rev p with
  | c :: _ => char_eqb c sep
  | [] => false
  end.

(** [reached ignore_dirs tree rel sub]: going down from [tree] through the
    names [rel], none of them ignored, leads to the directory [sub]. *)
Inductive reached (ignore_dirs : list text) : node -> list text -> node -> Prop :=
| reached_here n : reached ignore_dirs n [] n
| reached_below dirs files name child rel sub :
    In (name, child) dirs ->
    mem name ignore_dirs = false ->
    reached ignore_dirs child rel sub ->
    reached ignore_dirs (Listing dirs files) (name :: rel) sub.

(** The line of a directory at the depth [length rel]. *)
Definition header_line (rel : list text) : text :=
  match rev rel with
  | [] => folder_icon ++ lit " PROJECT_ROOT/"
  | name :: _ =>
      times (lit " ") (4 * length rel) ++ folder_icon ++ lit " " ++ name
        ++ lit "/"
  end.

(** What may follow a file's name on its line: nothing, or its signatures
    in brackets. *)
Definition annotation (uni_alnum : char -> bool) (f : text * option text)
  : text :=
  if mem (splitext_ext (fst f)) CODE_EXTENSIONS then
    match get_signatures uni_alnum (snd f) with
    | [] => []
    | sigs => lit "  [" ++ join (lit ", ") sigs ++ lit "]"
    end
  else [].

(** The lines of the map. *)
Definition map_lines (uni_alnum : char -> bool) (start_path : text)
           (tree : node) : list text :=
  output_lines
    (run_trace uni_alnum IGNORE_DIRS IGNORE_FILES CODE_EXTENSIONS start_path
       tree).

(** ** The script

    The block under [if __name__ == "__main__"]: the map of the working
    directory is written to [codebase_map_v2.txt] in that directory.  The
    working directory is the listing [dirs], [files]; it is taken to be
    writable. *)

Definition OUTPUT_FILE : text := lit "codebase_map_v2.txt".

(** The content of the first entry named [name] replaced. *)
Fixpoint overwrite (name content : text) (files : list (text * option text))
  : list (text * option text) :=
  match files with
  | [] => []
  | f :: rest =>
      if text_eqb (fst f) name then (name, Some content) :: rest
      else f :: overwrite name content rest
  end.

(** [open(name, "w")] followed by [write(content)]: an existing file is
    truncated and keeps its place in the directory; a new one appears at
    the place the file system gives it, the index [place] of the
    enumeration. *)
Definition save (name content : text) (place : nat)
           (files : list (text * option text)) : list (text * option text) :=
  if mem name (map fst files) then overwrite name content files
  else firstn place files ++ (name, Some content) :: skipn place files.

(** What the first entry named [name] holds. *)
Fixpoint file_content (name : text) (files : list (text * option text))
  : option (option text) :=
  match files with
  | [] => None
  | f :: rest =>
      if text_eqb (fst f) name then Some (snd f) else file_content name rest
  end.

(** What the output file holds in a directory. *)
Definition saved_map (n : node) : option (option text) :=
  match n with
  | Listing _ files => file_content OUTPUT_FILE files
  | _ => None
  end.

(** The line of the output file in the map of the working directory. *)
Definition output_line : text :=
  lit "    " ++ file_icon ++ lit " " ++ OUTPUT_FILE.

(** A text that the UTF-8 codec encodes: one without surrogates, which
    is what [os.walk] makes of the bytes of a name that are not UTF-8. *)
Definition encodable (s : text) : bool :=
  forallb (fun c => negb ((55296 <=? c) && (c <=? 57343))%N) s.

Definition done_mark : text := [9989%N].

Record finished : Type := {
  printed : list text;           (* what was handed to print, in order *)
  directory : node               (* the working directory afterwards *)
}.

(** The script, run in [current_dir].  [None]: it ends by an exception,
    because a directory bears the name of the output file or because the
    map cannot be encoded.  Standard output is taken to accept every
    text. *)
Definition script (uni_alnum : char -> bool) (current_dir : text)
           (place : nat) (dirs : list (text * node))
           (files : list (text * option text)) : option finished :=
  let codebase_map := generate_map uni_alnum current_dir (Listing dirs files) in
  if mem OUTPUT_FILE (map fst dirs) then None
  else if encodable codebase_map then
    Some
      {| printed :=
           [lit "Scanning: " ++ current_dir;
            lit "Generating extended map (v2)...";
            done_mark ++ lit " Done! Map saved to 'codebase_map_v2.txt'";
            lit "Total tokens (est): "
              ++ str_of_nat (length codebase_map / 4)];
         directory :=
           Listing dirs (save OUTPUT_FILE codebase_map place files) |}
  else None.

(** ** Sample trees *)

(** A directory two levels down. *)
Definition nested : node :=
  Listing
    [(lit "src",
      Listing [(lit "util",
                Listing [] [(lit "pad.ts",
                             Some (lit "export const pad = (s) => s;"));
                            (lit ".env", Some (lit "KEY=1"))])]
              [(lit "app.js", None)])]
    [(lit "package-lock.json", Some []); (lit "notes.txt", Some [])].

End Layout.

(* ===================================================================== *)
(** * _scanproblem.py: the run as a whole                                 *)
(* ===================================================================== *)

(** Vocabulary for statements that hold for every run of [main], whatever
    the linter printed: what the run adds to the trace, the header of the
    log, and the report as a text. *)
Module Run.
Import Py Scan.

(** The three header records of the log. *)
Definition log_header (e : env) : text :=
  (lit "--- ESLINT DEBUG REPORT ---" ++ nl)
    ++ (lit "Generated: " ++ clock e ++ nl)
    ++ (lit "---------------------------" ++ nl ++ nl).

(** The two records written between [os.getcwd] and [subprocess.run]. *)
Definition log_location (e : env) (cwd : text) : text :=
  (lit "Run Location: " ++ cwd ++ nl)
    ++ (lit "Command: " ++ lint_command e ++ nl ++ nl).

(** The events [st'] holds beyond those of [st]. *)
Definition events_since (st st' : state) : list io :=
  skipn (length (trace st)) (trace st').

(** The events of one run of [main]. *)
Definition run_events (e : env) (st : state) : list io :=
  events_since st (main e st).

(** Printing and appending to the log are the quiet events; truncating the
    log, running a subprocess and decoding are the others. *)
Definition quiet (ev : io) : bool :=
  match ev with
  | Out _ => true
  | Log _ ModeA => true
  | _ => false
  end.

Definition loud (ev : io) : bool := negb (quiet ev).

Definition any_event (ev : io) : bool := true.

(** [st'] continues [st], and [actions] are the events it adds that are not
    quiet, in order. *)
Definition adds (st st' : state) (actions : list io) : Prop :=
  exists evs, trace st' = trace st ++ evs /\ filter loud evs = actions.

(** What a run does to the log between two states: it appends to it when it
    can be opened, and leaves it alone when it cannot. *)
Definition log_kept (e : env) (st st' : state) : Prop :=
  match open_log e with
  | None =>
      forall old, logfile st = Some old ->
                  exists more, logfile st' = Some (old ++ more)
  | Some _ => logfile st' = logfile st
  end.

(** [st'] continues [st] with events that satisfy [allowed]. *)
Definition extends (e : env) (allowed : io -> bool) (st st' : state) : Prop :=
  (exists evs, trace st' = trace st ++ evs /\ forallb allowed evs = true)
  /\ log_kept e st st'.

(** A statement sequence every run of which continues the state so. *)
Definition respects (e : env) (allowed : io -> bool) (A : Type) (c : M A)
  : Prop :=
  forall st, extends e allowed st (snd (c st)).

(** ** Two runs side by side *)

(** The world [e] with a linter that exits with [code] instead. *)
Definition with_returncode (e : env) (code : Z) : env :=
  {| clock := clock e; getcwd := getcwd e; os_name := os_name e;
     subprocess_run :=
       fun command =>
         match subprocess_run e command with
         | Ok r =>
             Ok {| returncode := code; stdout := stdout r; stderr := stderr r |}
         | Raise x => Raise x
         end;
     json_loads := json_loads e; relpath := relpath e; open_log := open_log e;
     fault_text := fault_text e; repr := repr e |}.

(** The console line that shows the exit status. *)
Definition is_return_code (ev : io) : bool :=
  match ev with
  | Out line => startswith (clipboard ++ lit " Return Code: ") line
  | _ => false
  end.

Definition apart_from_code (tr : list io) : list io :=
  filter (fun ev => negb (is_return_code ev)) tr.

(** Two states with the same log and, the exit status apart, the same
    events. *)
Definition alike (st st' : state) : Prop :=
  logfile st = logfile st'
  /\ apart_from_code (trace st) = apart_from_code (trace st').

(** A statement sequence that cannot tell two such states apart. *)
Definition blind (A : Type) (c : M A) : Prop :=
  forall st st',
    alike st st' ->
    fst (c st) = fst (c st') /\ alike (snd (c st)) (snd (c st')).

(** ** The report as a text *)

(** [d.get(key, default)] on the members of a dict. *)
Definition field (members : list (text * json)) (key : text) (default : json)
  : json :=
  match lookup key members with
  | Some v => v
  | None => default
  end.

(** The record of one message. *)
Definition message_text (e : env) (msg : json) : text :=
  match msg with
  | JObj members =>
      match field members (lit "message") (JStr []) with
      | JStr s =>
          message_line e (field members (lit "line") (JInt 0))
            (field members (lit "ruleId") (JStr (lit "unknown")))
            (replace_char 10%N 32%N s)
      | _ => []
      end
  | _ => []
  end.

(** The banner of one file followed by the records of its messages. *)
Definition entry_text (e : env) (entry : json) : text :=
  match entry with
  | JObj members =>
      banner e (try_relpath e (field members (lit "filePath")
                                 (JStr (lit "unknown"))))
        (field members (lit "errorCount") JNull)
        ++ match field members (lit "messages") (JArr []) with
           | JArr msgs => concat (map (message_text e) msgs)
           | _ => []
           end
  | _ => []
  end.

(** The count line followed by the sections of the files. *)
Definition report_text (e : env) (files : list json) : text :=
  (lit "Found " ++ str_of_nat (length files) ++ lit " files with errors." ++ nl)
    ++ concat (map (entry_text e) files).

(** The records with an error count above zero, highest count first. *)
Definition ranked (items : list json) : list json :=
  sort_reverse error_count_key
    (filter (fun item => (0 <? error_count_key item)%Z) items).

(** ** Shapes of values *)

(** A value that [v > 0] accepts. *)
Definition is_number (v : json) : bool :=
  match v with
  | JInt _ | JBool _ => true
  | _ => false
  end.

Definition is_dict (v : json) : bool :=
  match v with
  | JObj _ => true
  | _ => false
  end.

(** A message whose fields, where present, are an integer line, a rule name
    or [null] without a line break, and a text. *)
Definition message_plain (msg : json) : Prop :=
  exists members,
    msg = JObj members
    /\ (forall v, lookup (lit "line") members = Some v -> exists z, v = JInt z)
    /\ (forall v, lookup (lit "ruleId") members = Some v ->
                  v = JNull \/ exists s, v = JStr s /\ count_char 10%N s = 0)
    /\ (forall v, lookup (lit "message") members = Some v ->
                  exists s, v = JStr s).

(** ** Sample worlds *)

(** [world] where [os.getcwd] raises. *)
Definition world_without_cwd (message : text) : env :=
  let e := Sample.world 0 [] [] in
  {| clock := clock e; getcwd := Raise (Raised message);
     os_name := os_name e; subprocess_run := subprocess_run e;
     json_loads := json_loads e; relpath := relpath e;
     open_log := open_log e; fault_text := fault_text e; repr := repr e |}.

(** [world] where the shell cannot be started. *)
Definition world_without_shell (message : text) : env :=
  let e := Sample.world 0 [] [] in
  {| clock := clock e; getcwd := getcwd e;
     os_name := os_name e; subprocess_run := fun _ => Raise (Raised message);
     json_loads := json_loads e; relpath := relpath e;
     open_log := open_log e; fault_text := fault_text e; repr := repr e |}.

(** [world] where logs.txt cannot be opened. *)
Definition world_locked (code : Z) (out err : text) : env :=
  let e := Sample.world code out err in
  {| clock := clock e; getcwd := getcwd e;
     os_name := os_name e; subprocess_run := subprocess_run e;
     json_loads := json_loads e; relpath := relpath e;
     open_log := Some (lit "[Errno 13] Permission denied: 'logs.txt'");
     fault_text := fault_text e; repr := repr e |}.

(** [world] on Windows. *)
Definition world_nt (code : Z) (out err : text) : env :=
  let e := Sample.world code out err in
  {| clock := clock e; getcwd := getcwd e;
     os_name := lit "nt"; subprocess_run := subprocess_run e;
     json_loads := json_loads e; relpath := relpath e;
     open_log := open_log e; fault_text := fault_text e; repr := repr e |}.

(** One record, without errors. *)
Definition no_errors : text :=
  Sample.json_text
    (lit "[{'filePath':'/work/a.js','errorCount':0,'messages':[]}]").

(** A message over two lines, without a rule. *)
Definition two_line_members : list (text * json) :=
  [(lit "line", JInt 12);
   (lit "ruleId", JNull);
   (lit "message", JStr (lit "Parsing error:" ++ nl ++ lit "unexpected token"))].

Definition two_line_message : json := JObj two_line_members.

(** The second record gives its error count as a text. *)
Definition count_as_text : text :=
  Sample.json_text
    (lit "[{'filePath':'/work/a.js','errorCount':3}, {'filePath':'/work/b.js','errorCount':'2'}]").

Definition count_as_text_items : json :=
  JArr [JObj [(lit "filePath", JStr (lit "/work/a.js"));
              (lit "errorCount", JInt 3)];
        JObj [(lit "filePath", JStr (lit "/work/b.js"));
              (lit "errorCount", JStr (lit "2"))]].

(** Two files with errors; the second message of the first is null. *)
Definition null_message : text :=
  Sample.json_text
    (lit "[{'filePath':'/work/a.js','errorCount':2,'messages':[{'line':1,'ruleId':'semi','message':'Missing semicolon.'}, null]}, {'filePath':'/work/b.js','errorCount':1,'messages':[]}]").

Definition null_message_first : list (text * json) :=
  [(lit "filePath", JStr (lit "/work/a.js"));
   (lit "errorCount", JInt 2);
   (lit "messages",
    JArr [JObj [(lit "line", JInt 1); (lit "ruleId", JStr (lit "semi"));
                (lit "message", JStr (lit "Missing semicolon."))];
          JNull])].

Definition null_message_second : json :=
  JObj [(lit "filePath", JStr (lit "/work/b.js"));
        (lit "errorCount", JInt 1);
        (lit "messages", JArr [])].

Definition null_message_items : list json :=
  [JObj null_message_first; null_message_second].

(** A log left by an earlier run. *)
Definition stale : state :=
  {| trace := []; logfile := Some (lit "old report" ++ nl) |}.

End Run.

(* ===================================================================== *)
(** * Facts about the runtime                                             *)
(* ===================================================================== *)

Module PyFacts.
Import Py.

Lemma text_eqb_eq (a b : text) : text_eqb a b = true <-> a = b.
Proof.
  revert b; induction a as [|x a IH]; intros [|y b]; simpl;
    try (split; [discriminate | discriminate]); try tauto.
  unfold char_eqb. rewrite andb_true_iff, N.eqb_eq, IH.
  split; [intros [-> ->]; reflexivity | intros H; injection H; auto].
Qed.

Lemma text_eqb_refl (a : text) : text_eqb a a = true.
Proof. apply text_eqb_eq; reflexivity. Qed.

Lemma text_eqb_neq (a b : text) : text_eqb a b = false <-> a <> b.
Proof.
  rewrite <- text_eqb_eq. destruct (text_eqb a b); split; congruence.
Qed.

Lemma mem_In (x : text) (xs : list text) : mem x xs = true <-> In x xs.
Proof.
  unfold mem. rewrite existsb_exists. split.
  - intros [y [Hy E]]. apply text_eqb_eq in E. subst. assumption.
  - intros H. exists x. split; [assumption | apply text_eqb_refl].
Qed.

Lemma mem_not_In (x : text) (xs : list text) : mem x xs = false <-> ~ In x xs.
Proof.
  rewrite <- mem_In. destruct (mem x xs); split; congruence.
Qed.

Lemma mem_app (x : text) (a b : list text) :
  mem x (a ++ b) = mem x a || mem x b.
Proof. unfold mem. apply existsb_app. Qed.

(** Two filters in a row, the outer one implying the inner one. *)
Lemma filter_filter_implied (A : Type) (p q : A -> bool) (l : list A) :
  (forall x, p x = true -> q x = true) ->
  filter p (filter q l) = filter p l.
Proof.
  intros H. induction l as [|x l IH]; simpl; [reflexivity|].
  destruct (q x) eqn:Q; simpl.
  - rewrite IH. reflexivity.
  - destruct (p x) eqn:P; [apply H in P; congruence | assumption].
Qed.

Lemma filter_filter_and (A : Type) (p q : A -> bool) (l : list A) :
  filter p (filter q l) = filter (fun x => p x && q x) l.
Proof.
  induction l as [|x l IH]; simpl; [reflexivity|].
  destruct (q x); simpl; rewrite ?andb_true_r, ?andb_false_r;
    [destruct (p x)|]; rewrite IH; reflexivity.
Qed.

(** Folding [dict_add_key] from any dictionary [acc] appends, in the order
    of first occurrence, the keys that [acc] lacks. *)
Lemma dict_fold_from (l acc : list text) :
  fold_left dict_add_key l acc
  = acc ++ filter (fresh_for acc) (dict_fromkeys l).
Proof.
  unfold dict_fromkeys. revert acc.
  induction l as [|x l IH]; intros acc.
  - simpl. rewrite app_nil_r. reflexivity.
  - cbn [fold_left].
    change (dict_add_key [] x) with [x].
    rewrite (IH [x]).
    change ([x] ++ filter (fresh_for [x]) (fold_left dict_add_key l []))
      with (x :: filter (fresh_for [x]) (fold_left dict_add_key l [])).
    assert (Hone : forall y, fresh_for [x] y = negb (text_eqb y x)).
    { intros y. unfold fresh_for. simpl. rewrite orb_false_r. reflexivity. }
    assert (Hhead : fresh_for acc x = negb (mem x acc)) by reflexivity.
    cbn [filter]. rewrite Hhead.
    assert (Hadd : dict_add_key acc x = if mem x acc then acc else acc ++ [x])
      by reflexivity.
    rewrite Hadd. clear Hadd Hhead.
    destruct (mem x acc) eqn:Hx; cbn [negb].
    + rewrite IH. f_equal.
      symmetry. apply filter_filter_implied.
      intros y Hy. rewrite Hone. unfold fresh_for in Hy.
      destruct (text_eqb y x) eqn:E; [|reflexivity].
      apply text_eqb_eq in E. subst. rewrite Hx in Hy. discriminate.
    + rewrite IH. rewrite <- app_assoc. f_equal. cbn [app]. f_equal.
      rewrite filter_filter_and. apply filter_ext.
      intros y. rewrite Hone. unfold fresh_for. rewrite mem_app. simpl.
      rewrite orb_false_r, negb_orb. reflexivity.
Qed.

(** The first key stays in front; later copies of it are the ones dropped. *)
Lemma dict_fromkeys_cons (x : text) (l : list text) :
  dict_fromkeys (x :: l)
  = x :: filter (fun y => negb (text_eqb y x)) (dict_fromkeys l).
Proof.
  unfold dict_fromkeys at 1. cbn [fold_left].
  change (dict_add_key [] x) with [x].
  rewrite dict_fold_from. cbn [app]. f_equal. apply filter_ext.
  intros y. unfold fresh_for. simpl. rewrite orb_false_r. reflexivity.
Qed.

Lemma In_dict_fromkeys (x : text) (l : list text) :
  In x (dict_fromkeys l) <-> In x l.
Proof.
  induction l as [|y l IH]; [simpl; tauto|].
  rewrite dict_fromkeys_cons. simpl. rewrite filter_In, IH.
  rewrite negb_true_iff, text_eqb_neq.
  destruct (text_eq_dec y x); [tauto|].
  split; [tauto|]. intros [H|H]; [tauto|]. right. split; congruence.
Qed.

Lemma NoDup_dict_fromkeys (l : list text) : NoDup (dict_fromkeys l).
Proof.
  induction l as [|x l IH]; [constructor|].
  rewrite dict_fromkeys_cons. constructor.
  - rewrite filter_In, negb_true_iff, text_eqb_neq. tauto.
  - apply NoDup_filter. assumption.
Qed.

Lemma mem_dict_fromkeys (x : text) (l : list text) :
  mem x (dict_fromkeys l) = mem x l.
Proof.
  destruct (mem x l) eqn:E.
  - apply mem_In, In_dict_fromkeys, mem_In. assumption.
  - apply mem_not_In. rewrite In_dict_fromkeys. apply mem_not_In. assumption.
Qed.

(** Keys of a second batch come after those of the first, minus the ones
    the first batch already supplied. *)
Lemma dict_fromkeys_app (a b : list text) :
  dict_fromkeys (a ++ b)
  = dict_fromkeys a ++ filter (fresh_for a) (dict_fromkeys b).
Proof.
  unfold dict_fromkeys at 1. rewrite fold_left_app.
  fold (dict_fromkeys a). rewrite dict_fold_from. f_equal.
  apply filter_ext. intros y. unfold fresh_for.
  rewrite mem_dict_fromkeys. reflexivity.
Qed.

(** A list without repetition is its own key list. *)
Lemma dict_fromkeys_NoDup (l : list text) : NoDup l -> dict_fromkeys l = l.
Proof.
  induction 1 as [|x l Hx Hl IH]; [reflexivity|].
  rewrite dict_fromkeys_cons, IH. f_equal.
  rewrite forallb_filter_id; [reflexivity|].
  apply forallb_forall. intros y Hy.
  rewrite negb_true_iff, text_eqb_neq. congruence.
Qed.

Lemma dict_fromkeys_idem (l : list text) :
  dict_fromkeys (dict_fromkeys l) = dict_fromkeys l.
Proof. apply dict_fromkeys_NoDup, NoDup_dict_fromkeys. Qed.

End PyFacts.

(* ===================================================================== *)
(** * The matcher                                                         *)
(* ===================================================================== *)

Module ReFacts.
Import Py Re PyFacts.

Lemma startswith_app (w s : text) :
  startswith w s = true -> s = w ++ skipn (length w) s.
Proof.
  revert s. induction w as [|c w IH]; intros [|x s]; cbn; try discriminate;
    try reflexivity.
  intros H. apply andb_true_iff in H. destruct H as [Hc Hw].
  apply N.eqb_eq in Hc. subst. f_equal. apply IH, Hw.
Qed.

(** A literal word matches exactly itself. *)
Lemma exec_word (w s : text) (g : option text)
      (k : text -> option text -> option hit) :
  w <> [] ->
  exec (word w) s g k
  = if startswith w s then k (skipn (length w) s) g else None.
Proof.
  revert s k. induction w as [|c w IH]; intros s k Hw; [congruence|].
  destruct w as [|c' w].
  - destruct s as [|x s]; cbn; [reflexivity|].
    unfold char_eqb. rewrite (N.eqb_sym c x), andb_true_r. reflexivity.
  - change (word (c :: c' :: w)) with (Cat (Chr c) (word (c' :: w))).
    cbn [exec]. destruct s as [|x s]; [reflexivity|].
    change (startswith (c :: c' :: w) (x :: s))
      with (char_eqb c x && startswith (c' :: w) s).
    change (skipn (length (c :: c' :: w)) (x :: s))
      with (skipn (length (c' :: w)) s).
    unfold char_eqb. rewrite (N.eqb_sym c x).
    destruct (x =? c)%N; [|reflexivity].
    rewrite IH by discriminate. reflexivity.
Qed.

(** What a greedy repetition took, when the match came through. *)
Lemma star_greedy_some (p : char -> bool) (s : text)
      (k : text -> option hit) (h : hit) :
  star_greedy p s k = Some h ->
  exists taken rest,
    s = taken ++ rest /\ forallb p taken = true /\ k rest = Some h.
Proof.
  induction s as [|c s IH]; cbn [star_greedy].
  - intros H. exists [], []. auto.
  - destruct (p c) eqn:Hc.
    + destruct (star_greedy p s k) as [h'|] eqn:Hs.
      * intros Hh. injection Hh as ->.
        destruct (IH eq_refl) as [taken [rest [-> [Hall Hk]]]].
        exists (c :: taken), rest. cbn. rewrite Hc, Hall. auto.
      * intros H. exists [], (c :: s). auto.
    + intros H. exists [], (c :: s). auto.
Qed.

Lemma run_split (p : char -> bool) (s : text) :
  s = run_of p s ++ after_run p s.
Proof.
  induction s as [|c s IH]; [reflexivity|]. cbn.
  destruct (p c); [cbn; f_equal; exact IH | reflexivity].
Qed.

Lemma run_of_all (p : char -> bool) (s : text) :
  forallb p (run_of p s) = true.
Proof.
  induction s as [|c s IH]; [reflexivity|]. cbn.
  destruct (p c) eqn:Hc; [cbn; rewrite Hc; exact IH | reflexivity].
Qed.

Lemma after_run_stops (p : char -> bool) (s : text) :
  match after_run p s with
  | [] => True
  | c :: _ => p c = false
  end.
Proof.
  induction s as [|c s IH]; [exact I|]. cbn.
  destruct (p c) eqn:Hc; [exact IH | exact Hc].
Qed.

(** In front of a continuation that cannot fail, a greedy repetition takes
    the longest run. *)
Lemma star_greedy_longest (p : char -> bool) (s : text)
      (k : text -> option hit) :
  (forall s', k s' <> None) ->
  star_greedy p s k = k (after_run p s).
Proof.
  intros Hk. induction s as [|c s IH]; [reflexivity|].
  cbn [star_greedy after_run]. destruct (p c); [|reflexivity].
  rewrite IH. destruct (k (after_run p s)) eqn:E; [reflexivity|].
  exfalso. exact (Hk _ E).
Qed.

(** Every entry of [findall] is the group of a match somewhere in the
    text. *)
Lemma findall_from_sound (r : re) (s : text) :
  forall skip x,
    In x (findall_from r s skip) ->
    exists before there rest g,
      s = before ++ there
      /\ match_here r there = Some (rest, g)
      /\ x = group_text g.
Proof.
  induction s as [|c s IH]; intros skip x; cbn [findall_from]; [intros []|].
  assert (Hlater : forall n, In x (findall_from r s n) ->
            exists before there rest g,
              c :: s = before ++ there
              /\ match_here r there = Some (rest, g)
              /\ x = group_text g).
  { intros n Hin. destruct (IH n x Hin) as [b [t [rest [g [-> [Hm Hx]]]]]].
    exists (c :: b), t, rest, g. auto. }
  destruct skip as [|n]; [|apply Hlater].
  destruct (match_here r (c :: s)) as [[rest g]|] eqn:Hm; [|apply Hlater].
  intros [<-|Hin]; [|eapply Hlater; exact Hin].
  exists [], (c :: s), rest, g. auto.
Qed.

End ReFacts.

(* ===================================================================== *)
(** * The signature extractor                                             *)
(* ===================================================================== *)

Module AaFacts.
Import Py Re Aa PyFacts.

(** ** Labels *)

Lemma class_label_inj (a b : text) : class_label a = class_label b -> a = b.
Proof. unfold class_label. apply app_inv_head. Qed.

Lemma function_label_inj (a b : text) :
  function_label a = function_label b -> a = b.
Proof. unfold function_label. rewrite !app_assoc. apply app_inv_head. Qed.

Lemma export_label_inj (a b : text) : export_label a = export_label b -> a = b.
Proof. unfold export_label. apply app_inv_head. Qed.

Lemma interface_label_inj (a b : text) :
  interface_label a = interface_label b -> a = b.
Proof. unfold interface_label. apply app_inv_head. Qed.

(** The first character tells the kinds of entry apart. *)
Lemma head_class (c : text) : head_char (class_label c) = 67%N.
Proof. reflexivity. Qed.
Lemma head_function (f : text) : head_char (function_label f) = 402%N.
Proof. reflexivity. Qed.
Lemma head_export (e : text) : head_char (export_label e) = 69%N.
Proof. reflexivity. Qed.
Lemma head_interface (i : text) : head_char (interface_label i) = 73%N.
Proof. reflexivity. Qed.
Lemma head_marker (n : nat) : head_char (more_marker n) = 46%N.
Proof. reflexivity. Qed.

Lemma label_not_marker (l : text) : is_label l -> ~ is_marker l.
Proof.
  intros H [n ->]. unfold is_label in H. rewrite head_marker in H.
  destruct H as [H|[H|[H|H]]]; discriminate.
Qed.

Lemma Forall_map_head (f : text -> text) (c : char) (l : list text) :
  (forall x, head_char (f x) = c) ->
  Forall (fun y => head_char y = c) (map f l).
Proof.
  intros H. apply Forall_forall. intros y Hy.
  apply in_map_iff in Hy. destruct Hy as [x [<- _]]. apply H.
Qed.

(** ** Deduplication under an injective labelling *)

Lemma dict_fromkeys_map (f : text -> text) (l : list text) :
  (forall a b, f a = f b -> a = b) ->
  dict_fromkeys (map f l) = map f (dict_fromkeys l).
Proof.
  intros Hinj. induction l as [|x l IH]; [reflexivity|].
  cbn [map]. rewrite !dict_fromkeys_cons, IH. cbn [map]. f_equal.
  rewrite filter_map_swap. f_equal. apply filter_ext. intros y.
  f_equal. destruct (text_eqb y x) eqn:E.
  - apply text_eqb_eq in E. subst. apply text_eqb_refl.
  - apply text_eqb_neq. apply text_eqb_neq in E. intros H. apply E, Hinj, H.
Qed.

(** Keys whose first character differs from every earlier key's all stay. *)
Lemma filter_fresh_other_head (seen l : list text) (c : char) :
  Forall (fun y => head_char y = c) seen ->
  Forall (fun y => head_char y <> c) l ->
  filter (fresh_for seen) l = l.
Proof.
  intros Hs Hl. apply forallb_filter_id, forallb_forall. intros y Hy.
  unfold fresh_for. apply negb_true_iff, mem_not_In. intros Hin.
  rewrite Forall_forall in Hs, Hl. apply (Hl y Hy). apply Hs, Hin.
Qed.

(** ** The shape of [get_signatures] *)

(** ** The cut *)

Lemma cut_small (l : list text) :
  length l <= MAX_SIGNATURES -> cut l = l.
Proof.
  intros H. unfold cut.
  destruct (MAX_SIGNATURES <? length l) eqn:E; [|reflexivity].
  apply Nat.ltb_lt in E. lia.
Qed.

Lemma cut_large (l : list text) :
  MAX_SIGNATURES < length l ->
  cut l = firstn MAX_SIGNATURES l
            ++ [more_marker (length l - MAX_SIGNATURES)].
Proof.
  intros H. unfold cut. apply Nat.ltb_lt in H. rewrite H. reflexivity.
Qed.

Lemma firstn_cut (l : list text) :
  firstn MAX_SIGNATURES (cut l) = firstn MAX_SIGNATURES l.
Proof.
  destruct (Nat.le_gt_cases (length l) MAX_SIGNATURES) as [H|H].
  - rewrite cut_small by assumption. reflexivity.
  - rewrite cut_large by assumption.
    rewrite firstn_app, length_firstn.
    replace (MAX_SIGNATURES - Nat.min MAX_SIGNATURES (length l)) with 0 by lia.
    rewrite firstn_firstn. cbn [firstn]. rewrite app_nil_r.
    rewrite Nat.min_id. reflexivity.
Qed.

Lemma In_firstn (A : Type) (n : nat) (l : list A) (x : A) :
  In x (firstn n l) -> In x l.
Proof.
  intros H. rewrite <- (firstn_skipn n l). apply in_or_app. left. exact H.
Qed.

Lemma NoDup_firstn (A : Type) (n : nat) (l : list A) :
  NoDup l -> NoDup (firstn n l).
Proof.
  intros H. rewrite <- (firstn_skipn n l) in H.
  apply NoDup_app_remove_r in H. exact H.
Qed.

Lemma occurrences_app (x : text) (a b : list text) :
  occurrences x (a ++ b) = occurrences x a + occurrences x b.
Proof. apply count_occ_app. Qed.

Lemma occurrences_absent (x : text) (l : list text) :
  ~ In x l -> occurrences x l = 0.
Proof. apply count_occ_not_In. Qed.

Lemma occurrences_NoDup (x : text) (l : list text) :
  NoDup l -> In x l -> occurrences x l = 1.
Proof. intros H. revert x. apply NoDup_count_occ'. exact H. Qed.

(** A label occurs in the cut list as often as among the first
    [MAX_SIGNATURES] entries of the uncut one. *)
Lemma occurrences_cut (x : text) (l : list text) :
  ~ is_marker x ->
  occurrences x (cut l) = occurrences x (firstn MAX_SIGNATURES l).
Proof.
  intros Hx.
  destruct (Nat.le_gt_cases (length l) MAX_SIGNATURES) as [H|H].
  - rewrite cut_small, firstn_all2 by assumption. reflexivity.
  - rewrite cut_large by assumption. rewrite occurrences_app.
    rewrite (occurrences_absent x [_]); [lia|].
    intros [E|[]]. apply Hx. eexists. symmetry. exact E.
Qed.

(** Cutting a list of distinct labels leaves no repetition. *)
Lemma NoDup_cut (l : list text) :
  NoDup l -> Forall is_label l -> NoDup (cut l).
Proof.
  intros Hnd Hlab.
  destruct (Nat.le_gt_cases (length l) MAX_SIGNATURES) as [H|H].
  - rewrite cut_small by assumption. exact Hnd.
  - rewrite cut_large by assumption.
    apply NoDup_app; [apply NoDup_firstn, Hnd | repeat constructor; intros [] |].
    intros a Ha [E|[]]. apply In_firstn in Ha.
    rewrite Forall_forall in Hlab.
    apply (label_not_marker (Hlab a Ha)). eexists. symmetry. exact E.
Qed.

(** Batches of labels that start with different characters are
    deduplicated apart. *)
Lemma dict_fromkeys_app_apart (a b : list text) (c : char) :
  Forall (fun y => head_char y = c) a ->
  Forall (fun y => head_char y <> c) b ->
  dict_fromkeys (a ++ b) = dict_fromkeys a ++ dict_fromkeys b.
Proof.
  intros Ha Hb. rewrite dict_fromkeys_app. f_equal.
  apply (filter_fresh_other_head Ha).
  apply Forall_forall. intros y Hy.
  apply (proj1 (In_dict_fromkeys y b)) in Hy.
  rewrite Forall_forall in Hb. apply Hb, Hy.
Qed.

Section Extractor.
Variable uni_alnum : char -> bool.

Local Abbreviation classes := (Aa.classes uni_alnum).
Local Abbreviation funcs := (Aa.funcs uni_alnum).
Local Abbreviation arrows := (Aa.arrows uni_alnum).
Local Abbreviation exports := (Aa.exports uni_alnum).
Local Abbreviation interfaces := (Aa.interfaces uni_alnum).
Local Abbreviation collect_signatures := (Aa.collect_signatures uni_alnum).
Local Abbreviation get_signatures := (Aa.get_signatures uni_alnum).

Lemma append_each_map (label : text -> text) (names sigs : list text) :
  append_each label names sigs = sigs ++ map label names.
Proof.
  unfold append_each. revert sigs.
  induction names as [|x names IH]; intros sigs; simpl.
  - rewrite app_nil_r. reflexivity.
  - rewrite IH, <- app_assoc. reflexivity.
Qed.

(** The appends of the five loops, read as one concatenation. *)
Lemma collect_signatures_eq (content : text) :
  collect_signatures content
  = map class_label (classes content)
      ++ map function_label (funcs content)
      ++ map function_label (arrows content)
      ++ map export_label (exports content)
      ++ map interface_label (interfaces content).
Proof.
  unfold Aa.collect_signatures. rewrite !append_each_map.
  cbn [app]. rewrite <- !app_assoc. reflexivity.
Qed.

Lemma collected_are_labels (content : text) :
  Forall is_label (collect_signatures content).
Proof.
  rewrite collect_signatures_eq. unfold is_label.
  repeat (apply Forall_app; split);
    apply Forall_forall; intros y Hy; apply in_map_iff in Hy;
    destruct Hy as [x [<- _]]; cbn; tauto.
Qed.

Lemma get_signatures_eq (content : text) :
  get_signatures (Some content)
  = cut (dict_fromkeys (collect_signatures content)).
Proof. reflexivity. Qed.

Lemma distinct_are_labels (content : text) :
  Forall is_label (dict_fromkeys (collect_signatures content)).
Proof.
  apply Forall_forall. intros y Hy.
  apply (proj1 (In_dict_fromkeys y _)) in Hy.
  pose proof (collected_are_labels content) as H.
  rewrite Forall_forall in H. apply H, Hy.
Qed.


(** C9.  Order by rule.  The returned list is the cut of five runs of
    labels in this order: the classes, the named functions, the arrow
    functions that no named function already supplied, the exports and the
    interfaces, each run in the order of first match in the text.  A
    function that precedes a class in the file is still listed after it. *)
Theorem category_order (content : text) :
  let class_part := map class_label (dict_fromkeys (classes content)) in
  let function_part := map function_label (dict_fromkeys (funcs content)) in
  let arrow_part :=
    map function_label
      (filter (fresh_for (funcs content)) (dict_fromkeys (arrows content))) in
  let export_part := map export_label (dict_fromkeys (exports content)) in
  let interface_part :=
    map interface_label (dict_fromkeys (interfaces content)) in
  get_signatures (Some content)
  = cut (class_part ++ function_part ++ arrow_part ++ export_part
           ++ interface_part)
  /\ get_signatures (Some (lit "function f() {} class A {}"))
     = [class_label (lit "A"); function_label (lit "f")].
Proof.
  cbv zeta. split; [|vm_compute; reflexivity].
  rewrite get_signatures_eq, collect_signatures_eq. f_equal.
  rewrite (@dict_fromkeys_app_apart _ _ 67%N).
  2: { apply Forall_map_head, head_class. }
  2: { repeat (apply Forall_app; split);
       apply Forall_forall; intros y Hy; apply in_map_iff in Hy;
       destruct Hy as [x [<- _]]; cbn; discriminate. }
  rewrite (@dict_fromkeys_map class_label _ class_label_inj). f_equal.
  rewrite (app_assoc (map function_label _)), <- map_app.
  rewrite (@dict_fromkeys_app_apart _ _ 402%N).
  2: { apply Forall_map_head, head_function. }
  2: { repeat (apply Forall_app; split);
       apply Forall_forall; intros y Hy; apply in_map_iff in Hy;
       destruct Hy as [x [<- _]]; cbn; discriminate. }
  rewrite (@dict_fromkeys_map function_label _ function_label_inj), dict_fromkeys_app, map_app.
  rewrite <- app_assoc. do 2 f_equal.
  rewrite (@dict_fromkeys_app_apart _ _ 69%N).
  2: { apply Forall_map_head, head_export. }
  2: { apply Forall_forall; intros y Hy; apply in_map_iff in Hy;
       destruct Hy as [x [<- _]]; cbn; discriminate. }
  rewrite (@dict_fromkeys_map export_label _ export_label_inj).
  rewrite (@dict_fromkeys_map interface_label _ interface_label_inj). reflexivity.
Qed.

(** *** What the class rule finds *)

(** One or more characters of a class, then [k]. *)
Lemma exec_plus (p : char -> bool) (s : text) (g : option text)
      (k : text -> option text -> option hit) :
  exec (Plus p) s g k
  = match s with
    | x :: s' => if p x then star_greedy p s' (fun s1 => k s1 g) else None
    | [] => None
    end.
Proof. destruct s; reflexivity. Qed.

(** A match of the class rule is the word [class], whitespace, and a name:
    the longest run of word characters there. *)
Lemma class_match_shape (s rest : text) (g : option text) :
  match_here (re_class uni_alnum) s = Some (rest, g) ->
  exists ws X,
    s = lit "class" ++ ws ++ X ++ rest
    /\ ws <> [] /\ forallb is_space ws = true
    /\ X <> [] /\ forallb (is_word uni_alnum) X = true
    /\ g = Some X
    /\ match rest with
       | [] => True
       | c :: _ => is_word uni_alnum c = false
       end.
Proof.
  unfold match_here, re_class. cbn [exec].
  rewrite ReFacts.exec_word by discriminate.
  destruct (startswith (lit "class") s) eqn:Hclass; [|discriminate].
  apply ReFacts.startswith_app in Hclass.
  set (s1 := skipn (length (lit "class")) s) in *.
  rewrite exec_plus. destruct s1 as [|x s1']; [discriminate|].
  destruct (is_space x) eqn:Hx; [|discriminate].
  intros H. apply ReFacts.star_greedy_some in H.
  destruct H as [taken [r2 [Hs1 [Htaken H]]]].
  cbn [exec] in H. rewrite exec_plus in H.
  destruct r2 as [|y r3]; [discriminate H|].
  destruct (is_word uni_alnum y) eqn:Hy; [|discriminate H].
  rewrite ReFacts.star_greedy_longest in H by discriminate.
  injection H as Hrest Hg.
  exists (x :: taken), (y :: run_of (is_word uni_alnum) r3).
  assert (Hr3 : r3 = run_of (is_word uni_alnum) r3 ++ rest)
    by (rewrite <- Hrest; apply ReFacts.run_split).
  repeat split.
  - rewrite Hclass at 1. f_equal. rewrite Hs1. cbn [app]. f_equal.
    f_equal. f_equal. exact Hr3.
  - discriminate.
  - cbn [forallb]. rewrite Hx, Htaken. reflexivity.
  - discriminate.
  - cbn [forallb]. rewrite Hy. apply ReFacts.run_of_all.
  - rewrite <- Hg. f_equal. rewrite Hrest.
    change (match length rest with
            | 0 => S (length r3)
            | S l => length r3 - l
            end)
      with (S (length r3) - length rest).
    set (name := run_of (is_word uni_alnum) r3) in *.
    assert (Hlen : S (length r3) - length rest = S (length name)).
    { rewrite Hr3, length_app. lia. }
    rewrite Hlen. cbn [firstn]. f_equal.
    transitivity (firstn (length name) (name ++ rest));
      [f_equal; exact Hr3|].
    rewrite firstn_app, Nat.sub_diag, firstn_all. cbn [firstn].
    apply app_nil_r.
  - rewrite <- Hrest. apply ReFacts.after_run_stops.
Qed.

(** Every class name the rule reports stands in the text as a
    declaration: the word [class], whitespace, the name, and no word
    character after it. *)
Lemma classes_are_declarations (content X : text) :
  In X (classes content) ->
  exists before ws after,
    content = before ++ lit "class" ++ ws ++ X ++ after
    /\ ws <> [] /\ forallb is_space ws = true
    /\ X <> [] /\ forallb (is_word uni_alnum) X = true
    /\ match after with
       | [] => True
       | c :: _ => is_word uni_alnum c = false
       end.
Proof.
  intros H. apply ReFacts.findall_from_sound in H.
  destruct H as [before [there [rest [g [-> [Hm ->]]]]]].
  apply class_match_shape in Hm.
  destruct Hm as [ws [X [-> [Hws [Hsp [HX [Hw [-> Hrest]]]]]]]].
  exists before, ws, rest. cbn [group_text]. auto 10.
Qed.

(** The distinct labels start with the distinct class labels; nothing after
    them is a class label. *)
Lemma distinct_classes_first (content : text) :
  exists rest,
    dict_fromkeys (collect_signatures content)
    = map class_label (dict_fromkeys (classes content)) ++ rest
    /\ Forall (fun y => head_char y <> 67%N) rest.
Proof.
  rewrite collect_signatures_eq.
  rewrite (@dict_fromkeys_app_apart _ _ 67%N).
  2: { apply Forall_map_head, head_class. }
  2: { repeat (apply Forall_app; split);
       apply Forall_forall; intros y Hy; apply in_map_iff in Hy;
       destruct Hy as [x [<- _]]; cbn; discriminate. }
  rewrite (@dict_fromkeys_map class_label _ class_label_inj).
  eexists. split; [reflexivity|].
  apply Forall_forall. intros y Hy.
  apply (proj1 (In_dict_fromkeys y _)) in Hy.
  repeat (apply in_app_or in Hy; destruct Hy as [Hy|Hy]);
    apply in_map_iff in Hy; destruct Hy as [x [<- _]]; cbn; discriminate.
Qed.

(** C1 (as the code has it).  A class named [X] that the class rule finds
    (a declaration of [X] in the text, by [classes_are_declarations])
    is listed at most once.  It is listed exactly once when [X] is among the
    first [MAX_SIGNATURES] distinct class names, which is always so when the
    file yields at most [MAX_SIGNATURES] distinct labels; a class beyond them
    is not listed, the marker counts it. *)
Theorem class_label_once (content X : text) :
  In X (classes content) ->
  let out := get_signatures (Some content) in
  let first_classes :=
    firstn MAX_SIGNATURES (dict_fromkeys (classes content)) in
  occurrences (class_label X) out <= 1
  /\ (In X first_classes -> occurrences (class_label X) out = 1)
  /\ (~ In X first_classes -> occurrences (class_label X) out = 0)
  /\ (length (dict_fromkeys (collect_signatures content)) <= MAX_SIGNATURES ->
      In X first_classes).
Proof.
  intros HX out first_classes.
  destruct (distinct_classes_first content) as [rest [Hu Hrest]].
  assert (Hcount : occurrences (class_label X) out
                   = count_occ text_eq_dec first_classes X).
  { unfold out. rewrite get_signatures_eq.
    rewrite occurrences_cut.
    2: { apply label_not_marker. left. reflexivity. }
    rewrite Hu, firstn_app, firstn_map, occurrences_app.
    rewrite (occurrences_absent (class_label X) (firstn _ rest)).
    2: { intros Hin. apply In_firstn in Hin.
         rewrite Forall_forall in Hrest. apply (Hrest _ Hin). reflexivity. }
    rewrite Nat.add_0_r. unfold occurrences. symmetry.
    apply count_occ_map. exact class_label_inj. }
  assert (Hnd : NoDup first_classes)
    by apply NoDup_firstn, NoDup_dict_fromkeys.
  rewrite Hcount. repeat split.
  - apply NoDup_count_occ. exact Hnd.
  - apply NoDup_count_occ'. exact Hnd.
  - apply count_occ_not_In.
  - intros Hlen. unfold first_classes. rewrite firstn_all2.
    + apply In_dict_fromkeys. exact HX.
    + rewrite Hu, length_app, length_map in Hlen. lia.
Qed.

(** C3 (as the code has it).  Take the first occurrence of a label [l]
    among the labels a file produces, however often [l] is produced after
    it, and let [pos] be the number of distinct labels before it.  The
    returned list never repeats an entry.  If [pos] is below
    [MAX_SIGNATURES], [l] is listed exactly once, at index [pos], after the
    distinct labels that precede it; otherwise it is not listed. *)
Theorem dedup_first_occurrence (content : text) (before after : list text)
        (l : text) :
  collect_signatures content = before ++ l :: after ->
  ~ In l before ->
  let pos := length (dict_fromkeys before) in
  let out := get_signatures (Some content) in
  NoDup out
  /\ (pos < MAX_SIGNATURES ->
        nth_error out pos = Some l
        /\ firstn pos out = dict_fromkeys before
        /\ occurrences l out = 1)
  /\ (MAX_SIGNATURES <= pos -> occurrences l out = 0).
Proof.
  intros Hsplit Hfirst pos out.
  set (u := dict_fromkeys (collect_signatures content)).
  assert (Hout : out = cut u) by reflexivity.
  assert (Hlabel : is_label l).
  { pose proof (collected_are_labels content) as H.
    rewrite Forall_forall in H. apply H. rewrite Hsplit.
    apply in_or_app. right. left. reflexivity. }
  assert (Hu : exists tail, u = dict_fromkeys before ++ l :: tail).
  { unfold u. rewrite Hsplit, dict_fromkeys_app, dict_fromkeys_cons.
    cbn [filter]. unfold fresh_for at 1.
    rewrite (proj2 (mem_not_In l before) Hfirst). cbn [negb].
    eexists. reflexivity. }
  destruct Hu as [tail Hu].
  assert (Hnd : NoDup u) by apply NoDup_dict_fromkeys.
  assert (Hocc : occurrences l out = occurrences l (firstn MAX_SIGNATURES u)).
  { rewrite Hout. apply occurrences_cut, label_not_marker, Hlabel. }
  split; [rewrite Hout; apply NoDup_cut; [exact Hnd | apply distinct_are_labels]|].
  split.
  - intros Hpos.
    assert (Hfn : firstn MAX_SIGNATURES out = firstn MAX_SIGNATURES u)
      by (rewrite Hout; apply firstn_cut).
    assert (Hnth : nth_error (firstn MAX_SIGNATURES u) pos = Some l).
    { rewrite nth_error_firstn.
      destruct (pos <? MAX_SIGNATURES) eqn:E;
        [|apply Nat.ltb_ge in E; lia].
      rewrite Hu, nth_error_app2 by (unfold pos; lia).
      unfold pos. rewrite Nat.sub_diag. reflexivity. }
    repeat split.
    + rewrite <- Hfn in Hnth. rewrite nth_error_firstn in Hnth.
      destruct (pos <? MAX_SIGNATURES); [exact Hnth | discriminate].
    + replace pos with (Nat.min pos MAX_SIGNATURES) at 1 by lia.
      rewrite <- firstn_firstn, Hfn, firstn_firstn.
      replace (Nat.min pos MAX_SIGNATURES) with pos by lia.
      rewrite Hu, firstn_app. unfold pos.
      rewrite Nat.sub_diag, firstn_all. cbn [firstn].
      apply app_nil_r.
    + rewrite Hocc. apply occurrences_NoDup.
      * apply NoDup_firstn, Hnd.
      * eapply nth_error_In. exact Hnth.
  - intros Hpos. rewrite Hocc. apply occurrences_absent.
    rewrite Hu, firstn_app.
    replace (MAX_SIGNATURES - length (dict_fromkeys before)) with 0
      by (unfold pos in Hpos; lia).
    cbn [firstn]. rewrite app_nil_r. intros Hin. apply In_firstn in Hin.
    apply (proj1 (In_dict_fromkeys l before)) in Hin. exact (Hfirst Hin).
Qed.

End Extractor.

Example more_marker_shows_count : more_marker 12 = lit "...(+12 more)".
Proof. vm_compute. reflexivity. Qed.

(** ** The rules at the texts their comments name *)

Example class_rule_matches :
  classes latin1_alnum (lit "class MyClass {} class Other extends Parent {}")
  = [lit "MyClass"; lit "Other"].
Proof. vm_compute. reflexivity. Qed.

Example function_rule_matches :
  funcs latin1_alnum
    (lit "function myFunc() {} async function other (x) {} function* gen() {}")
  = [lit "myFunc"; lit "other"].
Proof. vm_compute. reflexivity. Qed.

Example arrow_rule_matches :
  arrows latin1_alnum
    (lit "const a = (x) => 1; let b = async (y, z) => 2; var c = x => 3")
  = [lit "a"; lit "b"].
Proof. vm_compute. reflexivity. Qed.

(** The dot does not cross a line break: an arrow function whose
    parameters span two lines is not found. *)
Example arrow_rule_stops_at_newline :
  arrows latin1_alnum (lit "const f = (a," ++ nl ++ lit " b) => 1") = [].
Proof. vm_compute. reflexivity. Qed.

Example export_rule_matches :
  exports latin1_alnum (lit "exports.a = 1; module.exports.b= 2")
  = [lit "a"; lit "b"].
Proof. vm_compute. reflexivity. Qed.

Example interface_rule_matches :
  interfaces latin1_alnum (lit "interface Shape { } interface  Point")
  = [lit "Shape"; lit "Point"].
Proof. vm_compute. reflexivity. Qed.

(** A name may hold letters outside ASCII. *)
Example class_rule_unicode :
  classes latin1_alnum (lit "class " ++ [201%N; 116%N; 233%N] ++ lit " {}")
  = [[201%N; 116%N; 233%N]].
Proof. vm_compute. reflexivity. Qed.

(** Matches do not overlap: the second [class] is taken as a name. *)
Example class_rule_overlap :
  classes latin1_alnum (lit "class class Foo") = [lit "class"].
Proof. vm_compute. reflexivity. Qed.

(** ** The statements at sample files *)

Lemma class_label_once_witness :
  occurrences (class_label (lit "A"))
    (get_signatures latin1_alnum (Some small_file)) = 1.
Proof.
  assert (H : In (lit "A") (classes latin1_alnum small_file))
    by (vm_compute; left; reflexivity).
  destruct (@class_label_once latin1_alnum small_file (lit "A") H)
    as [_ [Hone _]].
  apply Hone. vm_compute. left. reflexivity.
Defined.

(** C1 as stated fails: the eleventh class of [eleven_classes] is found by
    the class rule, and the returned list has no entry for it. *)
Lemma class_label_once_counterexample :
  In (lit "K") (classes latin1_alnum eleven_classes)
  /\ occurrences (class_label (lit "K"))
       (get_signatures latin1_alnum (Some eleven_classes)) = 0.
Proof.
  split.
  - vm_compute. do 10 right. left. reflexivity.
  - vm_compute. reflexivity.
Qed.


Lemma dedup_first_occurrence_witness :
  nth_error (get_signatures latin1_alnum (Some f_around_class)) 1
  = Some (function_label (lit "f"))
  /\ occurrences (function_label (lit "f"))
       (get_signatures latin1_alnum (Some f_around_class)) = 1.
Proof.
  assert (Hsplit : collect_signatures latin1_alnum f_around_class
                   = [class_label (lit "A")] ++ function_label (lit "f")
                       :: [function_label (lit "f")])
    by (vm_compute; reflexivity).
  assert (Hfirst : ~ In (function_label (lit "f")) [class_label (lit "A")])
    by (intros [E|[]]; discriminate E).
  destruct (@dedup_first_occurrence latin1_alnum f_around_class _ _ _
              Hsplit Hfirst)
    as [_ [Hlisted _]].
  assert (Hpos : length (dict_fromkeys [class_label (lit "A")]) < MAX_SIGNATURES)
    by (vm_compute; lia).
  destruct (Hlisted Hpos) as [Hnth [_ Hocc]].
  split; [exact Hnth | exact Hocc].
Defined.

(** C3 as stated fails: [ten_classes_f_twice] produces the label of [f]
    twice, and the returned list does not hold it at all. *)
Lemma dedup_first_occurrence_counterexample :
  occurrences (function_label (lit "f"))
    (collect_signatures latin1_alnum ten_classes_f_twice) = 2
  /\ occurrences (function_label (lit "f"))
       (get_signatures latin1_alnum (Some ten_classes_f_twice)) = 0.
Proof. split; vm_compute; reflexivity. Qed.

End AaFacts.

(* ===================================================================== *)
(** * The walk and the rendered map                                       *)
(* ===================================================================== *)

Module WalkFacts.
Import Py Re Aa PyFacts.

(** Induction over a tree, with the hypothesis for every sub-directory. *)
Fixpoint node_induction (P : node -> Prop)
         (HListing : forall dirs files,
             Forall (fun d => P (snd d)) dirs -> P (Listing dirs files))
         (HUnreadable : P Unreadable) (HSymlink : P Symlink)
         (n : node) {struct n} : P n :=
  match n with
  | Listing dirs files =>
      HListing dirs files
        ((fix all (l : list (text * node)) : Forall (fun d => P (snd d)) l :=
            match l with
            | [] => Forall_nil _
            | d :: l' =>
                Forall_cons d
                  (node_induction P HListing HUnreadable HSymlink (snd d))
                  (all l')
            end) dirs)
  | Unreadable => HUnreadable
  | Symlink => HSymlink
  end.

Section Walk.
Variable uni_alnum : char -> bool.
Variable ignore_dirs ignore_files code_extensions : list text.
Variable start_path : text.

Local Abbreviation walk :=
  (Aa.walk uni_alnum ignore_dirs ignore_files code_extensions start_path).
Local Abbreviation root_events :=
  (Aa.root_events uni_alnum ignore_files code_extensions start_path).
Local Abbreviation file_events :=
  (Aa.file_events uni_alnum ignore_files code_extensions).
Local Abbreviation strip := (Aa.strip ignore_dirs).
Local Abbreviation observed :=
  (Aa.observed ignore_dirs ignore_files code_extensions).

(** *** Every event belongs to a directory reached through kept names *)

Lemma file_events_rel (rel : list text) (root subindent : text)
      (f : text * option text) (e : event) :
  In e (file_events rel root subindent f) -> event_rel e = rel.
Proof.
  unfold Aa.file_events.
  destruct (mem (fst f) ignore_files); [intros []|].
  destruct (mem (splitext_ext (fst f)) code_extensions).
  - destruct (get_signatures uni_alnum (snd f));
      intros [<-|[<-|[]]]; reflexivity.
  - intros [<-|[]]. reflexivity.
Qed.

Lemma root_events_rel (rel : list text) (root : text)
      (files : list (text * option text)) (e : event) :
  In e (root_events rel root files) -> event_rel e = rel.
Proof.
  unfold Aa.root_events. intros [<-|[<-|H]]; try reflexivity.
  apply in_flat_map in H. destruct H as [f [_ H]].
  eapply file_events_rel. exact H.
Qed.

Lemma walk_rel (n : node) :
  forall rel root e,
    In e (walk rel root n) ->
    exists below,
      event_rel e = rel ++ below
      /\ Forall (fun name => mem name ignore_dirs = false) below.
Proof.
  induction n as [dirs files IH| |] using node_induction;
    intros rel root e; cbn [Aa.walk]; [|intros []|intros []].
  intros H. apply in_app_or in H. destruct H as [H|H].
  - exists []. rewrite app_nil_r. split; [|constructor].
    eapply root_events_rel. exact H.
  - apply in_flat_map in H. destruct H as [[name child] [Hd H]].
    destruct (mem name ignore_dirs) eqn:Hname; [destruct H|].
    rewrite Forall_forall in IH. specialize (IH _ Hd). cbn [snd] in IH.
    destruct (IH _ _ _ H) as [below [Hrel Hbelow]].
    exists (name :: below). split.
    + rewrite Hrel, <- app_assoc. reflexivity.
    + constructor; assumption.
Qed.

(** *** Ignored directories might as well not be there *)

Lemma walk_strip (n : node) :
  forall rel root, walk rel root (strip n) = walk rel root n.
Proof.
  induction n as [dirs files IH| |] using node_induction;
    intros rel root; cbn [Aa.walk Aa.strip]; try reflexivity.
  f_equal. induction IH as [|[name child] dirs Hd _ IHdirs];
    [reflexivity|].
  cbn [flat_map]. destruct (mem name ignore_dirs) eqn:Hname.
  - cbn [app]. exact IHdirs.
  - cbn [app flat_map]. rewrite Hname. cbn [snd] in Hd.
    rewrite Hd, IHdirs. reflexivity.
Qed.

Lemma clean_strip (n : node) : clean ignore_dirs (strip n).
Proof.
  induction n as [dirs files IH| |] using node_induction;
    cbn [Aa.strip]; constructor.
  induction IH as [|[name child] dirs Hd _ IHdirs]; [constructor|].
  cbn [flat_map]. destruct (mem name ignore_dirs) eqn:Hname.
  - exact IHdirs.
  - cbn [app]. constructor; [|exact IHdirs]. split; assumption.
Qed.

(** *** The run depends on what it looks at only *)

Lemma file_events_observed (rel : list text) (root subindent : text)
      (files : list (text * option text)) :
  flat_map (file_events rel root subindent)
    (flat_map
       (fun f : text * option text =>
          if mem (fst f) ignore_files then []
          else if mem (splitext_ext (fst f)) code_extensions then [f]
          else [(fst f, None)])
       files)
  = flat_map (file_events rel root subindent) files.
Proof.
  induction files as [|f files IH]; [reflexivity|].
  cbn [flat_map]. rewrite flat_map_app, IH. f_equal.
  unfold Aa.file_events.
  destruct (mem (fst f) ignore_files) eqn:Hf; [reflexivity|].
  destruct (mem (splitext_ext (fst f)) code_extensions) eqn:Hext;
    cbn [flat_map fst snd]; rewrite Hf, Hext, app_nil_r; reflexivity.
Qed.

Lemma walk_observed (n : node) :
  forall rel root, walk rel root (observed n) = walk rel root n.
Proof.
  induction n as [dirs files IH| |] using node_induction;
    intros rel root; cbn [Aa.walk Aa.observed]; try reflexivity.
  f_equal.
  - unfold Aa.root_events. do 2 f_equal. apply file_events_observed.
  - induction IH as [|[name child] dirs Hd _ IHdirs]; [reflexivity|].
    cbn [flat_map]. destruct (mem name ignore_dirs) eqn:Hname.
    + cbn [app]. exact IHdirs.
    + cbn [app flat_map]. rewrite Hname. cbn [snd] in Hd.
      rewrite Hd, IHdirs. reflexivity.
Qed.

End Walk.

(** The depth of a directory is counted on its path with every occurrence
    of the start path taken out: under [/app], the directory [/app/app] is
    at depth 0 and gets the line of the root. *)
Example depth_after_replace :
  output_lines
    (run_trace latin1_alnum IGNORE_DIRS IGNORE_FILES CODE_EXTENSIONS
       (lit "/app")
       (Listing [(lit "app", Listing [] [(lit "x.txt", None)])] []))
  = [folder_icon ++ lit " PROJECT_ROOT/";
     folder_icon ++ lit " PROJECT_ROOT/";
     lit "    " ++ file_icon ++ lit " x.txt"].
Proof. vm_compute. reflexivity. Qed.

(** The whole map of [project]. *)
Example project_map :
  generate_map latin1_alnum (lit "/home/u/proj") project
  = join nl
      [folder_icon ++ lit " PROJECT_ROOT/";
       lit "    " ++ file_icon ++ lit " README.md";
       lit "    " ++ folder_icon ++ lit " src/";
       lit "        " ++ file_icon ++ lit " app.js  [Class: App, "
         ++ function_label (lit "main") ++ lit "]"].
Proof. vm_compute. reflexivity. Qed.

(** C8.  Pruning.  Every event of a run (a directory visited, a file
    opened for its signatures, a line of the map) belongs to a directory
    reached from the start directory through names that are not in
    [IGNORE_DIRS], such as [node_modules].  The run and the map it renders
    are those of the tree from which every ignored directory, with all it
    holds, has been deleted at every depth. *)
Theorem ignored_dirs_pruned (uni_alnum : char -> bool) (start_path : text)
        (tree : node) :
  let run :=
    run_trace uni_alnum IGNORE_DIRS IGNORE_FILES CODE_EXTENSIONS start_path in
  In (lit "node_modules") IGNORE_DIRS
  /\ (forall e name,
         In e (run tree) -> In name (event_rel e) -> ~ In name IGNORE_DIRS)
  /\ run (strip IGNORE_DIRS tree) = run tree
  /\ clean IGNORE_DIRS (strip IGNORE_DIRS tree)
  /\ generate_map uni_alnum start_path (strip IGNORE_DIRS tree)
     = generate_map uni_alnum start_path tree.
Proof.
  intros run. split; [left; reflexivity|]. split; [|split; [|split]].
  - intros e name He Hname.
    destruct (@walk_rel uni_alnum IGNORE_DIRS IGNORE_FILES CODE_EXTENSIONS
                start_path tree [] start_path e He)
      as [below [Hrel Hbelow]].
    rewrite Hrel in Hname. cbn [app] in Hname.
    rewrite Forall_forall in Hbelow. apply mem_not_In, Hbelow, Hname.
  - apply walk_strip.
  - apply clean_strip.
  - unfold generate_map, render, run_trace. rewrite walk_strip. reflexivity.
Qed.

(** *** The configuration sets are only asked for membership *)

Lemma mem_permutation (x : text) (a b : list text) :
  Permutation a b -> mem x a = mem x b.
Proof.
  intros H. destruct (mem x b) eqn:E.
  - apply mem_In. apply mem_In in E.
    apply (Permutation_in _ (Permutation_sym H)). exact E.
  - apply mem_not_In. apply mem_not_In in E. intros Hin. apply E.
    apply (Permutation_in _ H). exact Hin.
Qed.

Lemma walk_sets (uni_alnum : char -> bool) (start_path : text)
      (dirs1 files1 exts1 dirs2 files2 exts2 : list text) (n : node) :
  (forall x, mem x dirs1 = mem x dirs2) ->
  (forall x, mem x files1 = mem x files2) ->
  (forall x, mem x exts1 = mem x exts2) ->
  forall rel root,
    walk uni_alnum dirs1 files1 exts1 start_path rel root n
    = walk uni_alnum dirs2 files2 exts2 start_path rel root n.
Proof.
  intros Hd Hf He.
  induction n as [dirs files IH| |] using node_induction;
    intros rel root; cbn [walk]; try reflexivity.
  f_equal.
  - unfold root_events. do 2 f_equal. apply flat_map_ext. intros f.
    unfold file_events. rewrite Hf, He. reflexivity.
  - induction IH as [|[name child] dirs Hchild _ IHdirs]; [reflexivity|].
    cbn [flat_map]. rewrite Hd, IHdirs. cbn [snd] in Hchild.
    rewrite Hchild. reflexivity.
Qed.

(** C4.  Determinism.  A run is a function of what it looks at: the
    entries of every directory it walks, in the order they are enumerated,
    and the text of every file it scans.  Two runs started on the same path
    over file system states that agree on this (so, over one and the same
    state) render the same map, byte for byte; nothing else that may differ
    between two runs enters: the configuration sets are only asked for
    membership, so the order in which a run lays them out is immaterial. *)
Theorem same_state_same_map (uni_alnum : char -> bool) (start_path : text)
        (tree1 tree2 : node) (dirs_set files_set extensions_set : list text) :
  Permutation IGNORE_DIRS dirs_set ->
  Permutation IGNORE_FILES files_set ->
  Permutation CODE_EXTENSIONS extensions_set ->
  observed IGNORE_DIRS IGNORE_FILES CODE_EXTENSIONS tree1
  = observed IGNORE_DIRS IGNORE_FILES CODE_EXTENSIONS tree2 ->
  generate_map uni_alnum start_path tree1
  = render uni_alnum dirs_set files_set extensions_set start_path tree2.
Proof.
  intros Hd Hf He H. unfold generate_map, render, run_trace.
  rewrite <- (walk_observed uni_alnum IGNORE_DIRS IGNORE_FILES
                CODE_EXTENSIONS start_path tree1).
  rewrite H, walk_observed. f_equal. f_equal.
  apply walk_sets; intros x; apply mem_permutation; assumption.
Qed.

Lemma same_state_same_map_witness :
  generate_map latin1_alnum (lit "/home/u/proj") project
  = render latin1_alnum (rev IGNORE_DIRS) (rev IGNORE_FILES)
      (rev CODE_EXTENSIONS) (lit "/home/u/proj") project_again.
Proof.
  apply same_state_same_map; try apply Permutation_rev.
  vm_compute. reflexivity.
Defined.

(** The map follows the enumeration, which the code does not sort: one
    directory holding [a.txt] and [b.txt], enumerated in the two possible
    orders, is rendered as two different maps. *)
Example enumeration_order_shows :
  same_tree two_files_ab two_files_ba
  /\ text_eqb (generate_map latin1_alnum (lit "/w") two_files_ab)
       (generate_map latin1_alnum (lit "/w") two_files_ba) = false.
Proof.
  split.
  - apply same_listing with (dirs2' := []);
      [apply perm_swap | constructor | constructor].
  - vm_compute. reflexivity.
Qed.

End WalkFacts.

(* ===================================================================== *)
(** * Sorting                                                             *)
(* ===================================================================== *)

Module SortFacts.
Import Py.

Section Sort.
Variable A : Type.
Variable key : A -> Z.

Local Abbreviation insert_sorted := (Py.insert_sorted key).
Local Abbreviation stable_sort := (Py.stable_sort key).
Local Abbreviation sort_reverse := (Py.sort_reverse key).

Local Abbreviation ascending := (Py.ascending key).
Local Abbreviation descending := (Py.descending key).
Local Abbreviation has_key := (Py.has_key key).

Lemma insert_sorted_perm (x : A) (l : list A) :
  Permutation (insert_sorted x l) (x :: l).
Proof.
  induction l as [|y l IH]; cbn [Py.insert_sorted]; [reflexivity|].
  destruct (key y <? key x)%Z; [|reflexivity].
  rewrite IH. apply perm_swap.
Qed.

Lemma stable_sort_perm (l : list A) : Permutation (stable_sort l) l.
Proof.
  induction l as [|x l IH]; cbn [Py.stable_sort]; [reflexivity|].
  rewrite insert_sorted_perm, IH. reflexivity.
Qed.

Lemma insert_sorted_ascending (x : A) (l : list A) :
  StronglySorted ascending l -> StronglySorted ascending (insert_sorted x l).
Proof.
  induction 1 as [|y l Hl IH Hy]; cbn [Py.insert_sorted].
  - repeat constructor.
  - destruct (key y <? key x)%Z eqn:E.
    + constructor; [exact IH|].
      apply Z.ltb_lt in E.
      eapply Permutation_Forall;
        [symmetry; apply insert_sorted_perm|].
      constructor; [unfold Py.ascending; lia | exact Hy].
    + apply Z.ltb_ge in E.
      constructor; [constructor; assumption|].
      constructor; [exact E|].
      eapply Forall_impl; [|exact Hy].
      intros z Hz. unfold Py.ascending in *. lia.
Qed.

Lemma stable_sort_ascending (l : list A) :
  StronglySorted ascending (stable_sort l).
Proof.
  induction l as [|x l IH]; cbn [Py.stable_sort]; [constructor|].
  apply insert_sorted_ascending, IH.
Qed.

(** Insertion passes only over smaller keys, so it keeps the inserted
    element in front of its equals. *)
Lemma insert_sorted_stable (k : Z) (x : A) (l : list A) :
  filter (has_key k) (insert_sorted x l) = filter (has_key k) (x :: l).
Proof.
  induction l as [|y l IH]; cbn [Py.insert_sorted]; [reflexivity|].
  destruct (key y <? key x)%Z eqn:E; [|reflexivity].
  apply Z.ltb_lt in E. cbn [filter] in *. rewrite IH.
  unfold Py.has_key.
  destruct (key y =? k)%Z eqn:Ey, (key x =? k)%Z eqn:Ex; try reflexivity.
  apply Z.eqb_eq in Ex, Ey. lia.
Qed.

Lemma stable_sort_stable (k : Z) (l : list A) :
  filter (has_key k) (stable_sort l) = filter (has_key k) l.
Proof.
  induction l as [|x l IH]; cbn [Py.stable_sort]; [reflexivity|].
  rewrite insert_sorted_stable. cbn [filter]. rewrite IH. reflexivity.
Qed.

Lemma StronglySorted_app_single (R : A -> A -> Prop) (l : list A) (x : A) :
  StronglySorted R l -> Forall (fun y => R y x) l ->
  StronglySorted R (l ++ [x]).
Proof.
  induction 1 as [|y l Hl IH Hy]; intros Hx; cbn [app].
  - repeat constructor.
  - inversion Hx as [|? ? Hyx Hlx]; subst.
    constructor; [apply IH, Hlx|].
    apply Forall_app. split; [exact Hy | constructor; [exact Hyx|constructor]].
Qed.

Lemma StronglySorted_rev (R : A -> A -> Prop) (l : list A) :
  StronglySorted R l -> StronglySorted (fun a b => R b a) (rev l).
Proof.
  induction 1 as [|y l Hl IH Hy]; cbn [rev]; [constructor|].
  apply StronglySorted_app_single; [exact IH|].
  apply Forall_rev. exact Hy.
Qed.

(** [sort(reverse=True)] is a stable descending sort. *)
Lemma sort_reverse_perm (l : list A) : Permutation (sort_reverse l) l.
Proof.
  unfold Py.sort_reverse.
  rewrite <- Permutation_rev, stable_sort_perm, <- Permutation_rev.
  reflexivity.
Qed.

Lemma sort_reverse_descending (l : list A) :
  StronglySorted descending (sort_reverse l).
Proof.
  unfold Py.sort_reverse.
  apply (StronglySorted_rev (stable_sort_ascending (rev l))).
Qed.

Lemma sort_reverse_stable (k : Z) (l : list A) :
  filter (has_key k) (sort_reverse l) = filter (has_key k) l.
Proof.
  unfold Py.sort_reverse.
  rewrite filter_rev, stable_sort_stable, filter_rev, rev_involutive.
  reflexivity.
Qed.

End Sort.

(** Sorting records by a key sorts their keys. *)
Lemma map_insert_sorted (A : Type) (key : A -> Z) (x : A) (l : list A) :
  map key (insert_sorted key x l)
  = insert_sorted (fun n => n) (key x) (map key l).
Proof.
  induction l as [|y l IH]; cbn [insert_sorted map]; [reflexivity|].
  destruct (key y <? key x)%Z; cbn [map]; [rewrite IH|]; reflexivity.
Qed.

Lemma map_stable_sort (A : Type) (key : A -> Z) (l : list A) :
  map key (stable_sort key l) = stable_sort (fun n => n) (map key l).
Proof.
  induction l as [|x l IH]; cbn [stable_sort map]; [reflexivity|].
  rewrite map_insert_sorted, IH. reflexivity.
Qed.

Lemma map_sort_reverse (A : Type) (key : A -> Z) (l : list A) :
  map key (sort_reverse key l) = sort_reverse (fun n => n) (map key l).
Proof.
  unfold sort_reverse. rewrite map_rev, map_stable_sort, map_rev.
  reflexivity.
Qed.

End SortFacts.

(* ===================================================================== *)
(** * The lint report                                                     *)
(* ===================================================================== *)

Module ScanFacts.
Import Py Scan PyFacts SortFacts.

(** ** Effects on the trace and on the log *)

Lemma trace_emit (ev : io) (st : state) : trace (emit ev st) = trace st ++ [ev].
Proof. reflexivity. Qed.

Lemma trace_print (line : text) (st : state) :
  trace (print line st) = trace st ++ [Out line].
Proof. reflexivity. Qed.

Lemma trace_write_log (e : env) (content : text) (mode : open_mode)
      (st : state) :
  trace (write_log e content mode st)
  = trace st ++ Log content mode :: critical_note e.
Proof.
  unfold write_log, critical_note. destruct (open_log e); cbn.
  - rewrite <- app_assoc. reflexivity.
  - reflexivity.
Qed.

Lemma logfile_emit (ev : io) (st : state) : logfile (emit ev st) = logfile st.
Proof. reflexivity. Qed.

Lemma logfile_print (line : text) (st : state) :
  logfile (print line st) = logfile st.
Proof. reflexivity. Qed.

Lemma logfile_write_w (e : env) (content : text) (st : state) :
  open_log e = None -> logfile (write_log e content ModeW st) = Some content.
Proof. intros H. unfold write_log. rewrite H. reflexivity. Qed.

Lemma logfile_write_a (e : env) (content old : text) (st : state) :
  open_log e = None -> logfile st = Some old ->
  logfile (write_log e content ModeA st) = Some (old ++ content).
Proof. intros H Hold. unfold write_log. rewrite H. cbn. rewrite Hold. reflexivity. Qed.

Create Rewrite HintDb trace_db.
#[local] Hint Rewrite trace_emit trace_print trace_write_log : trace_db.

(** ** From [main] to [analyze] *)

Lemma main_analyze (e : env) (st : state) (cwd : text) (result : completed) :
  getcwd e = Ok cwd ->
  subprocess_run e (lint_command e) = Ok result ->
  main e st = settle e (analyze e result (reach_analysis e cwd result st)).
Proof.
  intros Hcwd Hrun. unfold main, try_block, bind, lift, effect.
  rewrite Hcwd, Hrun. reflexivity.
Qed.

Lemma logfile_reach_analysis (e : env) (st : state) (cwd : text)
      (result : completed) :
  open_log e = None ->
  logfile (reach_analysis e cwd result st)
  = Some ((lit "--- ESLINT DEBUG REPORT ---" ++ nl)
            ++ (lit "Generated: " ++ clock e ++ nl)
            ++ (lit "---------------------------" ++ nl ++ nl)
            ++ (lit "Run Location: " ++ cwd ++ nl)
            ++ (lit "Command: " ++ lint_command e ++ nl ++ nl)).
Proof.
  intros H. unfold reach_analysis, initialize_log.
  rewrite logfile_print, logfile_emit.
  erewrite logfile_write_a; [|exact H|].
  2: { rewrite logfile_print. erewrite logfile_write_a; [|exact H|].
       2: { rewrite logfile_print. erewrite logfile_write_a; [|exact H|].
            2: { erewrite logfile_write_a; [|exact H|].
                 2: { apply logfile_write_w. exact H. }
                 reflexivity. }
            reflexivity. }
       reflexivity. }
  rewrite <- !app_assoc. reflexivity.
Qed.

Lemma trace_reach_analysis (e : env) (st : state) (cwd : text)
      (result : completed) :
  exists evs,
    trace (reach_analysis e cwd result st) = trace st ++ evs
    /\ existsb is_loads evs = false.
Proof.
  unfold reach_analysis, initialize_log. autorewrite with trace_db.
  rewrite <- !app_assoc. eexists. split; [reflexivity|].
  unfold critical_note. destruct (open_log e); reflexivity.
Qed.

Lemma try_block_analyze (e : env) (st : state) (cwd : text)
      (result : completed) :
  getcwd e = Ok cwd ->
  subprocess_run e (lint_command e) = Ok result ->
  try_block e (initialize_log e st)
  = analyze e result (reach_analysis e cwd result st).
Proof.
  intros Hcwd Hrun. unfold try_block, bind, lift, effect.
  rewrite Hcwd, Hrun. reflexivity.
Qed.

(** [analyze], once it has dealt with standard error. *)
Lemma analyze_unfold (e : env) (result : completed) (st : state) :
  analyze e result st
  = (if length (stdout result) =? 0 then
       effect (print (cross
                        ++ lit " STDOUT is empty. ESLint produced no output.")) ;;
       effect (write_log e EMPTY_OUTPUT_LINE ModeA)
     else
       effect (print (puzzle ++ lit " Parsing JSON...")) ;;
       effect (emit (Loads (stdout result))) ;;
       match json_loads e (stdout result) with
       | JSONDecodeError =>
           effect (print (cross ++ lit " JSON Decode Failed.")) ;;
           effect (write_log e INVALID_JSON_LINE ModeA) ;;
           effect (write_log e (raw_excerpt (stdout result)) ModeA)
       | LoadsRaised message => lift (Raise (Raised message))
       | Parsed data =>
           files <- lift (problem_files data) ;;
           write_results e files
       end) (stderr_noted e result st).
Proof.
  unfold analyze, stderr_noted. unfold bind at 1 2. unfold effect at 1.
  destruct (0 <? length (stderr result)); reflexivity.
Qed.

Lemma trace_stderr_noted (e : env) (result : completed) (st : state) :
  exists evs,
    trace (stderr_noted e result st) = trace st ++ evs
    /\ existsb is_loads evs = false.
Proof.
  unfold stderr_noted. destruct (0 <? length (stderr result));
    autorewrite with trace_db; rewrite <- ?app_assoc;
    (eexists; split; [reflexivity|]).
  - unfold critical_note. destruct (open_log e); reflexivity.
  - reflexivity.
Qed.

Lemma logfile_stderr_noted (e : env) (result : completed) (st : state)
      (old : text) :
  open_log e = None -> logfile st = Some old ->
  logfile (stderr_noted e result st)
  = Some (old ++ (if 0 <? length (stderr result)
                  then lit "--- STDERR (Errors from ESLint) ---" ++ nl
                         ++ stderr result ++ nl ++ nl
                  else [])).
Proof.
  intros Hopen Hold. unfold stderr_noted.
  destruct (0 <? length (stderr result)).
  - apply logfile_write_a; [exact Hopen|]. rewrite !logfile_print. exact Hold.
  - rewrite logfile_print, app_nil_r. exact Hold.
Qed.

Lemma logfile_preamble (e : env) (st : state) (cwd : text)
      (result : completed) :
  open_log e = None ->
  logfile (stderr_noted e result (reach_analysis e cwd result st))
  = Some (log_preamble e cwd result).
Proof.
  intros Hopen.
  erewrite logfile_stderr_noted;
    [|exact Hopen|apply logfile_reach_analysis; exact Hopen].
  unfold log_preamble. rewrite <- !app_assoc. reflexivity.
Qed.

Lemma trace_preamble (e : env) (st : state) (cwd : text)
      (result : completed) :
  exists evs,
    trace (stderr_noted e result (reach_analysis e cwd result st))
    = trace st ++ evs
    /\ existsb is_loads evs = false.
Proof.
  destruct (trace_stderr_noted e result (reach_analysis e cwd result st))
    as [evs1 [H1 N1]].
  destruct (trace_reach_analysis e st cwd result) as [evs0 [H0 N0]].
  exists (evs0 ++ evs1). rewrite H1, H0, app_assoc. split; [reflexivity|].
  rewrite existsb_app, N0, N1. reflexivity.
Qed.

(** C6.  Empty output.  When the subprocess returns with an empty
    standard output, the [try] block ends normally and the last things
    [main] does are to print the empty-output message and to call
    [write_log] with the empty-output line.  The run never calls
    [json.loads], does not depend on what the decoder would answer, and,
    when the log can be written, leaves in it the preamble followed by that
    line and nothing else. *)
Theorem empty_output_reported (e : env) (st : state) (cwd : text)
        (result : completed) :
  getcwd e = Ok cwd ->
  subprocess_run e (lint_command e) = Ok result ->
  length (stdout result) = 0 ->
  let st1 := stderr_noted e result (reach_analysis e cwd result st) in
  try_block e (initialize_log e st) = (Ok tt, main e st)
  /\ main e st
     = write_log e EMPTY_OUTPUT_LINE ModeA
         (print (cross ++ lit " STDOUT is empty. ESLint produced no output.")
            st1)
  /\ (exists evs,
         trace (main e st) = trace st ++ evs /\ existsb is_loads evs = false)
  /\ (forall decoder, main (with_json_loads e decoder) st = main e st)
  /\ (open_log e = None ->
      logfile (main e st)
      = Some (log_preamble e cwd result ++ EMPTY_OUTPUT_LINE)).
Proof.
  intros Hcwd Hrun Hlen st1.
  assert (Htry : forall e', getcwd e' = Ok cwd ->
            subprocess_run e' (lint_command e') = Ok result ->
            try_block e' (initialize_log e' st)
            = (Ok tt,
               write_log e' EMPTY_OUTPUT_LINE ModeA
                 (print (cross
                           ++ lit " STDOUT is empty. ESLint produced no output.")
                    (stderr_noted e' result
                       (reach_analysis e' cwd result st))))).
  { intros e' Hcwd' Hrun'.
    rewrite (try_block_analyze e' st Hcwd' Hrun'), analyze_unfold, Hlen.
    reflexivity. }
  assert (Hm : main e st
               = write_log e EMPTY_OUTPUT_LINE ModeA
                   (print (cross
                             ++ lit " STDOUT is empty. ESLint produced no output.")
                      st1)).
  { unfold main. rewrite (Htry e Hcwd Hrun). reflexivity. }
  split; [rewrite Hm; apply Htry; assumption|].
  split; [exact Hm|]. split; [|split].
  - destruct (trace_preamble e st cwd result) as [evs [Htr Hno]].
    rewrite Hm. autorewrite with trace_db. fold st1 in Htr. rewrite Htr.
    rewrite <- !app_assoc. eexists. split; [reflexivity|].
    rewrite !existsb_app, Hno.
    unfold critical_note. destruct (open_log e); reflexivity.
  - intros decoder. unfold main at 1.
    rewrite (Htry (with_json_loads e decoder) Hcwd Hrun). rewrite Hm.
    reflexivity.
  - intros Hopen. rewrite Hm.
    apply logfile_write_a; [exact Hopen|].
    rewrite logfile_print. apply logfile_preamble. exact Hopen.
Qed.

(** C7.  Malformed output.  When the subprocess returns a non-empty
    standard output on which [json.loads] raises [JSONDecodeError], the
    [try] block ends normally (the handler of the outer [try] is not
    entered) and the last things [main] does are to call [write_log] with
    the invalid-JSON line and then with the excerpt, which holds the first
    500 characters of the output as they are.  When the log can be written
    it holds the preamble, those two records and nothing else: no file is
    reported. *)
Theorem malformed_output_reported (e : env) (st : state) (cwd : text)
        (result : completed) :
  getcwd e = Ok cwd ->
  subprocess_run e (lint_command e) = Ok result ->
  stdout result <> [] ->
  json_loads e (stdout result) = JSONDecodeError ->
  let st1 := stderr_noted e result (reach_analysis e cwd result st) in
  try_block e (initialize_log e st) = (Ok tt, main e st)
  /\ main e st
     = write_log e (raw_excerpt (stdout result)) ModeA
         (write_log e INVALID_JSON_LINE ModeA
            (print (cross ++ lit " JSON Decode Failed.")
               (emit (Loads (stdout result))
                  (print (puzzle ++ lit " Parsing JSON...") st1))))
  /\ raw_excerpt (stdout result)
     = lit "First 500 chars of raw output:" ++ nl
         ++ firstn 500 (stdout result) ++ nl
  /\ (open_log e = None ->
      logfile (main e st)
      = Some (log_preamble e cwd result ++ INVALID_JSON_LINE
                ++ raw_excerpt (stdout result))).
Proof.
  intros Hcwd Hrun Hout Hbad st1.
  assert (Hlen : (length (stdout result) =? 0) = false).
  { apply Nat.eqb_neq. destruct (stdout result); [congruence|discriminate]. }
  assert (Htry : try_block e (initialize_log e st)
                 = (Ok tt,
                    write_log e (raw_excerpt (stdout result)) ModeA
                      (write_log e INVALID_JSON_LINE ModeA
                         (print (cross ++ lit " JSON Decode Failed.")
                            (emit (Loads (stdout result))
                               (print (puzzle ++ lit " Parsing JSON...")
                                  st1)))))).
  { rewrite (try_block_analyze e st Hcwd Hrun), analyze_unfold, Hlen, Hbad.
    reflexivity. }
  assert (Hm : main e st
               = write_log e (raw_excerpt (stdout result)) ModeA
                   (write_log e INVALID_JSON_LINE ModeA
                      (print (cross ++ lit " JSON Decode Failed.")
                         (emit (Loads (stdout result))
                            (print (puzzle ++ lit " Parsing JSON...") st1))))).
  { unfold main. rewrite Htry. reflexivity. }
  split; [rewrite Hm; exact Htry|]. split; [exact Hm|].
  split; [reflexivity|].
  intros Hopen. rewrite Hm.
  erewrite logfile_write_a; [|exact Hopen|].
  2: { apply logfile_write_a; [exact Hopen|].
       rewrite logfile_print, logfile_emit, logfile_print.
       apply logfile_preamble. exact Hopen. }
  rewrite <- !app_assoc. reflexivity.
Qed.

(** ** The records that are reported *)

Lemma error_count_key_of (item : json) (n : Z) :
  has_error_count item n -> error_count_key item = n.
Proof.
  intros [members [-> H]]. unfold error_count_key, subscript.
  rewrite H. reflexivity.
Qed.

Lemma map_error_count_key (items : list json) (counts : list Z) :
  Forall2 has_error_count items counts ->
  map error_count_key items = counts.
Proof.
  induction 1 as [|item n items counts H _ IH]; [reflexivity|].
  cbn [map]. rewrite (error_count_key_of H), IH. reflexivity.
Qed.

(** On records the list comprehension is a plain filter. *)
Lemma keep_problem_files_records (items : list json) (counts : list Z) :
  Forall2 has_error_count items counts ->
  keep_problem_files items
  = Ok (filter (fun item => (0 <? error_count_key item)%Z) items).
Proof.
  induction 1 as [|item n items counts H _ IH]; [reflexivity|].
  cbn [keep_problem_files filter]. rewrite (error_count_key_of H).
  destruct H as [members [-> H]]. unfold subscript. rewrite H.
  cbn [gt_zero]. rewrite IH. reflexivity.
Qed.

Lemma problem_files_records (items : list json) (counts : list Z) :
  Forall2 has_error_count items counts ->
  exists files,
    problem_files (JArr items) = Ok files
    /\ Permutation files
         (filter (fun item => (0 <? error_count_key item)%Z) items).
Proof.
  intros Hrec. eexists. split.
  - unfold problem_files. cbn [iterate].
    rewrite (keep_problem_files_records Hrec). reflexivity.
  - apply sort_reverse_perm.
Qed.


(** ** Missing fields *)

Lemma entry_ok_has_count (item : json) :
  entry_ok item -> exists n, has_error_count item n.
Proof.
  intros [members [-> [[n Hn] _]]]. exists n, members. split; [reflexivity|exact Hn].
Qed.

Lemma entries_have_counts (items : list json) :
  Forall entry_ok items -> exists counts, Forall2 has_error_count items counts.
Proof.
  induction 1 as [|item items H _ [counts IH]].
  - exists []. constructor.
  - destruct (entry_ok_has_count H) as [n Hn].
    exists (n :: counts). constructor; assumption.
Qed.

(** The comprehension stops at the first record without an error count. *)
Lemma keep_problem_files_missing (good rest : list json)
      (members : list (text * json)) :
  Forall entry_ok good ->
  lookup (lit "errorCount") members = None ->
  keep_problem_files (good ++ JObj members :: rest)
  = Raise (KeyError (lit "errorCount")).
Proof.
  intros Hgood Hmiss. induction Hgood as [|item good H _ IH].
  - cbn [app keep_problem_files subscript]. rewrite Hmiss. reflexivity.
  - destruct (entry_ok_has_count H) as [n [m [-> Hn]]].
    cbn [app keep_problem_files subscript]. rewrite Hn. cbn [gt_zero].
    rewrite IH. reflexivity.
Qed.

Lemma report_message_defaults (e : env) (members : list (text * json))
      (st : state) :
  message_ok (JObj members) ->
  exists line rule text_,
    report_message e (JObj members) st
    = (Ok tt, write_log e (message_line e line rule text_) ModeA st)
    /\ (lookup (lit "line") members = None -> py_str e line = lit "0")
    /\ (lookup (lit "ruleId") members = None -> py_str e rule = lit "unknown")
    /\ (lookup (lit "message") members = None -> text_ = []).
Proof.
  intros [m [Hm Hmsg]]. injection Hm as <-.
  unfold report_message, bind, lift, effect, get.
  destruct (lookup (lit "line") members) as [line|] eqn:Hline;
  destruct (lookup (lit "ruleId") members) as [rule|] eqn:Hrule;
  destruct (lookup (lit "message") members) as [message|] eqn:Hmessage;
    try (destruct (Hmsg message eq_refl) as [s ->]);
    cbn [replace_newlines];
    do 3 eexists; (split; [reflexivity|]);
    repeat split; intros; try discriminate; reflexivity.
Qed.

Lemma report_message_ok (e : env) (msg : json) (st : state) :
  message_ok msg -> exists st', report_message e msg st = (Ok tt, st').
Proof.
  intros H. pose proof H as [members [-> _]].
  destruct (report_message_defaults e st H) as [l [r [t [Heq _]]]].
  eexists. exact Heq.
Qed.

Lemma for_each_ok (A : Type) (body : A -> M unit) (P : A -> Prop)
      (l : list A) :
  (forall x st, P x -> exists st', body x st = (Ok tt, st')) ->
  Forall P l ->
  forall st, exists st', for_each body l st = (Ok tt, st').
Proof.
  intros Hbody. induction 1 as [|x l Hx _ IH]; intros st.
  - eexists. reflexivity.
  - cbn [for_each]. unfold bind.
    destruct (Hbody x st Hx) as [st1 ->].
    destruct (IH st1) as [st2 ->]. eexists. reflexivity.
Qed.

Lemma report_entry_ok (e : env) (item : json) (st : state) :
  entry_ok item -> exists st', report_entry e item st = (Ok tt, st').
Proof.
  intros [members [-> [[n Hn] Hmsgs]]].
  unfold report_entry. unfold bind at 1 2 3 4 5. unfold lift, effect, get, subscript.
  rewrite Hn.
  assert (Hloop : forall st0 msgs, Forall message_ok msgs ->
            exists st', for_each (report_message e) msgs st0 = (Ok tt, st')).
  { intros st0 msgs Hall.
    apply (@for_each_ok _ (report_message e) message_ok msgs); [|exact Hall].
    intros x st1 Hx. apply report_message_ok. exact Hx. }
  destruct (lookup (lit "filePath") members);
    (destruct (lookup (lit "messages") members) as [v|] eqn:Hv;
     [destruct (Hmsgs v eq_refl) as [msgs [-> Hall]]; cbn [iterate];
      apply Hloop; exact Hall
     |cbn [iterate for_each]; eexists; reflexivity]).
Qed.

Lemma write_results_ok (e : env) (files : list json) (st : state) :
  Forall entry_ok files ->
  exists st',
    write_results e files st
    = (Ok tt, print (check_mark ++ lit " DONE. Check logs.txt now.") st').
Proof.
  intros Hall. unfold write_results. unfold bind at 1 2. unfold effect at 1 2.
  unfold bind.
  match goal with
  | |- context [for_each (report_entry e) files ?s] =>
      destruct (@for_each_ok _ (report_entry e) entry_ok files
                  (fun x st0 Hx => report_entry_ok e st0 Hx) Hall s)
        as [st1 ->]
  end.
  exists st1. reflexivity.
Qed.

(** C10.  Defaults.  In a run that decodes the output to a list of
    records:
    - a message without [line], [ruleId] or [message] is written with 0,
      [unknown] and the empty text in their places;
    - a record without [filePath] gets a banner that shows [unknown]
      (given that [os.path.relpath] leaves that bare name as it is);
    - if every record has its error count, the [try] block ends normally
      and [main] ends on the closing message, whichever of the other fields
      are missing;
    - but the first record without [errorCount] makes the list
      comprehension raise [KeyError]: [main] goes from the decoding straight
      to the handler of the outer [try], which logs the key in quotes. *)
Theorem missing_fields_default (e : env) (st : state) (cwd : text)
        (result : completed) (items : list json) :
  getcwd e = Ok cwd ->
  subprocess_run e (lint_command e) = Ok result ->
  stdout result <> [] ->
  json_loads e (stdout result) = Parsed (JArr items) ->
  relpath e (lit "unknown") = None
  \/ relpath e (lit "unknown") = Some (lit "unknown") ->
  let decoded :=
    emit (Loads (stdout result))
      (print (puzzle ++ lit " Parsing JSON...")
         (stderr_noted e result (reach_analysis e cwd result st))) in
  (forall members st',
      message_ok (JObj members) ->
      exists line rule text_,
        report_message e (JObj members) st'
        = (Ok tt, write_log e (message_line e line rule text_) ModeA st')
        /\ (lookup (lit "line") members = None -> py_str e line = lit "0")
        /\ (lookup (lit "ruleId") members = None ->
            py_str e rule = lit "unknown")
        /\ (lookup (lit "message") members = None -> text_ = []))
  /\ (forall members count st',
         lookup (lit "filePath") members = None ->
         lookup (lit "errorCount") members = Some count ->
         report_entry e (JObj members) st'
         = (messages <- lift (get (JObj members) (lit "messages") (JArr [])) ;;
            msgs <- lift (iterate messages) ;;
            for_each (report_message e) msgs)
             (write_log e (banner e (JStr (lit "unknown")) count) ModeA st')
         /\ banner e (JStr (lit "unknown")) count
            = nl ++ times (lit "=") 40 ++ nl
                ++ page ++ lit " " ++ lit "unknown"
                ++ lit " (" ++ py_str e count ++ lit " errors)" ++ nl
                ++ times (lit "=") 40 ++ nl)
  /\ (Forall entry_ok items ->
      try_block e (initialize_log e st) = (Ok tt, main e st)
      /\ exists st',
           main e st
           = print (check_mark ++ lit " DONE. Check logs.txt now.") st')
  /\ (forall good members rest,
         items = good ++ JObj members :: rest ->
         Forall entry_ok good ->
         lookup (lit "errorCount") members = None ->
         main e st = crash_handler e (KeyError (lit "errorCount")) decoded
         /\ crash_line e (KeyError (lit "errorCount"))
            = nl ++ fire ++ lit " CRITICAL SCRIPT CRASH: 'errorCount'" ++ nl).
Proof.
  intros Hcwd Hrun Hout Hparsed Hrel decoded.
  assert (Hlen : (length (stdout result) =? 0) = false).
  { apply Nat.eqb_neq. destruct (stdout result); [congruence|discriminate]. }
  assert (Htry : try_block e (initialize_log e st)
                 = (fs <- lift (problem_files (JArr items)) ;;
                    write_results e fs) decoded).
  { rewrite (try_block_analyze e st Hcwd Hrun), analyze_unfold, Hlen, Hparsed.
    reflexivity. }
  split; [|split; [|split]].
  - intros members st' Hok. apply report_message_defaults. exact Hok.
  - intros members count st' Hpath Hcount. split; [|reflexivity].
    unfold report_entry. unfold bind at 1 2 3. unfold lift at 1 2.
    unfold effect. unfold get at 1. rewrite Hpath.
    unfold subscript. rewrite Hcount.
    assert (Hsame : try_relpath e (JStr (lit "unknown")) = JStr (lit "unknown")).
    { unfold try_relpath. destruct Hrel as [-> | ->]; reflexivity. }
    rewrite Hsame. reflexivity.
  - intros Hall.
    destruct (entries_have_counts Hall) as [counts Hcounts].
    destruct (problem_files_records Hcounts) as [files [Hpf Hperm]].
    assert (Hfiles : Forall entry_ok files).
    { apply Forall_forall. intros item Hin.
      apply (Permutation_in _ Hperm) in Hin. apply filter_In in Hin.
      rewrite Forall_forall in Hall. apply Hall, Hin. }
    destruct (write_results_ok e decoded Hfiles) as [st' Hwr].
    assert (Htry' : try_block e (initialize_log e st)
                    = (Ok tt,
                       print (check_mark ++ lit " DONE. Check logs.txt now.")
                         st')).
    { rewrite Htry. unfold bind at 1. unfold lift. rewrite Hpf. exact Hwr. }
    assert (Hm : main e st
                 = print (check_mark ++ lit " DONE. Check logs.txt now.") st').
    { unfold main. rewrite Htry'. reflexivity. }
    split; [rewrite Hm; exact Htry' | exists st'; exact Hm].
  - intros good members rest -> Hgood Hmiss. split; [|reflexivity].
    unfold main. rewrite Htry. unfold bind, lift, problem_files.
    cbn [iterate].
    rewrite (@keep_problem_files_missing good rest members Hgood Hmiss).
    reflexivity.
Qed.

(** ** The statements in the sample world *)

Import Sample.

Example four_records_decoded : sample_loads four_records = Parsed (JArr four_items).
Proof. vm_compute. reflexivity. Qed.

Example not_json_rejected : sample_loads (lit "not json") = JSONDecodeError.
Proof. vm_compute. reflexivity. Qed.

(** The whole log of a run over [four_records]. *)
Example four_records_log :
  logfile (main (world 1 four_records []) fresh)
  = Some
      (lit "--- ESLINT DEBUG REPORT ---" ++ nl
         ++ lit "Generated: 12:00:00" ++ nl
         ++ lit "---------------------------" ++ nl ++ nl
         ++ lit "Run Location: /work" ++ nl
         ++ lit "Command: npx eslint . --quiet --format=json" ++ nl ++ nl
         ++ lit "Found 3 files with errors." ++ nl
         ++ nl ++ lit "========================================" ++ nl
         ++ page ++ lit " lib/c.js (7 errors)" ++ nl
         ++ lit "========================================" ++ nl
         ++ nl ++ lit "========================================" ++ nl
         ++ page ++ lit " a.js (3 errors)" ++ nl
         ++ lit "========================================" ++ nl
         ++ lit "  " ++ cross ++ lit " Line 1: [no-undef] x is not defined" ++ nl
         ++ nl ++ lit "========================================" ++ nl
         ++ page ++ lit " unknown (1 errors)" ++ nl
         ++ lit "========================================" ++ nl
         ++ lit "  " ++ cross ++ lit " Line 0: [unknown] " ++ nl).
Proof. vm_compute. reflexivity. Qed.

(** The log of a run in which the second record has no error count: the
    handler's line follows the preamble, and no file is reported. *)
Example count_missing_log :
  logfile (main (world 1 count_missing []) fresh)
  = Some
      (lit "--- ESLINT DEBUG REPORT ---" ++ nl
         ++ lit "Generated: 12:00:00" ++ nl
         ++ lit "---------------------------" ++ nl ++ nl
         ++ lit "Run Location: /work" ++ nl
         ++ lit "Command: npx eslint . --quiet --format=json" ++ nl ++ nl
         ++ nl ++ fire ++ lit " CRITICAL SCRIPT CRASH: 'errorCount'" ++ nl).
Proof. vm_compute. reflexivity. Qed.

(** On POSIX, [os.path.relpath] returns a bare name as it is, whatever
    the working directory. *)
Lemma split_slash_app (a b current : text) :
  split_slash (a ++ 47%N :: b) current
  = split_slash a current ++ split_slash b [].
Proof.
  revert current. induction a as [|c a IH]; intros current; cbn.
  - reflexivity.
  - unfold char_eqb. destruct (c =? 47)%N; cbn; rewrite IH; reflexivity.
Qed.

Lemma common_prefix_app (a b : list text) :
  common_prefix a (a ++ b) = length a.
Proof.
  induction a as [|x a IH]; [destruct b; reflexivity|].
  cbn. rewrite text_eqb_refl, IH. reflexivity.
Qed.

Lemma posix_relpath_bare_name (cwd : text) :
  posix_relpath cwd (lit "unknown") = Some (lit "unknown").
Proof.
  unfold posix_relpath.
  change (match lit "unknown" with [] => None | _ :: _ => ?x end) with x.
  unfold abs_components.
  change (startswith (lit "/") (lit ".")) with false.
  change (startswith (lit "/") (lit "unknown")) with false.
  cbv iota. unfold normal_components.
  change (cwd ++ lit "/" ++ lit ".") with (cwd ++ 47%N :: lit ".").
  change (cwd ++ lit "/" ++ lit "unknown") with (cwd ++ 47%N :: lit "unknown").
  rewrite !split_slash_app, !fold_left_app.
  set (base := fold_left _ (split_slash cwd []) []).
  change (fold_left _ (split_slash (lit ".") []) base) with base.
  change (fold_left _ (split_slash (lit "unknown") []) base)
    with (base ++ [lit "unknown"]).
  rewrite common_prefix_app, Nat.sub_diag, skipn_app, Nat.sub_diag.
  rewrite skipn_all. reflexivity.
Qed.

Lemma four_items_counts :
  Forall2 has_error_count four_items [3; 0; 7; 1]%Z.
Proof.
  repeat constructor; eexists; (split; [reflexivity|]); reflexivity.
Qed.

Ltac prove_message_ok :=
  eexists; split; [reflexivity|];
  intros v Hv; vm_compute in Hv;
  first [discriminate Hv | injection Hv as <-; eexists; reflexivity].

Ltac prove_entry_ok :=
  eexists; split; [reflexivity|];
  split; [eexists; reflexivity|];
  intros v Hv; vm_compute in Hv;
  first [ discriminate Hv
        | injection Hv as <-; eexists; split;
          [reflexivity | repeat constructor; prove_message_ok] ].

Lemma four_items_ok : Forall entry_ok four_items.
Proof. repeat constructor; prove_entry_ok. Qed.


Lemma empty_output_reported_witness :
  logfile (main (world 127 [] (lit "npx: not found")) fresh)
  = Some
      (log_preamble (world 127 [] (lit "npx: not found")) (lit "/work")
         {| returncode := 127; stdout := []; stderr := lit "npx: not found" |}
         ++ EMPTY_OUTPUT_LINE).
Proof.
  apply (@empty_output_reported (world 127 [] (lit "npx: not found")) fresh
           (lit "/work")
           {| returncode := 127; stdout := [];
              stderr := lit "npx: not found" |});
    reflexivity.
Defined.

Lemma malformed_output_reported_witness :
  logfile (main (world 2 (lit "not json") []) fresh)
  = Some
      (log_preamble (world 2 (lit "not json") []) (lit "/work")
         {| returncode := 2; stdout := lit "not json"; stderr := [] |}
         ++ INVALID_JSON_LINE
         ++ lit "First 500 chars of raw output:" ++ nl ++ lit "not json" ++ nl).
Proof.
  apply (@malformed_output_reported (world 2 (lit "not json") []) fresh
           (lit "/work")
           {| returncode := 2; stdout := lit "not json"; stderr := [] |});
    first [reflexivity | discriminate].
Defined.

Lemma missing_fields_default_witness :
  exists st',
    main (world 1 four_records []) fresh
    = print (check_mark ++ lit " DONE. Check logs.txt now.") st'.
Proof.
  refine (proj2 (proj1 (proj2 (proj2
            (@missing_fields_default (world 1 four_records []) fresh
               (lit "/work")
               {| returncode := 1; stdout := four_records; stderr := [] |}
               four_items _ _ _ _ _))) _)).
  - reflexivity.
  - reflexivity.
  - discriminate.
  - exact four_records_decoded.
  - right. apply posix_relpath_bare_name.
  - exact four_items_ok.
Defined.

End ScanFacts.

(* ===================================================================== *)
(** * Counting characters                                                 *)
(* ===================================================================== *)

Module TextFacts.
Import Py.

Lemma count_char_app (c : char) (a b : text) :
  count_char c (a ++ b) = count_char c a + count_char c b.
Proof. unfold count_char. rewrite filter_app, length_app. reflexivity. Qed.

End TextFacts.

(* ===================================================================== *)
(** * Every label names a declaration                                     *)
(* ===================================================================== *)

Module ShapeFacts.
Import Py Re Aa Shape PyFacts ReFacts AaFacts.

(** ** What each construct of a pattern consumed *)

Lemma firstn_consumed (A : Type) (a b : list A) :
  firstn (length (a ++ b) - length b) (a ++ b) = a.
Proof.
  rewrite length_app, Nat.add_sub, firstn_app, Nat.sub_diag, firstn_all.
  cbn. apply app_nil_r.
Qed.

Lemma exec_chr_some (c : char) (s : text) (g : option text)
      (k : text -> option text -> option hit) (h : hit) :
  exec (Chr c) s g k = Some h ->
  exists rest, s = c :: rest /\ k rest g = Some h.
Proof.
  cbn [exec]. destruct s as [|x s]; [discriminate|].
  unfold char_eqb. destruct (N.eqb_spec x c) as [->|_]; [|discriminate].
  intros H. exists s. auto.
Qed.

Lemma exec_word_some (w s : text) (g : option text)
      (k : text -> option text -> option hit) (h : hit) :
  w <> [] -> exec (word w) s g k = Some h ->
  exists rest, s = w ++ rest /\ k rest g = Some h.
Proof.
  intros Hw. rewrite exec_word by exact Hw.
  destruct (startswith w s) eqn:E; [|discriminate].
  intros H. exists (skipn (length w) s). split; [|exact H].
  apply startswith_app, E.
Qed.

Lemma exec_star_some (p : char -> bool) (s : text) (g : option text)
      (k : text -> option text -> option hit) (h : hit) :
  exec (Star p) s g k = Some h ->
  exists taken rest,
    s = taken ++ rest /\ forallb p taken = true /\ k rest g = Some h.
Proof. cbn [exec]. apply star_greedy_some. Qed.

Lemma exec_plus_some (p : char -> bool) (s : text) (g : option text)
      (k : text -> option text -> option hit) (h : hit) :
  exec (Plus p) s g k = Some h ->
  exists taken rest,
    s = taken ++ rest /\ taken <> [] /\ forallb p taken = true
    /\ k rest g = Some h.
Proof.
  rewrite exec_plus. destruct s as [|x s]; [discriminate|].
  destruct (p x) eqn:Hx; [|discriminate].
  intros H. apply star_greedy_some in H.
  destruct H as [taken [rest [-> [Hall Hk]]]].
  exists (x :: taken), rest. repeat split.
  - discriminate.
  - cbn. rewrite Hx. exact Hall.
  - exact Hk.
Qed.

Lemma star_lazy_some (p : char -> bool) (s : text) (k : text -> option hit)
      (h : hit) :
  star_lazy p s k = Some h ->
  exists taken rest,
    s = taken ++ rest /\ forallb p taken = true /\ k rest = Some h.
Proof.
  induction s as [|c s IH]; cbn [star_lazy].
  - destruct (k []) eqn:E; [|discriminate].
    intros H. exists [], []. rewrite E. auto.
  - destruct (k (c :: s)) eqn:E.
    + intros H. exists [], (c :: s). rewrite E. auto.
    + destruct (p c) eqn:Hc; [|discriminate].
      intros H. destruct (IH H) as [taken [rest [-> [Hall Hk]]]].
      exists (c :: taken), rest. cbn. rewrite Hc. auto.
Qed.

Lemma exec_lazy_some (p : char -> bool) (s : text) (g : option text)
      (k : text -> option text -> option hit) (h : hit) :
  exec (LazyStar p) s g k = Some h ->
  exists taken rest,
    s = taken ++ rest /\ forallb p taken = true /\ k rest g = Some h.
Proof. cbn [exec]. apply star_lazy_some. Qed.

Lemma exec_opt_some (r : re) (s : text) (g : option text)
      (k : text -> option text -> option hit) (h : hit) :
  exec (Opt r) s g k = Some h ->
  exec r s g k = Some h \/ k s g = Some h.
Proof.
  cbn [exec]. destruct (exec r s g k) as [h'|]; [intros H; left|intros H; right];
    exact H.
Qed.

Lemma exec_alt_some (r1 r2 : re) (s : text) (g : option text)
      (k : text -> option text -> option hit) (h : hit) :
  exec (Alt r1 r2) s g k = Some h ->
  exec r1 s g k = Some h \/ exec r2 s g k = Some h.
Proof.
  cbn [exec]. destruct (exec r1 s g k) as [h'|]; [intros H; left|intros H; right];
    exact H.
Qed.

Lemma exec_cat (r1 r2 : re) (s : text) (g : option text)
      (k : text -> option text -> option hit) :
  exec (Cat r1 r2) s g k = exec r1 s g (fun s1 g1 => exec r2 s1 g1 k).
Proof. reflexivity. Qed.

(** The capture group of the rules: one or more characters of a class. *)
Lemma exec_group_some (p : char -> bool) (s : text) (g : option text)
      (k : text -> option text -> option hit) (h : hit) :
  exec (Group (Plus p)) s g k = Some h ->
  exists X rest,
    s = X ++ rest /\ X <> [] /\ forallb p X = true
    /\ k rest (Some X) = Some h.
Proof.
  cbn [exec]. intros H. apply exec_plus_some in H.
  destruct H as [X [rest [-> [HX [Hall Hk]]]]].
  exists X, rest. rewrite firstn_consumed in Hk. auto.
Qed.

Section Rules.
Variable uni_alnum : char -> bool.

Local Abbreviation is_word := (Aa.is_word uni_alnum).

(** A keyword, whitespace and a name at the end of a pattern: the name is
    the longest run of word characters. *)
Lemma keyword_match_shape (keyword s rest : text) (g : option text) :
  keyword <> [] ->
  match_here (Cat (word keyword) (Cat (Plus is_space) (Group (Plus is_word))))
    s = Some (rest, g) ->
  exists ws X,
    s = keyword ++ ws ++ X ++ rest
    /\ ws <> [] /\ blank ws /\ name_of_words uni_alnum X
    /\ g = Some X
    /\ match rest with
       | [] => True
       | c :: _ => is_word c = false
       end.
Proof.
  intros Hkw. unfold match_here. cbn [exec]. intros H.
  apply exec_word_some in H; [|exact Hkw].
  destruct H as [s1 [-> H]]. apply exec_plus_some in H.
  destruct H as [ws [s2 [-> [Hws [Hsp H]]]]].
  rewrite exec_plus in H. destruct s2 as [|y s3]; [discriminate H|].
  destruct (is_word y) eqn:Hy; [|discriminate H].
  rewrite star_greedy_longest in H by discriminate.
  injection H as Hrest Hg.
  assert (Hs3 : s3 = run_of is_word s3 ++ rest)
    by (rewrite <- Hrest; apply run_split).
  exists ws, (y :: run_of is_word s3). repeat split.
  - cbn [app]. do 3 f_equal. exact Hs3.
  - exact Hws.
  - exact Hsp.
  - discriminate.
  - cbn [forallb]. rewrite Hy. apply run_of_all.
  - rewrite <- Hg. f_equal. rewrite Hrest.
    change (match length rest with
            | 0 => S (length s3)
            | S l => length s3 - l
            end)
      with (length (y :: s3) - length rest).
    set (name := run_of is_word s3) in *.
    replace (y :: s3) with ((y :: name) ++ rest)
      by (cbn [app]; f_equal; symmetry; exact Hs3).
    apply firstn_consumed.
  - rewrite <- Hrest. apply after_run_stops.
Qed.

Lemma keyword_declared (keyword content X : text) :
  keyword <> [] ->
  In X (findall (Cat (word keyword) (Cat (Plus is_space) (Group (Plus is_word))))
          content) ->
  declares uni_alnum keyword content X.
Proof.
  intros Hkw H. apply findall_from_sound in H.
  destruct H as [before [there [rest [g [-> [Hm ->]]]]]].
  apply keyword_match_shape in Hm; [|exact Hkw].
  destruct Hm as [ws [X [-> [Hws [Hsp [HX [-> Hrest]]]]]]].
  exists before, ws, rest. cbn [group_text]. auto.
Qed.

Lemma function_declared (content X : text) :
  In X (funcs uni_alnum content) -> declares_function uni_alnum content X.
Proof.
  intros H. apply findall_from_sound in H.
  destruct H as [before [there [rest [g [-> [Hm ->]]]]]].
  unfold match_here, re_function in Hm. rewrite exec_cat in Hm.
  assert (Hfrom : exists skipped there',
             there = skipped ++ there'
             /\ exec (Cat (word (lit "function"))
                        (Cat (Plus is_space)
                           (Cat (Group (Plus is_word))
                              (Cat (Star is_space) (Chr 40%N)))))
                  there' None (fun r g' => Some (r, g'))
                = Some (rest, g)).
  { apply exec_opt_some in Hm. destruct Hm as [Hm|Hm].
    - rewrite exec_cat in Hm. apply exec_word_some in Hm; [|discriminate].
      destruct Hm as [s1 [-> Hm]]. apply exec_plus_some in Hm.
      destruct Hm as [ws [s2 [-> [_ [_ Hm]]]]].
      exists (lit "async" ++ ws), s2. rewrite <- app_assoc. auto.
    - exists [], there. auto. }
  destruct Hfrom as [skipped [there' [-> Hf]]].
  rewrite exec_cat in Hf. apply exec_word_some in Hf; [|discriminate].
  destruct Hf as [s1 [-> Hf]].
  rewrite exec_cat in Hf. apply exec_plus_some in Hf.
  destruct Hf as [ws [s2 [-> [Hws [Hsp Hf]]]]].
  rewrite exec_cat in Hf. apply exec_group_some in Hf.
  destruct Hf as [X [s3 [-> [HX [Hw Hf]]]]].
  rewrite exec_cat in Hf. apply exec_star_some in Hf.
  destruct Hf as [ws' [s4 [-> [Hsp' Hf]]]].
  apply exec_chr_some in Hf. destruct Hf as [r [-> Hf]].
  injection Hf as <- <-.
  exists (before ++ skipped), ws, ws', r. cbn [group_text].
  rewrite <- !app_assoc. repeat split; auto.
Qed.

Lemma export_declared (content X : text) :
  In X (exports uni_alnum content) -> declares_export uni_alnum content X.
Proof.
  intros H. apply findall_from_sound in H.
  destruct H as [before [there [rest [g [-> [Hm ->]]]]]].
  unfold match_here, re_export in Hm. rewrite exec_cat in Hm.
  assert (Hfrom : exists skipped there',
             there = skipped ++ there'
             /\ exec (Cat (word (lit "exports."))
                        (Cat (Group (Plus is_word))
                           (Cat (Star is_space) (Chr 61%N))))
                  there' None (fun r g' => Some (r, g'))
                = Some (rest, g)).
  { apply exec_opt_some in Hm. destruct Hm as [Hm|Hm].
    - apply exec_word_some in Hm; [|discriminate].
      destruct Hm as [s1 [-> Hm]]. exists (lit "module."), s1. auto.
    - exists [], there. auto. }
  destruct Hfrom as [skipped [there' [-> Hf]]].
  rewrite exec_cat in Hf. apply exec_word_some in Hf; [|discriminate].
  destruct Hf as [s1 [-> Hf]].
  rewrite exec_cat in Hf. apply exec_group_some in Hf.
  destruct Hf as [X [s2 [-> [HX [Hw Hf]]]]].
  rewrite exec_cat in Hf. apply exec_star_some in Hf.
  destruct Hf as [ws [s3 [-> [Hsp Hf]]]].
  apply exec_chr_some in Hf. destruct Hf as [r [-> Hf]].
  injection Hf as <- <-.
  exists (before ++ skipped), ws, r. cbn [group_text].
  rewrite <- !app_assoc. repeat split; auto.
Qed.

Lemma arrow_declared (content X : text) :
  In X (arrows uni_alnum content) -> declares_arrow uni_alnum content X.
Proof.
  intros H. apply findall_from_sound in H.
  destruct H as [before [there [rest [g [-> [Hm ->]]]]]].
  unfold match_here, re_arrow in Hm. rewrite exec_cat in Hm.
  assert (Hkw : exists keyword s1,
             In keyword [lit "const"; lit "let"; lit "var"]
             /\ there = keyword ++ s1
             /\ exec (Cat (Plus is_space)
                        (Cat (Group (Plus is_word))
                           (Cat (Star is_space)
                              (Cat (Chr 61%N)
                                 (Cat (Star is_space)
                                    (Cat (Opt (Cat (word (lit "async"))
                                                 (Star is_space)))
                                       (Cat (Chr 40%N)
                                          (Cat (LazyStar is_dot)
                                             (Cat (Chr 41%N)
                                                (Cat (Star is_space)
                                                   (word (lit "=>"))))))))))))
                  s1 None (fun r g' => Some (r, g'))
                = Some (rest, g)).
  { apply exec_alt_some in Hm. destruct Hm as [Hm|Hm];
      [|apply exec_alt_some in Hm; destruct Hm as [Hm|Hm]];
      (apply exec_word_some in Hm; [|discriminate]);
      destruct Hm as [s1 [-> Hm]]; eexists; exists s1;
      (split; [|split; [reflexivity|exact Hm]]); cbn; auto. }
  destruct Hkw as [keyword [s1 [Hin [-> Hf]]]].
  rewrite exec_cat in Hf. apply exec_plus_some in Hf.
  destruct Hf as [ws1 [s2 [-> [Hws1 [Hsp1 Hf]]]]].
  rewrite exec_cat in Hf. apply exec_group_some in Hf.
  destruct Hf as [X [s3 [-> [HX [Hw Hf]]]]].
  rewrite exec_cat in Hf. apply exec_star_some in Hf.
  destruct Hf as [ws2 [s4 [-> [Hsp2 Hf]]]].
  rewrite exec_cat in Hf. apply exec_chr_some in Hf.
  destruct Hf as [s5 [-> Hf]].
  rewrite exec_cat in Hf. apply exec_star_some in Hf.
  destruct Hf as [ws3 [s6 [-> [Hsp3 Hf]]]].
  rewrite exec_cat in Hf.
  assert (Hasync : exists async_ s7,
             s6 = async_ ++ s7
             /\ (async_ = []
                 \/ exists ws, async_ = lit "async" ++ ws /\ blank ws)
             /\ exec (Cat (Chr 40%N)
                        (Cat (LazyStar is_dot)
                           (Cat (Chr 41%N)
                              (Cat (Star is_space) (word (lit "=>"))))))
                  s7 (Some X) (fun r g' => Some (r, g'))
                = Some (rest, g)).
  { apply exec_opt_some in Hf. destruct Hf as [Hf|Hf].
    - rewrite exec_cat in Hf. apply exec_word_some in Hf; [|discriminate].
      destruct Hf as [s7 [-> Hf]]. apply exec_star_some in Hf.
      destruct Hf as [ws [s8 [-> [Hsp Hf]]]].
      exists (lit "async" ++ ws), s8. rewrite <- app_assoc.
      split; [reflexivity|]. split; [|exact Hf].
      right. exists ws. auto.
    - exists [], s6. auto. }
  clear Hf. destruct Hasync as [async_ [s7 [-> [Has Hf]]]].
  rewrite exec_cat in Hf. apply exec_chr_some in Hf.
  destruct Hf as [s8 [-> Hf]].
  rewrite exec_cat in Hf. apply exec_lazy_some in Hf.
  destruct Hf as [params [s9 [-> [Hdots Hf]]]].
  rewrite exec_cat in Hf. apply exec_chr_some in Hf.
  destruct Hf as [s10 [-> Hf]].
  rewrite exec_cat in Hf. apply exec_star_some in Hf.
  destruct Hf as [ws4 [s11 [-> [Hsp4 Hf]]]].
  apply exec_word_some in Hf; [|discriminate].
  destruct Hf as [r [-> Hf]]. injection Hf as <- <-.
  exists before, keyword, ws1, ws2, ws3, async_, params, ws4, r.
  cbn [group_text]. repeat split; auto.
Qed.

(** X1. [get_signatures] never reports a name the text does not hold:
    every entry of its result is the summary marker or the label of a name
    that stands in the text in the shape its rule asks for: after the word
    class or interface and whitespace, ending where the word characters
    end; after function and before an opening parenthesis; after const, let
    or var and before an equals sign, a parameter list on one line and an
    arrow; or after exports and a dot and before an equals sign. *)
Theorem labels_are_justified (content : text) :
  Forall (justified uni_alnum content)
    (get_signatures uni_alnum (Some content)).
Proof.
  rewrite get_signatures_eq. apply Forall_forall. intros entry Hin.
  assert (Hcase : (exists n, entry = more_marker n)
                  \/ In entry (collect_signatures uni_alnum content)).
  { unfold cut in Hin.
    destruct (MAX_SIGNATURES <? length (dict_fromkeys _)).
    - apply in_app_or in Hin. destruct Hin as [Hin|[<-|[]]].
      + right. apply In_firstn in Hin.
        apply (proj1 (In_dict_fromkeys _ _)) in Hin. exact Hin.
      + left. eexists. reflexivity.
    - right. apply (proj1 (In_dict_fromkeys _ _)) in Hin. exact Hin. }
  destruct Hcase as [Hm|Hc]; [left; exact Hm|right].
  rewrite collect_signatures_eq in Hc.
  repeat (apply in_app_or in Hc; destruct Hc as [Hc|Hc]);
    apply in_map_iff in Hc; destruct Hc as [X [<- HX]].
  - left. exists X. split; [reflexivity|].
    apply keyword_declared; [discriminate|exact HX].
  - right. left. exists X. split; [reflexivity|].
    left. apply function_declared, HX.
  - right. left. exists X. split; [reflexivity|].
    right. apply arrow_declared, HX.
  - right. right. left. exists X. split; [reflexivity|].
    apply export_declared, HX.
  - right. right. right. exists X. split; [reflexivity|].
    apply keyword_declared; [discriminate|exact HX].
Qed.

End Rules.

(** One declaration of each kind, as the rules read them. *)
Example one_of_each_signatures :
  get_signatures latin1_alnum (Some one_of_each)
  = [class_label (lit "A"); function_label (lit "f");
     function_label (lit "g"); export_label (lit "h");
     interface_label (lit "I")].
Proof. vm_compute. reflexivity. Qed.

End ShapeFacts.

(* ===================================================================== *)
(** * Where the lines of the map come from                                *)
(* ===================================================================== *)

Module LayoutFacts.
Import Py Re Aa Layout PyFacts TextFacts AaFacts WalkFacts.

Lemma In_output_lines (rel : list text) (l : text) (tr : list event) :
  In (Line rel l) tr -> In l (output_lines tr).
Proof.
  induction tr as [|e tr IH]; [intros []|].
  intros [->|H].
  - left. reflexivity.
  - destruct e; cbn [output_lines]; [apply IH, H|apply IH, H|].
    right. apply IH, H.
Qed.

Lemma path_of_snoc (root : text) (rel : list text) (name : text) :
  path_of root (rel ++ [name]) = path_join (path_of root rel) name.
Proof. unfold path_of. rewrite fold_left_app. reflexivity. Qed.

Section Reach.
Variable uni_alnum : char -> bool.
Variable ignore_dirs ignore_files code_extensions : list text.
Variable start_path : text.

Local Abbreviation walk :=
  (Aa.walk uni_alnum ignore_dirs ignore_files code_extensions start_path).
Local Abbreviation root_events :=
  (Aa.root_events uni_alnum ignore_files code_extensions start_path).
Local Abbreviation file_events :=
  (Aa.file_events uni_alnum ignore_files code_extensions).
Local Abbreviation reached := (Layout.reached ignore_dirs).

(** The body of the loop runs on every directory the walk reaches. *)
Lemma reached_events (n : node) (rel : list text) (dirs : list (text * node))
      (files : list (text * option text)) :
  reached n rel (Listing dirs files) ->
  forall rel0 root0 e,
    In e (root_events (rel0 ++ rel) (path_of root0 rel) files) ->
    In e (walk rel0 root0 n).
Proof.
  intros H. remember (Listing dirs files) as sub eqn:Hsub.
  induction H as [n|dirs' files' name child rel sub Hin Hname Hreach IH];
    intros rel0 root0 e He.
  - subst n. cbn [Aa.walk]. apply in_or_app. left.
    rewrite app_nil_r in He. exact He.
  - cbn [Aa.walk]. apply in_or_app. right. apply in_flat_map.
    exists (name, child). split; [exact Hin|]. rewrite Hname.
    apply (IH Hsub). rewrite <- app_assoc. exact He.
Qed.

(** And on those only. *)
Lemma walk_events_from (n : node) :
  forall rel0 root0 e,
    In e (walk rel0 root0 n) ->
    exists rel dirs files,
      reached n rel (Listing dirs files)
      /\ In e (root_events (rel0 ++ rel) (path_of root0 rel) files).
Proof.
  induction n as [dirs files IH| |] using node_induction;
    intros rel0 root0 e; cbn [Aa.walk]; [|intros []|intros []].
  intros H. apply in_app_or in H. destruct H as [H|H].
  - exists [], dirs, files. split; [constructor|].
    rewrite app_nil_r. exact H.
  - apply in_flat_map in H. destruct H as [[name child] [Hd H]].
    destruct (mem name ignore_dirs) eqn:Hname; [destruct H|].
    rewrite Forall_forall in IH. specialize (IH _ Hd). cbn [snd] in IH.
    destruct (IH _ _ _ H) as [rel [dirs' [files' [Hreach He]]]].
    exists (name :: rel), dirs', files'. split.
    + econstructor; eassumption.
    + rewrite <- app_assoc in He. exact He.
Qed.

End Reach.

Local Abbreviation trace_of uni_alnum start_path tree :=
  (run_trace uni_alnum IGNORE_DIRS IGNORE_FILES CODE_EXTENSIONS start_path
     tree).

(** X2. [generate_map] opens a file only if it is an entry of a
    directory the walk reaches, is not named in IGNORE_FILES, and bears one
    of the CODE_EXTENSIONS: every path handed to [get_signatures] is that
    of such a file.  No other file is read, whatever it holds. *)
Theorem only_code_files_opened (uni_alnum : char -> bool) (start_path : text)
        (tree : node) :
  Forall
    (fun e =>
       match e with
       | ScanFile rel file_path =>
           exists dirs files name content,
             reached IGNORE_DIRS tree rel (Listing dirs files)
             /\ In (name, content) files
             /\ file_path = path_join (path_of start_path rel) name
             /\ mem name IGNORE_FILES = false
             /\ mem (splitext_ext name) CODE_EXTENSIONS = true
       | _ => True
       end)
    (trace_of uni_alnum start_path tree).
Proof.
  apply Forall_forall. intros e He. destruct e as [| rel file_path |]; try exact I.
  apply walk_events_from in He.
  destruct He as [rel' [dirs [files [Hreach He]]]]. cbn [app] in He.
  unfold root_events in He.
  destruct He as [He|[He|He]]; [discriminate He|discriminate He|].
  apply in_flat_map in He. destruct He as [[name content] [Hin He]].
  unfold file_events in He. cbn [fst snd] in He.
  destruct (mem name IGNORE_FILES) eqn:Hign; [destruct He|].
  destruct (mem (splitext_ext name) CODE_EXTENSIONS) eqn:Hext.
  - assert (Hscan : ScanFile rel' (path_join (path_of start_path rel') name)
                    = ScanFile rel file_path).
    { destruct (get_signatures uni_alnum content);
        destruct He as [He|[He|[]]]; try discriminate He; exact He. }
    injection Hscan as <- <-.
    exists dirs, files, name, content. auto.
  - destruct He as [He|[]]. discriminate He.
Qed.

(** The files opened under [nested]: the two with a code extension. *)
Example nested_files_opened :
  flat_map (fun e => match e with ScanFile _ p => [p] | _ => [] end)
    (trace_of latin1_alnum (lit "/work") nested)
  = [lit "/work/src/app.js"; lit "/work/src/util/pad.ts"].
Proof. vm_compute. reflexivity. Qed.

(** X3. Nothing the walk reaches is left out of the map: a directory
    reached from the start directory through names outside IGNORE_DIRS is
    yielded by the walk, and each of its files that is not named in
    IGNORE_FILES has a line, made of an indentation, the file icon, its
    name and its annotation; a file that cannot be read or holds no
    signature has the line without annotation. *)
Theorem every_entry_listed (uni_alnum : char -> bool) (start_path : text)
        (tree : node) (rel : list text) (dirs : list (text * node))
        (files : list (text * option text)) :
  reached IGNORE_DIRS tree rel (Listing dirs files) ->
  In (Yield rel (path_of start_path rel)) (trace_of uni_alnum start_path tree)
  /\ forall f,
       In f files -> mem (fst f) IGNORE_FILES = false ->
       (exists level,
           In (times (lit " ") (4 * (level + 1)) ++ file_icon ++ lit " "
                 ++ fst f ++ annotation uni_alnum f)
              (map_lines uni_alnum start_path tree))
       /\ (snd f = None -> annotation uni_alnum f = []).
Proof.
  intros Hreach. split.
  - unfold run_trace. eapply reached_events; [exact Hreach|].
    left. reflexivity.
  - intros f Hf Hign. split.
    + exists (count_char sep (remove_all start_path (path_of start_path rel))).
      unfold map_lines. apply (@In_output_lines rel).
      unfold run_trace. eapply reached_events; [exact Hreach|].
      cbn [app]. unfold root_events. right. right.
      apply in_flat_map. exists f. split; [exact Hf|].
      unfold file_events, annotation. rewrite Hign.
      destruct (mem (splitext_ext (fst f)) CODE_EXTENSIONS).
      * destruct (get_signatures uni_alnum (snd f)).
        -- right. left. rewrite app_nil_r. reflexivity.
        -- right. left. reflexivity.
      * left. rewrite app_nil_r. reflexivity.
    + intros Hnone. unfold annotation. rewrite Hnone.
      destruct (mem (splitext_ext (fst f)) CODE_EXTENSIONS); reflexivity.
Qed.

Lemma nested_util_reached :
  reached IGNORE_DIRS nested [lit "src"; lit "util"]
    (Listing [] [(lit "pad.ts", Some (lit "export const pad = (s) => s;"));
                 (lit ".env", Some (lit "KEY=1"))]).
Proof.
  eapply reached_below; [left; reflexivity|reflexivity|].
  eapply reached_below; [left; reflexivity|reflexivity|].
  apply reached_here.
Qed.

Lemma every_entry_listed_witness :
  In (Yield [lit "src"; lit "util"] (lit "/work/src/util"))
     (trace_of latin1_alnum (lit "/work") nested).
Proof.
  exact (proj1 (@every_entry_listed latin1_alnum (lit "/work") nested _ _ _
                  nested_util_reached)).
Defined.

(** X4. Every line of the map has a source: it is the line of a
    directory the walk reaches, or the line of a file of such a directory
    that is not named in IGNORE_FILES, made of an indentation, the file
    icon, the name and the annotation.  A file named in IGNORE_FILES has
    no line, and neither has anything under an ignored directory. *)
Theorem lines_have_sources (uni_alnum : char -> bool) (start_path : text)
        (tree : node) :
  Forall
    (fun e =>
       match e with
       | Line rel line =>
           exists dirs files,
             reached IGNORE_DIRS tree rel (Listing dirs files)
             /\ ((exists level,
                     line = if level =? 0
                            then folder_icon ++ lit " PROJECT_ROOT/"
                            else times (lit " ") (4 * level) ++ folder_icon
                                   ++ lit " "
                                   ++ basename (path_of start_path rel)
                                   ++ lit "/")
                 \/ (exists f level,
                        In f files
                        /\ mem (fst f) IGNORE_FILES = false
                        /\ line = times (lit " ") (4 * (level + 1))
                                    ++ file_icon ++ lit " " ++ fst f
                                    ++ annotation uni_alnum f))
       | _ => True
       end)
    (trace_of uni_alnum start_path tree).
Proof.
  apply Forall_forall. intros e He. destruct e as [| |rel line]; try exact I.
  apply walk_events_from in He.
  destruct He as [rel' [dirs [files [Hreach He]]]]. cbn [app] in He.
  assert (Hsame : rel' = rel).
  { apply root_events_rel in He. cbn in He. symmetry. exact He. }
  subst rel'. exists dirs, files. split; [exact Hreach|].
  unfold root_events in He.
  destruct He as [He|[He|He]]; [discriminate He| |].
  - left. injection He as <-. eexists. reflexivity.
  - right. apply in_flat_map in He. destruct He as [f [Hf He]].
    exists f. eexists. split; [exact Hf|].
    unfold file_events, annotation in *.
    destruct (mem (fst f) IGNORE_FILES); [destruct He|].
    split; [reflexivity|].
    destruct (mem (splitext_ext (fst f)) CODE_EXTENSIONS).
    + destruct (get_signatures uni_alnum (snd f));
        destruct He as [He|[He|[]]]; try discriminate He;
        injection He as <-; rewrite ?app_nil_r; reflexivity.
    + destruct He as [He|[]]. injection He as <-.
      rewrite app_nil_r. reflexivity.
Qed.

(** ** The depth of a directory, read off its path *)

Lemma startswith_self (old s : text) : startswith old (old ++ s) = true.
Proof.
  induction old as [|c old IH]; [reflexivity|].
  cbn. unfold char_eqb. rewrite N.eqb_refl. exact IH.
Qed.

Lemma remove_from_skip (old a s : text) :
  remove_from old (a ++ s) (length a) = remove_from old s 0.
Proof. induction a as [|c a IH]; [reflexivity|]. cbn. exact IH. Qed.

Lemma remove_all_prefix (old s : text) :
  old <> [] -> remove_all old (old ++ s) = remove_all old s.
Proof.
  intros Hold. destruct old as [|c old]; [congruence|].
  unfold remove_all.
  change (remove_from (c :: old) ((c :: old) ++ s) 0)
    with (if startswith (c :: old) ((c :: old) ++ s)
          then remove_from (c :: old) (old ++ s) (length old)
          else c :: remove_from (c :: old) (old ++ s) 0).
  rewrite startswith_self. apply remove_from_skip.
Qed.

Lemma remove_all_absent (old s : text) :
  occurs old s = false -> remove_all old s = s.
Proof.
  unfold remove_all. induction s as [|c s IH]; [reflexivity|].
  cbn [occurs]. intros H. apply orb_false_iff in H. destruct H as [Hhere Hlater].
  cbn [remove_from]. destruct old as [|x old].
  - f_equal. apply IH, Hlater.
  - rewrite Hhere. f_equal. apply IH, Hlater.
Qed.

Lemma plain_name_spec (name : text) :
  plain_name name = true ->
  name <> [] /\ forallb (fun c => negb (char_eqb c sep)) name = true.
Proof.
  unfold plain_name. destruct name as [|c name]; [discriminate|].
  intros H. split; [discriminate|exact H].
Qed.

Lemma count_sep_plain (name : text) :
  forallb (fun c => negb (char_eqb c sep)) name = true ->
  count_char sep name = 0.
Proof.
  unfold count_char. induction name as [|c name IH]; [reflexivity|].
  cbn [forallb filter]. intros H. apply andb_true_iff in H. destruct H as [Hc H].
  unfold char_eqb in *. rewrite N.eqb_sym.
  destruct (N.eqb c sep); [discriminate Hc|]. apply IH, H.
Qed.

Lemma count_sep_below (rel : list text) :
  forallb plain_name rel = true -> count_char sep (below rel) = length rel.
Proof.
  unfold below. induction rel as [|name rel IH]; [reflexivity|].
  cbn [forallb map concat length]. intros H.
  apply andb_true_iff in H. destruct H as [Hname H].
  change ((sep :: name) ++ concat (map (fun n => sep :: n) rel))
    with ([sep] ++ name ++ concat (map (fun n => sep :: n) rel)).
  rewrite !count_char_app, (IH H).
  apply plain_name_spec in Hname. destruct Hname as [_ Hname].
  rewrite (@count_sep_plain name Hname). reflexivity.
Qed.

Lemma ends_with_sep_snoc (p name : text) :
  plain_name name = true -> ends_with_sep (p ++ sep :: name) = false.
Proof.
  intros H. apply plain_name_spec in H. destruct H as [Hne Hall].
  unfold ends_with_sep.
  destruct (rev (p ++ sep :: name)) as [|c r] eqn:Hrev; [reflexivity|].
  assert (Hin : In c name).
  { destruct (exists_last Hne) as [front [z Hz]]. subst name.
    change (sep :: front ++ [z]) with ((sep :: front) ++ [z]) in Hrev.
    rewrite app_assoc, rev_app_distr in Hrev. cbn in Hrev.
    injection Hrev as <- _. apply in_or_app. right. left. reflexivity. }
  rewrite forallb_forall in Hall. specialize (Hall c Hin).
  destruct (char_eqb c sep); [discriminate Hall|reflexivity].
Qed.

Lemma path_join_plain (root name : text) :
  root <> [] -> ends_with_sep root = false -> plain_name name = true ->
  path_join root name = root ++ sep :: name.
Proof.
  intros Hroot Hend Hname. unfold path_join.
  apply plain_name_spec in Hname. destruct Hname as [Hne Hall].
  destruct name as [|c name]; [congruence|].
  cbn [forallb] in Hall. apply andb_true_iff in Hall. destruct Hall as [Hc _].
  cbn [startswith]. unfold char_eqb in *. rewrite N.eqb_sym.
  destruct (N.eqb c sep); [discriminate Hc|]. cbn [andb].
  unfold ends_with_sep in Hend.
  destruct (rev root) as [|z r] eqn:Hrev.
  - exfalso. apply Hroot. apply (f_equal (@rev char)) in Hrev.
    rewrite rev_involutive in Hrev. exact Hrev.
  - unfold char_eqb in Hend. rewrite Hend. reflexivity.
Qed.

(** The path [os.walk] builds for a directory is the start path followed
    by the names that lead to it, a separator before each. *)
Lemma path_of_below (root : text) (rel : list text) :
  root <> [] -> ends_with_sep root = false ->
  forallb plain_name rel = true ->
  path_of root rel = root ++ below rel.
Proof.
  revert root. induction rel as [|name rel IH]; intros root Hroot Hend Hrel.
  - cbn. rewrite app_nil_r. reflexivity.
  - cbn [forallb] in Hrel. apply andb_true_iff in Hrel.
    destruct Hrel as [Hname Hrel].
    unfold path_of. cbn [fold_left].
    fold (path_of (path_join root name) rel).
    rewrite path_join_plain by assumption.
    rewrite IH.
    + unfold below. cbn [map concat]. rewrite <- app_assoc. reflexivity.
    + destruct root; [congruence|discriminate].
    + apply ends_with_sep_snoc, Hname.
    + exact Hrel.
Qed.

Lemma basename_fold (name acc : text) :
  forallb (fun c => negb (char_eqb c sep)) name = true ->
  fold_left (fun acc c => if char_eqb c sep then [] else acc ++ [c]) name acc
  = acc ++ name.
Proof.
  revert acc. induction name as [|c name IH]; intros acc H.
  - cbn. rewrite app_nil_r. reflexivity.
  - cbn [forallb] in H. apply andb_true_iff in H. destruct H as [Hc H].
    cbn [fold_left]. destruct (char_eqb c sep); [discriminate Hc|].
    rewrite (IH _ H), <- app_assoc. reflexivity.
Qed.

Lemma basename_snoc (p name : text) :
  plain_name name = true -> basename (p ++ sep :: name) = name.
Proof.
  intros H. apply plain_name_spec in H. destruct H as [_ Hall].
  unfold basename. rewrite fold_left_app. cbn [fold_left].
  unfold char_eqb at 2. rewrite N.eqb_refl.
  exact (@basename_fold name [] Hall).
Qed.

Lemma below_snoc (rel : list text) (name : text) :
  below (rel ++ [name]) = below rel ++ sep :: name.
Proof.
  unfold below. rewrite map_app, concat_app. cbn. rewrite app_nil_r.
  reflexivity.
Qed.

(** What the loop computes for a directory under these conditions: its
    depth, and its own name. *)
Lemma level_is_depth (start_path : text) (rel : list text) :
  start_path <> [] -> ends_with_sep start_path = false ->
  forallb plain_name rel = true ->
  occurs start_path (below rel) = false ->
  count_char sep (remove_all start_path (path_of start_path rel))
  = length rel
  /\ match rev rel with
     | [] => True
     | name :: _ => basename (path_of start_path rel) = name
     end.
Proof.
  intros Hstart Hend Hrel Hocc.
  rewrite path_of_below by assumption. split.
  - rewrite remove_all_prefix by assumption.
    rewrite remove_all_absent by assumption.
    apply count_sep_below, Hrel.
  - destruct (rev rel) as [|name r] eqn:Hrev; [exact I|].
    assert (Hsplit : rel = rev r ++ [name]).
    { apply (f_equal (@rev text)) in Hrev. rewrite rev_involutive in Hrev.
      exact Hrev. }
    rewrite Hsplit, below_snoc, app_assoc. apply basename_snoc.
    rewrite forallb_forall in Hrel. apply Hrel. rewrite Hsplit.
    apply in_or_app. right. left. reflexivity.
Qed.

(** X5. The indentation of a line tells the depth of its directory:
    when the start path is not empty and does not end with a separator, the
    line of a directory reached through the names [rel] is the line of the
    root for the start directory and otherwise 4 spaces for each name of
    [rel], the folder icon and the last name; the line of a file of that
    directory is indented by 4 spaces more.  This holds for the
    directories below which the start path does not occur again. *)
Theorem indentation_is_depth (uni_alnum : char -> bool) (start_path : text)
        (tree : node) :
  start_path <> [] ->
  ends_with_sep start_path = false ->
  Forall
    (fun e =>
       match e with
       | Line rel line =>
           forallb plain_name rel = true ->
           occurs start_path (below rel) = false ->
           line = header_line rel
           \/ exists body,
               line = times (lit " ") (4 * (length rel + 1)) ++ file_icon
                        ++ body
       | _ => True
       end)
    (trace_of uni_alnum start_path tree).
Proof.
  intros Hstart Hend. apply Forall_forall. intros e He.
  destruct e as [| |rel line]; try exact I. intros Hrel Hocc.
  apply walk_events_from in He.
  destruct He as [rel' [dirs [files [_ He]]]]. cbn [app] in He.
  assert (Hsame : rel' = rel).
  { apply root_events_rel in He. cbn in He. symmetry. exact He. }
  subst rel'.
  destruct (@level_is_depth start_path rel Hstart Hend Hrel Hocc)
    as [Hlevel Hname].
  unfold root_events in He. rewrite Hlevel in He.
  destruct He as [He|[He|He]]; [discriminate He| |].
  - left. injection He as <-. unfold header_line.
    destruct (rev rel) as [|name r] eqn:Hrev.
    + apply (f_equal (@rev text)) in Hrev. rewrite rev_involutive in Hrev.
      subst rel. reflexivity.
    + rewrite Hname.
      destruct (length rel) as [|n] eqn:Hlen; [|reflexivity].
      apply length_zero_iff_nil in Hlen. subst rel. discriminate Hrev.
  - right. apply in_flat_map in He. destruct He as [f [_ He]].
    unfold file_events in He.
    destruct (mem (fst f) IGNORE_FILES); [destruct He|].
    destruct (mem (splitext_ext (fst f)) CODE_EXTENSIONS).
    + destruct (get_signatures uni_alnum (snd f));
        destruct He as [He|[He|[]]]; try discriminate He;
        injection He as <-; eexists; reflexivity.
    + destruct He as [He|[]]. injection He as <-. eexists. reflexivity.
Qed.

Lemma indentation_is_depth_witness :
  Forall
    (fun e =>
       match e with
       | Line rel line =>
           forallb plain_name rel = true ->
           occurs (lit "/work") (below rel) = false ->
           line = header_line rel
           \/ exists body,
               line = times (lit " ") (4 * (length rel + 1)) ++ file_icon
                        ++ body
       | _ => True
       end)
    (trace_of latin1_alnum (lit "/work") nested).
Proof.
  apply indentation_is_depth; [discriminate|reflexivity].
Defined.

(** The map of [nested]. *)
Example nested_map :
  map_lines latin1_alnum (lit "/work") nested
  = [folder_icon ++ lit " PROJECT_ROOT/";
     lit "    " ++ file_icon ++ lit " notes.txt";
     lit "    " ++ folder_icon ++ lit " src/";
     lit "        " ++ file_icon ++ lit " app.js";
     lit "        " ++ folder_icon ++ lit " util/";
     lit "            " ++ file_icon ++ lit " pad.ts  ["
       ++ function_label (lit "pad") ++ lit "]"].
Proof. vm_compute. reflexivity. Qed.

(** Run from the root of the file system, the start path is one
    separator; taking it out of a path leaves no separator to count, and
    every directory gets the line of the root. *)
Example depth_lost_at_root :
  map_lines latin1_alnum (lit "/") nested
  = [folder_icon ++ lit " PROJECT_ROOT/";
     lit "    " ++ file_icon ++ lit " notes.txt";
     folder_icon ++ lit " PROJECT_ROOT/";
     lit "    " ++ file_icon ++ lit " app.js";
     folder_icon ++ lit " PROJECT_ROOT/";
     lit "    " ++ file_icon ++ lit " pad.ts  ["
       ++ function_label (lit "pad") ++ lit "]"].
Proof. vm_compute. reflexivity. Qed.

(** ** The script and its own output file *)

Lemma output_lines_app (a b : list event) :
  output_lines (a ++ b) = output_lines a ++ output_lines b.
Proof.
  induction a as [|e a IH]; [reflexivity|].
  destruct e; cbn [app output_lines]; rewrite IH; reflexivity.
Qed.

Lemma root_level (p : text) : count_char sep (remove_all p p) = 0.
Proof.
  destruct p as [|c p]; [reflexivity|].
  rewrite <- (app_nil_r (c :: p)) at 2.
  rewrite remove_all_prefix by discriminate. reflexivity.
Qed.

Lemma mem_map_fst_false (name : text) (files : list (text * option text)) :
  mem name (map fst files) = false ->
  Forall (fun f => text_eqb (fst f) name = false) files.
Proof.
  induction files as [|f files IH]; [constructor|].
  cbn. intros H. apply orb_false_iff in H. destruct H as [Hf H].
  constructor; [|apply IH, H].
  destruct (text_eqb (fst f) name) eqn:E; [|reflexivity].
  apply text_eqb_eq in E. rewrite E, text_eqb_refl in Hf. discriminate Hf.
Qed.

Lemma file_content_absent (name : text) (files : list (text * option text)) :
  Forall (fun f => text_eqb (fst f) name = false) files ->
  forall rest, file_content name (files ++ rest) = file_content name rest.
Proof.
  induction 1 as [|f files Hf _ IH]; intros rest; [reflexivity|].
  cbn. rewrite Hf. apply IH.
Qed.

Lemma file_content_save (name content : text) (place : nat)
      (files : list (text * option text)) :
  file_content name (save name content place files) = Some (Some content).
Proof.
  unfold save. destruct (mem name (map fst files)) eqn:Hmem.
  - induction files as [|f files IH]; [discriminate Hmem|].
    cbn [overwrite]. destruct (text_eqb (fst f) name) eqn:E.
    + cbn. rewrite text_eqb_refl. reflexivity.
    + cbn [file_content]. rewrite E. apply IH.
      cbn in Hmem. apply orb_true_iff in Hmem. destruct Hmem as [H|H]; [|exact H].
      apply text_eqb_eq in H. rewrite H, text_eqb_refl in E. discriminate E.
  - rewrite file_content_absent.
    + cbn. rewrite text_eqb_refl. reflexivity.
    + apply mem_map_fst_false in Hmem. rewrite Forall_forall in *.
      intros f Hf. apply Hmem. eapply In_firstn. exact Hf.
Qed.

Lemma file_content_mem (name : text) (files : list (text * option text))
      (content : option text) :
  file_content name files = Some content -> mem name (map fst files) = true.
Proof.
  induction files as [|f files IH]; [discriminate|].
  cbn [file_content map]. unfold mem. cbn [existsb]. fold (mem name (map fst files)).
  destruct (text_eqb (fst f) name) eqn:E.
  - intros _. apply text_eqb_eq in E. rewrite E, text_eqb_refl. reflexivity.
  - intros H. rewrite (IH H). apply orb_true_r.
Qed.

Lemma mem_save (name content : text) (place : nat)
      (files : list (text * option text)) :
  mem name (map fst (save name content place files)) = true.
Proof.
  eapply file_content_mem. apply file_content_save.
Qed.

(** What a run looks at does not change when the output file is written
    over. *)
Lemma observed_overwrite (content : text) (dirs : list (text * node))
      (files : list (text * option text)) :
  observed IGNORE_DIRS IGNORE_FILES CODE_EXTENSIONS
    (Listing dirs (overwrite OUTPUT_FILE content files))
  = observed IGNORE_DIRS IGNORE_FILES CODE_EXTENSIONS (Listing dirs files).
Proof.
  cbn [observed]. f_equal.
  induction files as [|f files IH]; [reflexivity|].
  cbn [overwrite]. destruct (text_eqb (fst f) OUTPUT_FILE) eqn:E.
  - apply text_eqb_eq in E. cbn [flat_map fst]. rewrite E. reflexivity.
  - cbn [flat_map]. rewrite IH. reflexivity.
Qed.

Lemma generate_map_overwrite (uni_alnum : char -> bool) (cwd content : text)
      (dirs : list (text * node)) (files : list (text * option text)) :
  generate_map uni_alnum cwd (Listing dirs (overwrite OUTPUT_FILE content files))
  = generate_map uni_alnum cwd (Listing dirs files).
Proof.
  unfold generate_map, render, run_trace.
  rewrite <- (walk_observed uni_alnum IGNORE_DIRS IGNORE_FILES CODE_EXTENSIONS
                cwd (Listing dirs (overwrite OUTPUT_FILE content files))).
  rewrite observed_overwrite, walk_observed. reflexivity.
Qed.

(** The lines of a listing with one more file, which is neither ignored
    nor code. *)
Lemma map_lines_insert (uni_alnum : char -> bool) (cwd content : text)
      (place : nat) (dirs : list (text * node))
      (files : list (text * option text)) :
  exists before after,
    map_lines uni_alnum cwd (Listing dirs files) = before ++ after
    /\ map_lines uni_alnum cwd
         (Listing dirs
            (firstn place files ++ (OUTPUT_FILE, Some content)
               :: skipn place files))
       = before ++ output_line :: after.
Proof.
  unfold map_lines, run_trace. cbn [walk]. unfold root_events.
  rewrite root_level. cbn [Nat.eqb].
  set (below_ := flat_map _ dirs).
  set (body := file_events uni_alnum IGNORE_FILES CODE_EXTENSIONS [] cwd
                 (times (lit " ") (4 * (0 + 1)))).
  exists (output_lines
            (Yield [] cwd :: Line [] (folder_icon ++ lit " PROJECT_ROOT/")
               :: flat_map body (firstn place files))),
         (output_lines (flat_map body (skipn place files) ++ below_)).
  split.
  - rewrite <- output_lines_app. f_equal. cbn [app]. do 2 f_equal.
    rewrite app_assoc, <- flat_map_app, firstn_skipn. reflexivity.
  - rewrite flat_map_app. cbn [flat_map].
    change (body (OUTPUT_FILE, Some content)) with [Line [] output_line].
    rewrite !output_lines_app. cbn [output_lines app].
    rewrite !output_lines_app. cbn [output_lines app].
    rewrite <- !app_assoc. reflexivity.
Qed.

(** X6. The script lists its own output file from the second run on.
    After a run that completes, the working directory holds
    codebase_map_v2.txt with the map made before the file was written: if
    the file was not there, that saved map lacks the line of the file,
    which the map of the directory as it now stands has.  A second run
    saves the map of the directory as it stands, and from then on every
    run saves the same text. *)
Theorem output_listed_from_second_run (uni_alnum : char -> bool)
        (cwd : text) (place : nat) (dirs : list (text * node))
        (files : list (text * option text)) (first : finished) :
  script uni_alnum cwd place dirs files = Some first ->
  let map1 := generate_map uni_alnum cwd (Listing dirs files) in
  let files1 := save OUTPUT_FILE map1 place files in
  directory first = Listing dirs files1
  /\ saved_map (directory first) = Some (Some map1)
  /\ In output_line (map_lines uni_alnum cwd (directory first))
  /\ (mem OUTPUT_FILE (map fst files) = false ->
      exists before after,
        map_lines uni_alnum cwd (Listing dirs files) = before ++ after
        /\ map_lines uni_alnum cwd (directory first)
           = before ++ output_line :: after)
  /\ (forall place' second,
         script uni_alnum cwd place' dirs files1 = Some second ->
         saved_map (directory second)
         = Some (Some (generate_map uni_alnum cwd (directory second)))
         /\ generate_map uni_alnum cwd (directory second)
            = generate_map uni_alnum cwd (directory first)).
Proof.
  intros Hrun map1 files1. unfold script in Hrun. fold map1 in Hrun.
  destruct (mem OUTPUT_FILE (map fst dirs)) eqn:Hdir; [discriminate|].
  destruct (encodable map1) eqn:Henc; [|discriminate].
  injection Hrun as <-. cbn [directory]. fold files1.
  assert (Hlisted : forall content fs,
             file_content OUTPUT_FILE fs = Some content ->
             In output_line (map_lines uni_alnum cwd (Listing dirs fs))).
  { intros content fs Hfs. unfold map_lines, run_trace. cbn [walk].
    rewrite output_lines_app. apply in_or_app. left.
    unfold root_events. rewrite root_level. cbn [output_lines]. right.
    induction fs as [|f fs IH]; [discriminate Hfs|].
    cbn [flat_map]. rewrite output_lines_app. apply in_or_app.
    cbn [file_content] in Hfs.
    destruct (text_eqb (fst f) OUTPUT_FILE) eqn:E.
    - left. apply text_eqb_eq in E. unfold file_events. rewrite E.
      left. reflexivity.
    - right. apply IH, Hfs. }
  split; [reflexivity|]. split; [|split; [|split]].
  - cbn [saved_map]. apply file_content_save.
  - eapply Hlisted. apply file_content_save.
  - intros Habsent. unfold files1, save. rewrite Habsent.
    apply map_lines_insert.
  - intros place' second. unfold script. rewrite Hdir.
    set (map2 := generate_map uni_alnum cwd (Listing dirs files1)).
    destruct (encodable map2); [|discriminate].
    intros H. injection H as <-. cbn [directory saved_map].
    assert (Hsame : generate_map uni_alnum cwd
                      (Listing dirs (save OUTPUT_FILE map2 place' files1))
                    = map2).
    { unfold save. unfold files1 at 1. rewrite mem_save.
      apply generate_map_overwrite. }
    split; [|exact Hsame].
    rewrite Hsame. apply file_content_save.
Qed.

Lemma output_listed_from_second_run_witness :
  In output_line
     (map_lines latin1_alnum (lit "/work")
        (Listing [] (save OUTPUT_FILE
                       (generate_map latin1_alnum (lit "/work") two_files_ab)
                       1 [(lit "a.txt", Some []); (lit "b.txt", Some [])]))).
Proof.
  exact (proj1 (proj2 (proj2 (@output_listed_from_second_run latin1_alnum
                                (lit "/work") 1 []
                                [(lit "a.txt", Some []); (lit "b.txt", Some [])]
                                _ eq_refl)))).
Defined.

(** Three runs in a directory with two files: the maps the runs save. *)
Example three_runs :
  let run place n :=
    match n with
    | Listing dirs files => script latin1_alnum (lit "/work") place dirs files
    | _ => None
    end in
  exists first second third,
    run 1 two_files_ab = Some first
    /\ run 0 (directory first) = Some second
    /\ run 5 (directory second) = Some third
    /\ saved_map (directory first)
       = Some (Some (join nl [folder_icon ++ lit " PROJECT_ROOT/";
                              lit "    " ++ file_icon ++ lit " a.txt";
                              lit "    " ++ file_icon ++ lit " b.txt"]))
    /\ saved_map (directory second)
       = Some (Some (join nl [folder_icon ++ lit " PROJECT_ROOT/";
                              lit "    " ++ file_icon ++ lit " a.txt";
                              output_line;
                              lit "    " ++ file_icon ++ lit " b.txt"]))
    /\ saved_map (directory third) = saved_map (directory second).
Proof.
  cbv zeta. eexists. eexists. eexists.
  split; [vm_compute; reflexivity|].
  split; [vm_compute; reflexivity|].
  split; [vm_compute; reflexivity|].
  split; [vm_compute; reflexivity|].
  split; vm_compute; reflexivity.
Qed.

End LayoutFacts.

(* ===================================================================== *)
(** * Facts about every run of _scanproblem.py                            *)
(* ===================================================================== *)

Module RunFacts.
Import Py Scan Run PyFacts TextFacts SortFacts ScanFacts.

(** ** What a run adds to the trace *)

Lemma events_since_app (st st' : state) (evs : list io) :
  trace st' = trace st ++ evs -> events_since st st' = evs.
Proof.
  unfold events_since. intros ->.
  rewrite skipn_app, skipn_all, Nat.sub_diag. reflexivity.
Qed.

Lemma quiet_critical_note (e : env) (allowed : io -> bool) :
  (forall line, allowed (Out line) = true) ->
  forallb allowed (critical_note e) = true.
Proof.
  intros H. unfold critical_note. destruct (open_log e); cbn; [|reflexivity].
  rewrite H. reflexivity.
Qed.

Lemma filter_loud_quiet (evs : list io) :
  forallb quiet evs = true -> filter loud evs = [].
Proof.
  induction evs as [|ev evs IH]; [reflexivity|]. cbn. unfold loud at 1.
  intros H. apply andb_true_iff in H as [-> H]. cbn. apply IH, H.
Qed.

(** ** The log between two states *)

Lemma log_kept_refl (e : env) (st : state) : log_kept e st st.
Proof.
  unfold log_kept. destruct (open_log e); [reflexivity|].
  intros old H. exists []. rewrite app_nil_r. exact H.
Qed.

Lemma log_kept_trans (e : env) (a b c : state) :
  log_kept e a b -> log_kept e b c -> log_kept e a c.
Proof.
  unfold log_kept. destruct (open_log e).
  - intros -> ->. reflexivity.
  - intros Hab Hbc old Hold. destruct (Hab old Hold) as [m1 H1].
    destruct (Hbc _ H1) as [m2 H2]. exists (m1 ++ m2).
    rewrite app_assoc. exact H2.
Qed.

Lemma log_kept_emit (e : env) (ev : io) (st : state) :
  log_kept e st (emit ev st).
Proof. exact (log_kept_refl e st). Qed.

Lemma log_kept_append (e : env) (content : text) (st : state) :
  log_kept e st (write_log e content ModeA st).
Proof.
  unfold log_kept, write_log. destruct (open_log e) eqn:Hopen.
  - reflexivity.
  - intros old Hold. exists content. cbn. rewrite Hold. reflexivity.
Qed.

(** ** Statement sequences that only print and append *)

Section Invariant.
Variable e : env.
Variable allowed : io -> bool.
Hypothesis allowed_out : forall line, allowed (Out line) = true.
Hypothesis allowed_append : forall content, allowed (Log content ModeA) = true.

Lemma extends_refl (st : state) : extends e allowed st st.
Proof.
  split; [|apply log_kept_refl]. exists []. rewrite app_nil_r. split; reflexivity.
Qed.

Lemma extends_trans (a b c : state) :
  extends e allowed a b -> extends e allowed b c -> extends e allowed a c.
Proof.
  intros [[e1 [H1 F1]] L1] [[e2 [H2 F2]] L2].
  split; [|eapply log_kept_trans; eassumption].
  exists (e1 ++ e2). rewrite H2, H1, <- app_assoc. split; [reflexivity|].
  rewrite forallb_app, F1, F2. reflexivity.
Qed.

Lemma extends_emit (ev : io) (st : state) :
  allowed ev = true -> extends e allowed st (emit ev st).
Proof.
  intros H. split; [|apply log_kept_emit].
  exists [ev]. split; [reflexivity|]. cbn. rewrite H. reflexivity.
Qed.

Lemma extends_print (line : text) (st : state) :
  extends e allowed st (print line st).
Proof. apply extends_emit, allowed_out. Qed.

Lemma extends_append (content : text) (st : state) :
  extends e allowed st (write_log e content ModeA st).
Proof.
  split; [|apply log_kept_append].
  exists (Log content ModeA :: critical_note e).
  split; [apply trace_write_log|].
  cbn. rewrite allowed_append, (quiet_critical_note e allowed allowed_out).
  reflexivity.
Qed.

Lemma respects_ret (A : Type) (a : A) : respects e allowed (ret a).
Proof. intros st. apply extends_refl. Qed.

Lemma respects_lift (A : Type) (o : outcome A) : respects e allowed (lift o).
Proof. intros st. apply extends_refl. Qed.

Lemma respects_effect (f : state -> state) :
  (forall st, extends e allowed st (f st)) -> respects e allowed (effect f).
Proof. intros H st. apply H. Qed.

Lemma respects_bind (A B : Type) (c : M A) (k : A -> M B) :
  respects e allowed c -> (forall a, respects e allowed (k a)) ->
  respects e allowed (bind c k).
Proof.
  intros Hc Hk st. unfold bind. specialize (Hc st).
  destruct (c st) as [[a|x] st']; cbn in *.
  - eapply extends_trans; [exact Hc|apply Hk].
  - exact Hc.
Qed.

Lemma respects_for_each (A : Type) (body : A -> M unit) (l : list A) :
  (forall x, respects e allowed (body x)) ->
  respects e allowed (for_each body l).
Proof.
  intros Hbody. induction l as [|x l IH]; cbn [for_each].
  - apply respects_ret.
  - apply respects_bind; [apply Hbody|intros _; exact IH].
Qed.

Ltac respects_steps :=
  repeat first
    [ apply respects_bind; [|intros ?]
    | apply respects_lift
    | apply respects_ret
    | apply respects_effect; intros ?;
      first [apply extends_print | apply extends_append] ].

Lemma respects_report_message (msg : json) :
  respects e allowed (report_message e msg).
Proof. unfold report_message. respects_steps. Qed.

Lemma respects_report_entry (entry : json) :
  respects e allowed (report_entry e entry).
Proof.
  unfold report_entry. respects_steps.
  apply respects_for_each, respects_report_message.
Qed.

Lemma respects_write_results (files : list json) :
  respects e allowed (write_results e files).
Proof.
  unfold write_results. respects_steps.
  apply respects_for_each, respects_report_entry.
Qed.

Lemma extends_stderr_noted (result : completed) (st : state) :
  extends e allowed st (stderr_noted e result st).
Proof.
  unfold stderr_noted. destruct (0 <? length (stderr result)).
  - eapply extends_trans; [apply extends_print|].
    eapply extends_trans; [apply extends_print|]. apply extends_append.
  - apply extends_print.
Qed.

Lemma extends_crash_handler (x : exn) (st : state) :
  extends e allowed st (crash_handler e x st).
Proof.
  unfold crash_handler.
  eapply extends_trans; [apply extends_print|]. apply extends_append.
Qed.

(** The [try] statement and its handler around a sequence. *)
Lemma extends_settle (c : M unit) (st : state) :
  respects e allowed c -> extends e allowed st (settle e (c st)).
Proof.
  intros Hc. specialize (Hc st). destruct (c st) as [[u|x] st']; cbn in *.
  - exact Hc.
  - eapply extends_trans; [exact Hc|apply extends_crash_handler].
Qed.

(** What follows the decoder. *)
Lemma respects_decoded (result : completed) :
  respects e allowed
    (match json_loads e (stdout result) with
     | JSONDecodeError =>
         effect (print (cross ++ lit " JSON Decode Failed.")) ;;
         effect (write_log e INVALID_JSON_LINE ModeA) ;;
         effect (write_log e (raw_excerpt (stdout result)) ModeA)
     | LoadsRaised message => lift (Raise (Raised message))
     | Parsed data =>
         files <- lift (problem_files data) ;;
         write_results e files
     end).
Proof.
  destruct (json_loads e (stdout result)).
  - apply respects_bind; [apply respects_lift|].
    intros files. apply respects_write_results.
  - respects_steps.
  - apply respects_lift.
Qed.

(** Steps 5 to 7, where the decoder may be called. *)
Lemma respects_analyze (result : completed) :
  (forall s, allowed (Loads s) = true) ->
  respects e allowed (analyze e result).
Proof.
  intros Hloads. unfold analyze. cbv zeta.
  apply respects_bind; [respects_steps|intros _].
  apply respects_bind;
    [destruct (0 <? length (stderr result)); respects_steps|intros _].
  destruct (length (stdout result) =? 0); [respects_steps|].
  apply respects_bind; [respects_steps|intros _].
  apply respects_bind;
    [apply respects_effect; intros st; apply extends_emit, Hloads|intros _].
  apply respects_decoded.
Qed.

(** The whole [try] block. *)
Lemma respects_try_block :
  (forall s, allowed (Loads s) = true) ->
  (forall command, allowed (Exec command) = true) ->
  respects e allowed (try_block e).
Proof.
  intros Hloads Hexec. unfold try_block. cbv zeta.
  apply respects_bind; [apply respects_lift|intros cwd].
  do 4 (apply respects_bind; [respects_steps|intros _]).
  apply respects_bind;
    [apply respects_effect; intros st; apply extends_emit, Hexec|intros _].
  apply respects_bind; [apply respects_lift|intros result].
  apply respects_bind; [respects_steps|intros _].
  apply respects_analyze, Hloads.
Qed.

End Invariant.

(** The [try] block of [main] keeps the log, whatever it does. *)
Lemma try_block_keeps_log (e : env) (st : state) :
  log_kept e st (settle e (try_block e st)).
Proof.
  assert (H : extends e any_event st (settle e (try_block e st))).
  { apply extends_settle; try reflexivity.
    apply respects_try_block; reflexivity. }
  exact (proj2 H).
Qed.

Lemma logfile_initialize_log (e : env) (st : state) :
  open_log e = None ->
  logfile (initialize_log e st) = Some (log_header e).
Proof.
  intros Hopen. unfold initialize_log, log_header.
  erewrite logfile_write_a; [|exact Hopen|].
  2: { erewrite logfile_write_a; [|exact Hopen|].
       2: { apply logfile_write_w, Hopen. }
       reflexivity. }
  rewrite <- !app_assoc. reflexivity.
Qed.



(** X8. When logs.txt cannot be opened, a run of [main] goes through
    without touching the log: every [write_log] swallows the failure, and
    the file holds after the run what it held before. *)
Theorem locked_log_untouched (e : env) (st : state) (err : text) :
  open_log e = Some err ->
  logfile (main e st) = logfile st.
Proof.
  intros Hopen.
  pose proof (try_block_keeps_log e (initialize_log e st)) as H.
  unfold log_kept in H. rewrite Hopen in H. unfold main. cbv zeta.
  rewrite H. unfold initialize_log, write_log. rewrite Hopen. reflexivity.
Qed.

Lemma locked_log_untouched_witness :
  logfile (main (world_locked 1 Sample.four_records []) stale)
  = Some (lit "old report" ++ nl).
Proof.
  exact (@locked_log_untouched (world_locked 1 Sample.four_records []) stale
           _ eq_refl).
Defined.

(** ** The actions of a run *)

Lemma adds_trans (a b c : state) (l1 l2 : list io) :
  adds a b l1 -> adds b c l2 -> adds a c (l1 ++ l2).
Proof.
  intros [e1 [H1 F1]] [e2 [H2 F2]]. exists (e1 ++ e2).
  rewrite H2, H1, <- app_assoc, filter_app, F1, F2. split; reflexivity.
Qed.

Lemma adds_quiet (e : env) (st st' : state) :
  extends e quiet st st' -> adds st st' [].
Proof.
  intros [[evs [H F]] _]. exists evs. split; [exact H|].
  apply filter_loud_quiet, F.
Qed.

Lemma adds_emit (ev : io) (st : state) :
  loud ev = true -> adds st (emit ev st) [ev].
Proof. intros H. exists [ev]. split; [reflexivity|]. cbn. rewrite H. reflexivity. Qed.

Lemma adds_truncation (e : env) (content : text) (st : state) :
  adds st (write_log e content ModeW st) [Log content ModeW].
Proof.
  exists (Log content ModeW :: critical_note e).
  split; [apply trace_write_log|]. cbn. f_equal.
  apply filter_loud_quiet, quiet_critical_note. reflexivity.
Qed.

Lemma adds_run (e : env) (st : state) (actions : list io) :
  adds st (main e st) actions -> filter loud (run_events e st) = actions.
Proof.
  intros [evs [H F]]. unfold run_events.
  erewrite events_since_app; [exact F|exact H].
Qed.

Lemma adds_refl (st : state) : adds st st [].
Proof. exists []. rewrite app_nil_r. split; reflexivity. Qed.

Lemma adds_then_quiet (e : env) (a b c : state) (actions : list io) :
  adds a b actions -> extends e quiet b c -> adds a c actions.
Proof.
  intros Hab Hbc. rewrite <- (app_nil_r actions).
  eapply adds_trans; [exact Hab|]. eapply adds_quiet, Hbc.
Qed.

Lemma adds_then_print (st st' : state) (line : text) (actions : list io) :
  adds st st' actions -> adds st (print line st') actions.
Proof.
  intros [evs [H F]]. exists (evs ++ [Out line]). split.
  - rewrite trace_print, H, app_assoc. reflexivity.
  - rewrite filter_app, F. cbn. apply app_nil_r.
Qed.

Lemma adds_then_append (e : env) (st st' : state) (content : text)
      (actions : list io) :
  adds st st' actions -> adds st (write_log e content ModeA st') actions.
Proof.
  intros H. apply (@adds_then_quiet e st st' _ actions H).
  apply extends_append; reflexivity.
Qed.

Lemma adds_then_crash (e : env) (st st' : state) (x : exn)
      (actions : list io) :
  adds st st' actions -> adds st (crash_handler e x st') actions.
Proof.
  intros H. apply (@adds_then_quiet e st st' _ actions H).
  apply extends_crash_handler; reflexivity.
Qed.

Lemma adds_then_emit (st st' : state) (ev : io) (actions : list io) :
  loud ev = true -> adds st st' actions ->
  adds st (emit ev st') (actions ++ [ev]).
Proof.
  intros Hev H. eapply adds_trans; [exact H|]. apply adds_emit, Hev.
Qed.

Lemma adds_then_truncation (e : env) (st st' : state) (content : text)
      (actions : list io) :
  adds st st' actions ->
  adds st (write_log e content ModeW st') (actions ++ [Log content ModeW]).
Proof.
  intros H. eapply adds_trans; [exact H|]. apply adds_truncation.
Qed.

Lemma adds_initialize_log (e : env) (st : state) :
  adds st (initialize_log e st)
    [Log (lit "--- ESLINT DEBUG REPORT ---" ++ nl) ModeW].
Proof.
  unfold initialize_log. do 2 apply adds_then_append.
  apply (@adds_then_truncation e st _ _ []).
  apply adds_then_print, adds_refl.
Qed.

(** The state in which the subprocess is started. *)
Lemma adds_before_exec (e : env) (cwd : text) (st st' : state)
      (actions : list io) :
  adds st st' actions ->
  adds st
    (emit (Exec (lint_command e))
       (write_log e (lit "Command: " ++ lint_command e ++ nl ++ nl) ModeA
          (print (zap ++ lit " Executing: " ++ lint_command e)
             (write_log e (lit "Run Location: " ++ cwd ++ nl) ModeA
                (print (open_folder ++ lit " Working Directory: " ++ cwd)
                   st')))))
    (actions ++ [Exec (lint_command e)]).
Proof.
  intros H. apply adds_then_emit; [reflexivity|].
  apply adds_then_append, adds_then_print, adds_then_append, adds_then_print.
  exact H.
Qed.

Lemma main_without_cwd (e : env) (st : state) (x : exn) :
  getcwd e = Raise x -> main e st = crash_handler e x (initialize_log e st).
Proof.
  intros H. unfold main, try_block, bind, lift. rewrite H. reflexivity.
Qed.

Lemma main_without_shell (e : env) (st : state) (cwd : text) (x : exn) :
  getcwd e = Ok cwd ->
  subprocess_run e (lint_command e) = Raise x ->
  main e st
  = crash_handler e x
      (emit (Exec (lint_command e))
         (write_log e (lit "Command: " ++ lint_command e ++ nl ++ nl) ModeA
            (print (zap ++ lit " Executing: " ++ lint_command e)
               (write_log e (lit "Run Location: " ++ cwd ++ nl) ModeA
                  (print (open_folder ++ lit " Working Directory: " ++ cwd)
                     (initialize_log e st)))))).
Proof.
  intros Hcwd Hrun. unfold main, try_block, bind, lift, effect.
  rewrite Hcwd, Hrun. reflexivity.
Qed.

(** Steps 5 to 7 and the handler call the decoder once, on the captured
    standard output, unless that is empty. *)
Lemma adds_analyze (e : env) (result : completed) (st st' : state)
      (actions : list io) :
  adds st st' actions ->
  adds st (settle e (analyze e result st'))
    (actions ++ if length (stdout result) =? 0 then []
                else [Loads (stdout result)]).
Proof.
  intros H. rewrite analyze_unfold.
  assert (H1 : adds st (stderr_noted e result st') actions).
  { apply (@adds_then_quiet e st st' _ actions H).
    apply extends_stderr_noted; reflexivity. }
  destruct (length (stdout result) =? 0).
  - rewrite app_nil_r.
    apply (@adds_then_quiet e st _ _ actions H1).
    apply extends_settle; try reflexivity.
    apply respects_bind; try reflexivity;
      [|intros _]; apply respects_effect; try reflexivity; intros st0;
      [apply extends_print|apply extends_append]; reflexivity.
  - set (st1 := stderr_noted e result st') in *.
    unfold bind at 1. unfold effect at 1. cbv beta iota.
    unfold bind at 1. unfold effect at 1. cbv beta iota.
    apply (@adds_then_quiet e st
             (emit (Loads (stdout result))
                (print (puzzle ++ lit " Parsing JSON...") st1))).
    + apply adds_then_emit; [reflexivity|]. apply adds_then_print, H1.
    + apply extends_settle; try reflexivity.
      apply respects_decoded; reflexivity.
Qed.


(** The actions of a run on Windows that decodes four records. *)
Example run_skeleton_nt :
  filter loud (run_events (world_nt 1 Sample.four_records []) Sample.fresh)
  = [Log (lit "--- ESLINT DEBUG REPORT ---" ++ nl) ModeW;
     Exec (lit "npx.cmd eslint . --quiet --format=json");
     Loads Sample.four_records].
Proof. vm_compute. reflexivity. Qed.

(** ** Failures before the report *)

Lemma logfile_crash_handler (e : env) (x : exn) (st : state) (old : text) :
  open_log e = None -> logfile st = Some old ->
  logfile (crash_handler e x st) = Some (old ++ crash_line e x).
Proof.
  intros Hopen Hold. unfold crash_handler.
  apply logfile_write_a; [exact Hopen|exact Hold].
Qed.

Lemma logfile_before_exec (e : env) (cwd : text) (st : state) (old : text) :
  open_log e = None -> logfile st = Some old ->
  logfile
    (emit (Exec (lint_command e))
       (write_log e (lit "Command: " ++ lint_command e ++ nl ++ nl) ModeA
          (print (zap ++ lit " Executing: " ++ lint_command e)
             (write_log e (lit "Run Location: " ++ cwd ++ nl) ModeA
                (print (open_folder ++ lit " Working Directory: " ++ cwd)
                   st)))))
  = Some (old ++ log_location e cwd).
Proof.
  intros Hopen Hold. rewrite logfile_emit.
  erewrite logfile_write_a; [|exact Hopen|].
  2: { rewrite logfile_print. apply logfile_write_a; [exact Hopen|].
       rewrite logfile_print. exact Hold. }
  unfold log_location. rewrite <- !app_assoc. reflexivity.
Qed.

(** The state in which the decoder has been called. *)
Lemma main_decoded (e : env) (st : state) (cwd : text) (result : completed) :
  getcwd e = Ok cwd ->
  subprocess_run e (lint_command e) = Ok result ->
  stdout result <> [] ->
  exists decoded,
    logfile decoded
    = match open_log e with
      | None => Some (log_preamble e cwd result)
      | Some _ => logfile st
      end
    /\ main e st
       = settle e
           (match json_loads e (stdout result) with
            | JSONDecodeError =>
                effect (print (cross ++ lit " JSON Decode Failed.")) ;;
                effect (write_log e INVALID_JSON_LINE ModeA) ;;
                effect (write_log e (raw_excerpt (stdout result)) ModeA)
            | LoadsRaised message => lift (Raise (Raised message))
            | Parsed data =>
                files <- lift (problem_files data) ;;
                write_results e files
            end decoded).
Proof.
  intros Hcwd Hrun Hout.
  assert (Hlen : (length (stdout result) =? 0) = false).
  { apply Nat.eqb_neq. destruct (stdout result); [congruence|discriminate]. }
  exists (emit (Loads (stdout result))
            (print (puzzle ++ lit " Parsing JSON...")
               (stderr_noted e result (reach_analysis e cwd result st)))).
  split.
  - rewrite logfile_emit, logfile_print.
    destruct (open_log e) as [err|] eqn:Hopen.
    + unfold stderr_noted, reach_analysis, initialize_log, write_log.
      rewrite Hopen. destruct (0 <? length (stderr result)); reflexivity.
    + apply logfile_preamble, Hopen.
  - rewrite (main_analyze e st Hcwd Hrun), analyze_unfold, Hlen. reflexivity.
Qed.

(** X10. An exception of [os.getcwd], of [subprocess.run] or of
    [json.loads] (other than JSONDecodeError) ends the run in the handler:
    the log holds what was written up to that point followed by the crash
    record with the text of the exception, and nothing else. *)
Theorem invocation_failure (e : env) (st : state) :
  open_log e = None ->
  (forall x, getcwd e = Raise x ->
             logfile (main e st) = Some (log_header e ++ crash_line e x))
  /\ (forall cwd x,
         getcwd e = Ok cwd ->
         subprocess_run e (lint_command e) = Raise x ->
         logfile (main e st)
         = Some (log_header e ++ log_location e cwd ++ crash_line e x))
  /\ (forall cwd result message,
         getcwd e = Ok cwd ->
         subprocess_run e (lint_command e) = Ok result ->
         stdout result <> [] ->
         json_loads e (stdout result) = LoadsRaised message ->
         logfile (main e st)
         = Some (log_preamble e cwd result
                   ++ crash_line e (Raised message))).
Proof.
  intros Hopen. split; [|split].
  - intros x Hcwd. rewrite (main_without_cwd e st Hcwd).
    apply logfile_crash_handler; [exact Hopen|].
    apply logfile_initialize_log, Hopen.
  - intros cwd x Hcwd Hrun. rewrite (main_without_shell e st Hcwd Hrun).
    rewrite (app_assoc (log_header e)).
    apply logfile_crash_handler; [exact Hopen|].
    apply logfile_before_exec; [exact Hopen|].
    apply logfile_initialize_log, Hopen.
  - intros cwd result message Hcwd Hrun Hout Hloads.
    destruct (main_decoded e st Hcwd Hrun Hout) as [decoded [Hlog Hmain]].
    rewrite Hopen in Hlog. rewrite Hmain, Hloads. unfold lift. cbn [settle].
    apply logfile_crash_handler; [exact Hopen|exact Hlog].
Qed.

Lemma invocation_failure_witness :
  logfile (main (world_without_cwd (lit "[Errno 2] No such file or directory"))
             Sample.fresh)
  = Some (lit "--- ESLINT DEBUG REPORT ---" ++ nl
            ++ lit "Generated: 12:00:00" ++ nl
            ++ lit "---------------------------" ++ nl ++ nl
            ++ nl ++ fire
            ++ lit " CRITICAL SCRIPT CRASH: [Errno 2] No such file or directory"
            ++ nl).
Proof.
  exact (proj1 (@invocation_failure
                  (world_without_cwd (lit "[Errno 2] No such file or directory"))
                  Sample.fresh eq_refl) _ eq_refl).
Defined.

(** The shell cannot be started: the command is logged, then the crash. *)
Example shell_failure_log :
  logfile (main (world_without_shell (lit "[Errno 12] Cannot allocate memory"))
             Sample.fresh)
  = Some (lit "--- ESLINT DEBUG REPORT ---" ++ nl
            ++ lit "Generated: 12:00:00" ++ nl
            ++ lit "---------------------------" ++ nl ++ nl
            ++ lit "Run Location: /work" ++ nl
            ++ lit "Command: npx eslint . --quiet --format=json" ++ nl ++ nl
            ++ nl ++ fire
            ++ lit " CRITICAL SCRIPT CRASH: [Errno 12] Cannot allocate memory"
            ++ nl).
Proof. vm_compute. reflexivity. Qed.

(** ** The report as a text *)

Lemma get_field (members : list (text * json)) (key : text) (default : json) :
  get (JObj members) key default = Ok (field members key default).
Proof. unfold get, field. destruct (lookup key members); reflexivity. Qed.

(** What [report_message] does with a dict. *)
Lemma report_message_dict (e : env) (members : list (text * json))
      (st : state) :
  report_message e (JObj members) st
  = match replace_newlines (field members (lit "message") (JStr [])) with
    | Ok text_ =>
        (Ok tt,
         write_log e
           (message_line e (field members (lit "line") (JInt 0))
              (field members (lit "ruleId") (JStr (lit "unknown"))) text_)
           ModeA st)
    | Raise x => (Raise x, st)
    end.
Proof.
  unfold report_message. rewrite !get_field. unfold bind, lift, effect.
  destruct (replace_newlines _); reflexivity.
Qed.

Lemma report_message_log (e : env) (msg : json) (st : state) (old : text) :
  open_log e = None -> message_ok msg -> logfile st = Some old ->
  exists st',
    report_message e msg st = (Ok tt, st')
    /\ logfile st' = Some (old ++ message_text e msg).
Proof.
  intros Hopen [members [-> Hmsg]] Hold.
  rewrite report_message_dict. unfold message_text.
  assert (Hs : exists s, field members (lit "message") (JStr []) = JStr s).
  { unfold field. destruct (lookup (lit "message") members) as [v|] eqn:Hv.
    - apply Hmsg. reflexivity.
    - exists []. reflexivity. }
  destruct Hs as [s Hs]. rewrite Hs. cbn [replace_newlines].
  eexists. split; [reflexivity|].
  apply logfile_write_a; [exact Hopen|exact Hold].
Qed.

Lemma for_each_log (A : Type) (body : A -> M unit) (P : A -> Prop)
      (rendered : A -> text) (l : list A) :
  (forall x st old, P x -> logfile st = Some old ->
                    exists st', body x st = (Ok tt, st')
                                /\ logfile st' = Some (old ++ rendered x)) ->
  Forall P l ->
  forall st old, logfile st = Some old ->
    exists st', for_each body l st = (Ok tt, st')
                /\ logfile st' = Some (old ++ concat (map rendered l)).
Proof.
  intros Hbody. induction 1 as [|x l Hx _ IH]; intros st old Hold.
  - exists st. split; [reflexivity|]. cbn. rewrite app_nil_r. exact Hold.
  - destruct (Hbody x st old Hx Hold) as [st1 [H1 L1]].
    destruct (IH st1 _ L1) as [st2 [H2 L2]].
    exists st2. split.
    + cbn [for_each]. unfold bind. rewrite H1. exact H2.
    + rewrite L2. cbn [map concat]. rewrite app_assoc. reflexivity.
Qed.

Lemma report_entry_log (e : env) (entry : json) (st : state) (old : text) :
  open_log e = None -> entry_ok entry -> logfile st = Some old ->
  exists st',
    report_entry e entry st = (Ok tt, st')
    /\ logfile st' = Some (old ++ entry_text e entry).
Proof.
  intros Hopen [members [-> [[n Hn] Hmsgs]]] Hold.
  unfold report_entry, entry_text. rewrite !get_field.
  unfold subscript. rewrite Hn.
  assert (Hcount : field members (lit "errorCount") JNull = JInt n).
  { unfold field. rewrite Hn. reflexivity. }
  rewrite Hcount.
  assert (Hm : exists msgs,
             field members (lit "messages") (JArr []) = JArr msgs
             /\ Forall message_ok msgs).
  { unfold field. destruct (lookup (lit "messages") members) as [v|] eqn:Hv.
    - apply Hmsgs. reflexivity.
    - exists []. split; [reflexivity|constructor]. }
  destruct Hm as [msgs [Hm Hall]]. rewrite Hm.
  set (path := try_relpath e (field members (lit "filePath")
                                (JStr (lit "unknown")))).
  set (st1 := write_log e (banner e path (JInt n)) ModeA st).
  assert (L1 : logfile st1 = Some (old ++ banner e path (JInt n))).
  { apply logfile_write_a; [exact Hopen|exact Hold]. }
  destruct (@for_each_log _ (report_message e) message_ok (message_text e) msgs
              (fun x st0 old0 Hx H0 => @report_message_log e x st0 old0 Hopen Hx H0)
              Hall st1 _ L1) as [st2 [H2 L2]].
  exists st2. split.
  - unfold bind, lift, effect. cbn [iterate]. exact H2.
  - rewrite L2, app_assoc. reflexivity.
Qed.

Lemma problem_files_ranked (items : list json) :
  Forall entry_ok items ->
  problem_files (JArr items) = Ok (ranked items)
  /\ Forall entry_ok (ranked items).
Proof.
  intros Hall. destruct (entries_have_counts Hall) as [counts Hcounts].
  split.
  - unfold problem_files, ranked. cbn [iterate].
    rewrite (keep_problem_files_records Hcounts). reflexivity.
  - apply Forall_forall. intros item Hin. unfold ranked in Hin.
    apply (Permutation_in _ (sort_reverse_perm _ _)) in Hin.
    apply filter_In in Hin. rewrite Forall_forall in Hall. apply Hall, Hin.
Qed.



(** A project without errors. *)
Example clean_project_log :
  logfile (main (Sample.world 0 no_errors []) Sample.fresh)
  = Some (lit "--- ESLINT DEBUG REPORT ---" ++ nl
            ++ lit "Generated: 12:00:00" ++ nl
            ++ lit "---------------------------" ++ nl ++ nl
            ++ lit "Run Location: /work" ++ nl
            ++ lit "Command: npx eslint . --quiet --format=json" ++ nl ++ nl
            ++ lit "Found 0 files with errors." ++ nl).
Proof. vm_compute. reflexivity. Qed.

(** ** One record per message *)

Lemma count_char_replaced (s : text) :
  count_char 10%N (replace_char 10%N 32%N s) = 0.
Proof.
  unfold count_char, replace_char. induction s as [|c s IH]; [reflexivity|].
  cbn [map filter]. unfold char_eqb at 2.
  destruct (N.eqb_spec c 10) as [->|Hc].
  - cbn. exact IH.
  - unfold char_eqb at 1. destruct (N.eqb_spec 10 c) as [E|_].
    + symmetry in E. contradiction.
    + exact IH.
Qed.

Lemma count_char_digits (d : Decimal.uint) :
  count_char 10%N (lit (DecimalString.NilEmpty.string_of_uint d)) = 0.
Proof. induction d; cbn; try reflexivity; exact IHd. Qed.

Lemma count_char_uint (d : Decimal.uint) :
  count_char 10%N (lit (DecimalString.NilZero.string_of_uint d)) = 0.
Proof.
  destruct d; [reflexivity|..];
    match goal with
    | |- count_char _ (lit (_ ?x)) = 0 => exact (count_char_digits x)
    end.
Qed.

Lemma count_char_str_of_Z (z : Z) : count_char 10%N (str_of_Z z) = 0.
Proof.
  unfold str_of_Z, DecimalString.NilZero.string_of_int.
  destruct (Z.to_int z) as [d|d].
  - apply count_char_uint.
  - change (count_char 10%N
              (45%N :: lit (DecimalString.NilZero.string_of_uint d)) = 0).
    unfold count_char. cbn [filter]. change (char_eqb 10%N 45%N) with false.
    apply count_char_uint.
Qed.

(** X12. Every diagnostic takes one line of the log: for a message whose
    line is an integer and whose rule name holds no line break (both may
    be missing, the rule may be null), the record [report_message] writes
    has exactly one line break, the one that ends it, however many the
    message text holds: [replace] turns each of them into a space. *)
Theorem message_on_one_line (e : env) (msg : json) (st : state) :
  message_plain msg ->
  exists body,
    report_message e msg st = (Ok tt, write_log e (body ++ nl) ModeA st)
    /\ count_char 10%N body = 0.
Proof.
  intros [members [-> [Hline [Hrule Hmsg]]]].
  rewrite report_message_dict.
  assert (Hs : exists s, field members (lit "message") (JStr []) = JStr s).
  { unfold field. destruct (lookup (lit "message") members) as [v|] eqn:Hv.
    - apply Hmsg. reflexivity.
    - exists []. reflexivity. }
  destruct Hs as [s Hs]. rewrite Hs. cbn [replace_newlines].
  assert (Hl : count_char 10%N
                 (py_str e (field members (lit "line") (JInt 0))) = 0).
  { unfold field. destruct (lookup (lit "line") members) as [v|] eqn:Hv.
    - destruct (Hline v eq_refl) as [z ->]. apply count_char_str_of_Z.
    - reflexivity. }
  assert (Hr : count_char 10%N
                 (py_str e (field members (lit "ruleId")
                              (JStr (lit "unknown")))) = 0).
  { unfold field. destruct (lookup (lit "ruleId") members) as [v|] eqn:Hv.
    - destruct (Hrule v eq_refl) as [->|[r [-> Hr]]]; [reflexivity|exact Hr].
    - reflexivity. }
  exists (lit "  " ++ cross ++ lit " Line "
            ++ py_str e (field members (lit "line") (JInt 0))
            ++ lit ": ["
            ++ py_str e (field members (lit "ruleId") (JStr (lit "unknown")))
            ++ lit "] " ++ replace_char 10%N 32%N s).
  split.
  - unfold message_line. rewrite <- !app_assoc. reflexivity.
  - rewrite !count_char_app, Hl, Hr, count_char_replaced. reflexivity.
Qed.

Lemma message_on_one_line_witness :
  exists body,
    report_message (Sample.world 1 [] []) two_line_message Sample.fresh
    = (Ok tt,
       write_log (Sample.world 1 [] []) (body ++ nl) ModeA Sample.fresh)
    /\ count_char 10%N body = 0.
Proof.
  apply message_on_one_line. exists two_line_members.
  split; [reflexivity|]. split; [|split]; intros v Hv; vm_compute in Hv.
  - injection Hv as <-. eexists. reflexivity.
  - injection Hv as <-. left. reflexivity.
  - injection Hv as <-. eexists. reflexivity.
Defined.

(** ** A record that the filter rejects *)

Lemma keep_problem_files_unordered (good rest : list json)
      (members : list (text * json)) (v : json) :
  Forall entry_ok good ->
  lookup (lit "errorCount") members = Some v ->
  is_number v = false ->
  keep_problem_files (good ++ JObj members :: rest)
  = Raise (Fault (NotOrderable v)).
Proof.
  intros Hgood Hv Hnum. induction Hgood as [|item good Hitem _ IH].
  - cbn [app keep_problem_files]. unfold subscript. rewrite Hv.
    destruct v; try discriminate Hnum; reflexivity.
  - destruct Hitem as [ms [-> [[n Hn] _]]].
    cbn [app keep_problem_files]. unfold subscript at 1. rewrite Hn.
    cbn [gt_zero]. rewrite IH. reflexivity.
Qed.

(** X13. The filter runs over all records before anything of the report
    is written: if it raises, on whichever record, the run ends in the
    handler and the log holds the preamble and the crash record, with
    neither a count line nor a banner, also for the records before the
    faulty one.  It raises a TypeError on the first record whose
    errorCount is not a number, and when the decoded value is not
    iterable. *)
Theorem filter_failure_stops_report (e : env) (st : state) (cwd : text)
        (result : completed) (data : json) :
  open_log e = None ->
  getcwd e = Ok cwd ->
  subprocess_run e (lint_command e) = Ok result ->
  stdout result <> [] ->
  json_loads e (stdout result) = Parsed data ->
  (forall x, problem_files data = Raise x ->
             logfile (main e st)
             = Some (log_preamble e cwd result ++ crash_line e x))
  /\ (forall good members v rest,
         data = JArr (good ++ JObj members :: rest) ->
         Forall entry_ok good ->
         lookup (lit "errorCount") members = Some v ->
         is_number v = false ->
         problem_files data = Raise (Fault (NotOrderable v)))
  /\ (match data with
      | JNull | JBool _ | JInt _ =>
          problem_files data = Raise (Fault (NotIterable data))
      | _ => True
      end).
Proof.
  intros Hopen Hcwd Hrun Hout Hparsed. split; [|split].
  - intros x Hx.
    destruct (main_decoded e st Hcwd Hrun Hout) as [decoded [Hdec Hmain]].
    rewrite Hopen in Hdec. rewrite Hmain, Hparsed.
    unfold bind, lift. rewrite Hx. cbn [settle].
    apply logfile_crash_handler; [exact Hopen|exact Hdec].
  - intros good members v rest -> Hgood Hv Hnum.
    unfold problem_files. cbn [iterate].
    rewrite (@keep_problem_files_unordered good rest members v Hgood Hv Hnum).
    reflexivity.
  - destruct data; try exact I; reflexivity.
Qed.

Lemma filter_failure_stops_report_witness :
  logfile (main (Sample.world 1 count_as_text []) Sample.fresh)
  = Some (lit "--- ESLINT DEBUG REPORT ---" ++ nl
            ++ lit "Generated: 12:00:00" ++ nl
            ++ lit "---------------------------" ++ nl ++ nl
            ++ lit "Run Location: /work" ++ nl
            ++ lit "Command: npx eslint . --quiet --format=json" ++ nl ++ nl
            ++ nl ++ fire
            ++ lit " CRITICAL SCRIPT CRASH: unsupported operand" ++ nl).
Proof.
  refine (proj1 (@filter_failure_stops_report
                   (Sample.world 1 count_as_text []) Sample.fresh (lit "/work")
                   {| returncode := 1; stdout := count_as_text; stderr := [] |}
                   count_as_text_items _ _ _ _ _)
            (Fault (NotOrderable (JStr (lit "2")))) _).
  - reflexivity.
  - reflexivity.
  - reflexivity.
  - discriminate.
  - vm_compute. reflexivity.
  - vm_compute. reflexivity.
Defined.

(** ** The exit status of the linter *)

Lemma alike_emit (ev : io) (st st' : state) :
  alike st st' -> alike (emit ev st) (emit ev st').
Proof.
  intros [Hlog Htrace]. split; [exact Hlog|].
  unfold apart_from_code in *. cbn [emit trace].
  rewrite !filter_app, Htrace. reflexivity.
Qed.

Lemma alike_write_log (e : env) (content : text) (mode : open_mode)
      (st st' : state) :
  alike st st' ->
  alike (write_log e content mode st) (write_log e content mode st').
Proof.
  intros [Hlog Htrace]. unfold write_log.
  destruct (open_log e) as [err|].
  - apply alike_emit, alike_emit. split; assumption.
  - split.
    + cbn [logfile emit]. rewrite Hlog. reflexivity.
    + unfold apart_from_code in *. cbn [emit trace].
      rewrite !filter_app, Htrace. reflexivity.
Qed.

Lemma blind_lift (A : Type) (o : outcome A) : blind (lift o).
Proof. intros st st' H. split; [reflexivity|exact H]. Qed.

Lemma blind_ret (A : Type) (a : A) : blind (ret a).
Proof. intros st st' H. split; [reflexivity|exact H]. Qed.

Lemma blind_effect (f : state -> state) :
  (forall st st', alike st st' -> alike (f st) (f st')) -> blind (effect f).
Proof. intros Hf st st' H. split; [reflexivity|apply Hf, H]. Qed.

Lemma blind_bind (A B : Type) (c : M A) (k : A -> M B) :
  blind c -> (forall a, blind (k a)) -> blind (bind c k).
Proof.
  intros Hc Hk st st' H. unfold bind. destruct (Hc st st' H) as [Hfst Hsnd].
  destruct (c st) as [[a|x] st1]; destruct (c st') as [[a'|x'] st1'];
    cbn [fst snd] in *; try discriminate Hfst.
  - injection Hfst as <-. apply Hk, Hsnd.
  - injection Hfst as <-. split; [reflexivity|exact Hsnd].
Qed.

Lemma blind_for_each (A : Type) (body : A -> M unit) (l : list A) :
  (forall x, blind (body x)) -> blind (for_each body l).
Proof.
  intros Hbody. induction l as [|x l IH]; cbn [for_each].
  - apply blind_ret.
  - apply blind_bind; [apply Hbody|intros _; exact IH].
Qed.

Ltac blind_steps :=
  repeat first
    [ apply blind_bind; [|intros ?]
    | apply blind_lift
    | apply blind_ret
    | apply blind_effect; intros ? ?;
      first [apply alike_emit | apply alike_write_log] ].

Lemma blind_report_message (e : env) (msg : json) :
  blind (report_message e msg).
Proof. unfold report_message. blind_steps. Qed.

Lemma blind_report_entry (e : env) (entry : json) :
  blind (report_entry e entry).
Proof.
  unfold report_entry. blind_steps.
  apply blind_for_each, blind_report_message.
Qed.

Lemma blind_write_results (e : env) (files : list json) :
  blind (write_results e files).
Proof.
  unfold write_results. blind_steps.
  apply blind_for_each, blind_report_entry.
Qed.

Lemma blind_analyze (e : env) (result : completed) :
  blind (analyze e result).
Proof.
  unfold analyze. cbv zeta.
  apply blind_bind; [blind_steps|intros _].
  apply blind_bind;
    [destruct (0 <? length (stderr result)); blind_steps|intros _].
  destruct (length (stdout result) =? 0); [blind_steps|].
  apply blind_bind; [blind_steps|intros _].
  apply blind_bind; [blind_steps|intros _].
  destruct (json_loads e (stdout result)).
  - apply blind_bind; [apply blind_lift|].
    intros files. apply blind_write_results.
  - blind_steps.
  - apply blind_lift.
Qed.

Lemma alike_settle (e : env) (c : M unit) (st st' : state) :
  blind c -> alike st st' -> alike (settle e (c st)) (settle e (c st')).
Proof.
  intros Hc H. destruct (Hc st st' H) as [Hfst Hsnd].
  destruct (c st) as [[u|x] st1]; destruct (c st') as [[u'|x'] st1'];
    cbn [fst snd settle] in *; try discriminate Hfst.
  - exact Hsnd.
  - injection Hfst as <-. unfold crash_handler.
    apply alike_write_log, alike_emit, Hsnd.
Qed.

(** X14. The exit status of the linter has no influence on the report:
    it is printed and used for nothing else.  With any other exit status
    and the same captured output, a run leaves the same log, and the same
    events but for the line that shows the status. *)
Theorem exit_status_ignored (e : env) (code : Z) (st : state) :
  logfile (main (with_returncode e code) st) = logfile (main e st)
  /\ apart_from_code (trace (main (with_returncode e code) st))
     = apart_from_code (trace (main e st)).
Proof.
  change (alike (main (with_returncode e code) st) (main e st)).
  destruct (getcwd e) as [cwd|x] eqn:Hcwd.
  - destruct (subprocess_run e (lint_command e)) as [result|x] eqn:Hrun.
    + assert (Hrun' : subprocess_run (with_returncode e code)
                        (lint_command (with_returncode e code))
                      = Ok {| returncode := code; stdout := stdout result;
                              stderr := stderr result |}).
      { cbn [subprocess_run with_returncode].
        change (lint_command (with_returncode e code)) with (lint_command e).
        rewrite Hrun. reflexivity. }
      rewrite (@main_analyze (with_returncode e code) st cwd _ Hcwd Hrun').
      rewrite (@main_analyze e st cwd result Hcwd Hrun).
      change (alike
                (settle e
                   (analyze e result
                      (print (clipboard ++ lit " Return Code: "
                                ++ str_of_Z code)
                         (emit (Exec (lint_command e))
                            (write_log e
                               (lit "Command: " ++ lint_command e ++ nl ++ nl)
                               ModeA
                               (print (zap ++ lit " Executing: "
                                         ++ lint_command e)
                                  (write_log e
                                     (lit "Run Location: " ++ cwd ++ nl) ModeA
                                     (print (open_folder
                                               ++ lit " Working Directory: "
                                               ++ cwd)
                                        (initialize_log e st)))))))))
                (settle e (analyze e result (reach_analysis e cwd result st)))).
      apply alike_settle; [apply blind_analyze|].
      unfold reach_analysis. split; [reflexivity|].
      unfold apart_from_code. rewrite !trace_print, !filter_app.
      f_equal.
    + assert (Hsame : main (with_returncode e code) st = main e st).
      { unfold main, try_block, bind, lift, effect.
        change (getcwd (with_returncode e code)) with (getcwd e).
        rewrite Hcwd.
        change (subprocess_run (with_returncode e code)
                  (lint_command (with_returncode e code)))
          with (match subprocess_run e (lint_command e) with
                | Ok r => Ok {| returncode := code; stdout := stdout r;
                               stderr := stderr r |}
                | Raise x => Raise x
                end).
        rewrite Hrun. reflexivity. }
      rewrite Hsame. split; reflexivity.
  - assert (Hsame : main (with_returncode e code) st = main e st).
    { unfold main, try_block, bind, lift.
      change (getcwd (with_returncode e code)) with (getcwd e).
      rewrite Hcwd. reflexivity. }
    rewrite Hsame. split; reflexivity.
Qed.

(** ESLint exits with 1 when it has found errors and with 2 when it could
    not run; the log of the four records is the same either way. *)
Example exit_status_ignored_sample :
  logfile (main (Sample.world 2 Sample.four_records []) Sample.fresh)
  = logfile (main (Sample.world 1 Sample.four_records []) Sample.fresh).
Proof. vm_compute. reflexivity. Qed.

(** ** A report cut short *)

Lemma for_each_stops (A : Type) (body : A -> M unit) (P : A -> Prop)
      (rendered : A -> text) (good : list A) (bad : A) (rest : list A)
      (x : exn) (partial : text) :
  (forall a st old, P a -> logfile st = Some old ->
                    exists st', body a st = (Ok tt, st')
                                /\ logfile st' = Some (old ++ rendered a)) ->
  (forall st old, logfile st = Some old ->
                  exists st', body bad st = (Raise x, st')
                              /\ logfile st' = Some (old ++ partial)) ->
  Forall P good ->
  forall st old, logfile st = Some old ->
    exists st', for_each body (good ++ bad :: rest) st = (Raise x, st')
                /\ logfile st'
                   = Some (old ++ concat (map rendered good) ++ partial).
Proof.
  intros Hgood Hbad. induction 1 as [|a good Ha _ IH]; intros st old Hold.
  - destruct (Hbad st old Hold) as [st1 [H1 L1]].
    exists st1. split; [|exact L1].
    cbn [app for_each]. unfold bind. rewrite H1. reflexivity.
  - destruct (Hgood a st old Ha Hold) as [st1 [H1 L1]].
    destruct (IH st1 _ L1) as [st2 [H2 L2]].
    exists st2. split.
    + cbn [app for_each]. unfold bind. rewrite H1. exact H2.
    + rewrite L2. cbn [map concat]. rewrite <- !app_assoc. reflexivity.
Qed.



End RunFacts.
